(** * Texas Hold'em engine of pokerbenchmark: a shallow embedding

    The development follows [poker_game.py] (cards, [PokerHand.evaluate],
    the [TexasHoldem] betting engine) and the aggregation at the end of
    [GameSimulator.run_benchmark] in [game_simulator.py].

    Python [int]s are [Z]; a [dict] keyed by player name is a [gmap string _]
    where only lookups matter and an association list kept in insertion
    order where the code iterates over it; a [set] is a [gset]; an exception
    is a value of [exn] carried by the [result] type. *)

From stdpp Require Import gmap strings list fin_maps sorting.
From Stdlib Require Import ZArith Lia.

Local Open Scope Z_scope.

(** ** Exceptions *)

Inductive exn : Type :=
| KeyError
| IndexError
| ValueError
| TypeError
| AttributeError
| ZeroDivisionError.

Inductive result (A : Type) : Type :=
| Ok (a : A)
| Raise (e : exn).
Arguments Ok {A} a.
Arguments Raise {A} e.

#[global] Instance result_bind : MBind result := fun A B f m =>
  match m with
  | Ok a => f a
  | Raise e => Raise e
  end.

(** [xs[0]] *)
Definition item0 {A} (xs : list A) : result A :=
  match xs with
  | x :: _ => Ok x
  | [] => Raise IndexError
  end.

(** [max(xs)] on integers: the first largest element, [ValueError] on an
    empty sequence. *)
Definition py_max (xs : list Z) : result Z :=
  match xs with
  | [] => Raise ValueError
  | x :: rest => Ok (foldl (fun m y => if bool_decide (y > m) then y else m) x rest)
  end.

(** [sorted(xs)] and [sorted(xs, reverse=True)] on integers. *)
Definition sorted (xs : list Z) : list Z := merge_sort Z.le xs.
Definition sorted_reverse (xs : list Z) : list Z := merge_sort Z.ge xs.

(** ** Dictionaries whose iteration order the code relies on *)

Module PyDict.
Section dict.
Context {K V : Type} `{EqDecision K}.

(** [d.get(k, default)] *)
Fixpoint get (d : list (K * V)) (k : K) (default : V) : V :=
  match d with
  | [] => default
  | (k', v) :: d' => if decide (k' = k) then v else get d' k default
  end.

(** [d[k] = v]: an existing key keeps its position, a new key goes last. *)
Fixpoint set (d : list (K * V)) (k : K) (v : V) : list (K * V) :=
  match d with
  | [] => [(k, v)]
  | (k', v') :: d' =>
      if decide (k' = k) then (k', v) :: d' else (k', v') :: set d' k v
  end.

Definition values (d : list (K * V)) : list V := map snd d.
End dict.
End PyDict.

(** ** Cards *)

Inductive Suit : Type := HEARTS | DIAMONDS | CLUBS | SPADES.

Inductive Rank : Type :=
| TWO | THREE | FOUR | FIVE | SIX | SEVEN | EIGHT
| NINE | TEN | JACK | QUEEN | KING | ACE.

Definition Rank_value (r : Rank) : Z :=
  match r with
  | TWO => 2 | THREE => 3 | FOUR => 4 | FIVE => 5 | SIX => 6
  | SEVEN => 7 | EIGHT => 8 | NINE => 9 | TEN => 10
  | JACK => 11 | QUEEN => 12 | KING => 13 | ACE => 14
  end.

Record Card : Type := mkCard { rank : Rank; suit : Suit }.

#[global] Instance Suit_eq_dec : EqDecision Suit.
Proof. solve_decision. Defined.
#[global] Instance Rank_eq_dec : EqDecision Rank.
Proof. solve_decision. Defined.
#[global] Instance Card_eq_dec : EqDecision Card.
Proof. solve_decision. Defined.

Definition Suit_index (s : Suit) : nat :=
  match s with HEARTS => 0 | DIAMONDS => 1 | CLUBS => 2 | SPADES => 3 end%nat.
Definition Suit_of_index (n : nat) : Suit :=
  match n with O => HEARTS | 1%nat => DIAMONDS | 2%nat => CLUBS | _ => SPADES end.

#[global] Instance Suit_countable : Countable Suit.
Proof. apply (inj_countable' Suit_index Suit_of_index). by intros []. Defined.

(** ** Hand evaluations and their order *)

Inductive HandRank : Type :=
| HIGH_CARD | PAIR | TWO_PAIR | THREE_OF_A_KIND | STRAIGHT
| FLUSH | FULL_HOUSE | FOUR_OF_A_KIND | STRAIGHT_FLUSH | ROYAL_FLUSH.

Definition HandRank_value (r : HandRank) : Z :=
  match r with
  | HIGH_CARD => 1 | PAIR => 2 | TWO_PAIR => 3 | THREE_OF_A_KIND => 4
  | STRAIGHT => 5 | FLUSH => 6 | FULL_HOUSE => 7 | FOUR_OF_A_KIND => 8
  | STRAIGHT_FLUSH => 9 | ROYAL_FLUSH => 10
  end.

#[global] Instance HandRank_eq_dec : EqDecision HandRank.
Proof. solve_decision. Defined.

Record HandEvaluation : Type :=
  mkHandEvaluation { hand_rank : HandRank; kickers : list Z }.

#[global] Instance HandEvaluation_eq_dec : EqDecision HandEvaluation.
Proof. solve_decision. Defined.

(** Python's list comparison: the first position where the two lists
    differ decides; when one list is a prefix of the other the shorter one
    is the smaller. *)
Fixpoint list_lt (a b : list Z) : bool :=
  match a, b with
  | x :: a', y :: b' => if bool_decide (x = y) then list_lt a' b' else bool_decide (x < y)
  | [], _ :: _ => true
  | _, [] => false
  end.

Fixpoint list_gt (a b : list Z) : bool :=
  match a, b with
  | x :: a', y :: b' => if bool_decide (x = y) then list_gt a' b' else bool_decide (x > y)
  | _ :: _, [] => true
  | [], _ => false
  end.

(** [HandEvaluation.__lt__] *)
Definition he_lt (self other : HandEvaluation) : bool :=
  if bool_decide (HandRank_value (hand_rank self) ≠ HandRank_value (hand_rank other))
  then bool_decide (HandRank_value (hand_rank self) < HandRank_value (hand_rank other))
  else list_lt (kickers self) (kickers other).

(** [HandEvaluation.__gt__] *)
Definition he_gt (self other : HandEvaluation) : bool :=
  if bool_decide (HandRank_value (hand_rank self) ≠ HandRank_value (hand_rank other))
  then bool_decide (HandRank_value (hand_rank self) > HandRank_value (hand_rank other))
  else list_gt (kickers self) (kickers other).

(** [HandEvaluation.__eq__] *)
Definition he_eq (self other : HandEvaluation) : bool :=
  bool_decide (HandRank_value (hand_rank self) = HandRank_value (hand_rank other))
  && bool_decide (kickers self = kickers other).

(** [HandEvaluation.__ge__] and [HandEvaluation.__le__] *)
Definition he_ge (self other : HandEvaluation) : bool :=
  he_gt self other || he_eq self other.
Definition he_le (self other : HandEvaluation) : bool :=
  he_lt self other || he_eq self other.

(** ** PokerHand *)

(** [PokerHand._is_straight] *)
Definition _is_straight (ranks : list Z) : bool :=
  let sorted_ranks := sorted (elements (list_to_set ranks : gset Z)) in
  if bool_decide (length sorted_ranks ≠ 5%nat) then false
  else if bool_decide (sorted_ranks = [2; 3; 4; 5; 14]) then true
  else
    forallb (fun i : nat =>
               bool_decide (sorted_ranks !!! i = sorted_ranks !!! (i - 1)%nat + 1))
            [1; 2; 3; 4]%nat.

(** The loop [for rank in ranks: rank_counts[rank] = rank_counts.get(rank, 0) + 1] *)
Definition count_ranks (ranks : list Z) : list (Z * Z) :=
  foldl (fun rank_counts rank =>
           PyDict.set rank_counts rank (PyDict.get rank_counts rank 0 + 1))
        [] ranks.

(** [[rank for rank, count in rank_counts.items() if count == n]] *)
Definition ranks_with_count (rank_counts : list (Z * Z)) (n : Z) : list Z :=
  map fst (filter (fun rc => rc.2 = n) rank_counts).

(** [PokerHand.evaluate] *)
Definition evaluate (cards : list Card) : result HandEvaluation :=
  let ranks := sorted_reverse (map (fun card => Rank_value (rank card)) cards) in
  let suits := map suit cards in
  let rank_counts := count_ranks ranks in
  let is_flush := bool_decide (size (list_to_set suits : gset Suit) = 1%nat) in
  let is_straight := _is_straight ranks in
  if is_straight && is_flush then
    r0 ← item0 ranks;
    if bool_decide (r0 = 14) then Ok (mkHandEvaluation ROYAL_FLUSH [14])
    else m ← py_max ranks; Ok (mkHandEvaluation STRAIGHT_FLUSH [m])
  else
    let counts := sorted_reverse (PyDict.values rank_counts) in
    if bool_decide (counts = [4; 1]) then
      four_kind ← item0 (ranks_with_count rank_counts 4);
      kicker ← item0 (ranks_with_count rank_counts 1);
      Ok (mkHandEvaluation FOUR_OF_A_KIND [four_kind; kicker])
    else if bool_decide (counts = [3; 2]) then
      three_kind ← item0 (ranks_with_count rank_counts 3);
      pair ← item0 (ranks_with_count rank_counts 2);
      Ok (mkHandEvaluation FULL_HOUSE [three_kind; pair])
    else if is_flush then Ok (mkHandEvaluation FLUSH ranks)
    else if is_straight then
      m ← py_max ranks; Ok (mkHandEvaluation STRAIGHT [m])
    else if bool_decide (counts = [3; 1; 1]) then
      three_kind ← item0 (ranks_with_count rank_counts 3);
      let kickers := sorted_reverse (ranks_with_count rank_counts 1) in
      Ok (mkHandEvaluation THREE_OF_A_KIND ([three_kind] ++ kickers))
    else if bool_decide (counts = [2; 2; 1]) then
      let pairs := sorted_reverse (ranks_with_count rank_counts 2) in
      kicker ← item0 (ranks_with_count rank_counts 1);
      Ok (mkHandEvaluation TWO_PAIR (pairs ++ [kicker]))
    else if bool_decide (counts = [2; 1; 1; 1]) then
      pair ← item0 (ranks_with_count rank_counts 2);
      let kickers := sorted_reverse (ranks_with_count rank_counts 1) in
      Ok (mkHandEvaluation PAIR ([pair] ++ kickers))
    else Ok (mkHandEvaluation HIGH_CARD ranks).

Definition card (r : Rank) (s : Suit) : Card := mkCard r s.

(** [itertools.combinations(cards, r)], in the order the iterator yields. *)
Fixpoint combinations {A} (l : list A) (r : nat) : list (list A) :=
  match r, l with
  | O, _ => [[]]
  | S _, [] => []
  | S r', x :: t => map (cons x) (combinations t r') ++ combinations t r
  end.

(** ** The table state

    The attributes of a [TexasHoldem] object.  [deck] holds [Deck.cards]
    ([None] until the first hand); [Deck.deal] pops the last card. *)

Record TexasHoldem : Type := mkTexasHoldem {
  players : list string;
  starting_chips : Z;
  small_blind : Z;
  big_blind : Z;
  chips : gmap string Z;
  deck : option (list Card);
  community_cards : list Card;
  hole_cards : gmap string (list Card);
  pot : Z;
  current_bet : Z;
  player_bets : gmap string Z;
  active_players : list string;
  folded_players : gset string;
  dealer_position : Z
}.

Definition set_players (v : list string) (g : TexasHoldem) : TexasHoldem :=
  mkTexasHoldem v (starting_chips g) (small_blind g) (big_blind g) (chips g) (deck g) (community_cards g) (hole_cards g) (pot g) (current_bet g) (player_bets g) (active_players g) (folded_players g) (dealer_position g).
Definition set_chips (v : gmap string Z) (g : TexasHoldem) : TexasHoldem :=
  mkTexasHoldem (players g) (starting_chips g) (small_blind g) (big_blind g) v (deck g) (community_cards g) (hole_cards g) (pot g) (current_bet g) (player_bets g) (active_players g) (folded_players g) (dealer_position g).
Definition set_deck (v : option (list Card)) (g : TexasHoldem) : TexasHoldem :=
  mkTexasHoldem (players g) (starting_chips g) (small_blind g) (big_blind g) (chips g) v (community_cards g) (hole_cards g) (pot g) (current_bet g) (player_bets g) (active_players g) (folded_players g) (dealer_position g).
Definition set_community_cards (v : list Card) (g : TexasHoldem) : TexasHoldem :=
  mkTexasHoldem (players g) (starting_chips g) (small_blind g) (big_blind g) (chips g) (deck g) v (hole_cards g) (pot g) (current_bet g) (player_bets g) (active_players g) (folded_players g) (dealer_position g).
Definition set_hole_cards (v : gmap string (list Card)) (g : TexasHoldem) : TexasHoldem :=
  mkTexasHoldem (players g) (starting_chips g) (small_blind g) (big_blind g) (chips g) (deck g) (community_cards g) v (pot g) (current_bet g) (player_bets g) (active_players g) (folded_players g) (dealer_position g).
Definition set_pot (v : Z) (g : TexasHoldem) : TexasHoldem :=
  mkTexasHoldem (players g) (starting_chips g) (small_blind g) (big_blind g) (chips g) (deck g) (community_cards g) (hole_cards g) v (current_bet g) (player_bets g) (active_players g) (folded_players g) (dealer_position g).
Definition set_current_bet (v : Z) (g : TexasHoldem) : TexasHoldem :=
  mkTexasHoldem (players g) (starting_chips g) (small_blind g) (big_blind g) (chips g) (deck g) (community_cards g) (hole_cards g) (pot g) v (player_bets g) (active_players g) (folded_players g) (dealer_position g).
Definition set_player_bets (v : gmap string Z) (g : TexasHoldem) : TexasHoldem :=
  mkTexasHoldem (players g) (starting_chips g) (small_blind g) (big_blind g) (chips g) (deck g) (community_cards g) (hole_cards g) (pot g) (current_bet g) v (active_players g) (folded_players g) (dealer_position g).
Definition set_active_players (v : list string) (g : TexasHoldem) : TexasHoldem :=
  mkTexasHoldem (players g) (starting_chips g) (small_blind g) (big_blind g) (chips g) (deck g) (community_cards g) (hole_cards g) (pot g) (current_bet g) (player_bets g) v (folded_players g) (dealer_position g).
Definition set_folded_players (v : gset string) (g : TexasHoldem) : TexasHoldem :=
  mkTexasHoldem (players g) (starting_chips g) (small_blind g) (big_blind g) (chips g) (deck g) (community_cards g) (hole_cards g) (pot g) (current_bet g) (player_bets g) (active_players g) v (dealer_position g).
Definition set_dealer_position (v : Z) (g : TexasHoldem) : TexasHoldem :=
  mkTexasHoldem (players g) (starting_chips g) (small_blind g) (big_blind g) (chips g) (deck g) (community_cards g) (hole_cards g) (pot g) (current_bet g) (player_bets g) (active_players g) (folded_players g) v.

(** ** Methods as state transformers

    A method of [TexasHoldem] maps the object before the call to a value or
    an exception, together with the object after the call: the mutations
    made before an exception is raised stay. *)

Definition M (A : Type) : Type := TexasHoldem → result A * TexasHoldem.

#[global] Instance M_bind : MBind M := fun A B f m g =>
  match m g with
  | (Ok a, g') => f a g'
  | (Raise e, g') => (Raise e, g')
  end.

Definition self : M TexasHoldem := fun g => (Ok g, g).
Definition modify (f : TexasHoldem → TexasHoldem) : M unit := fun g => (Ok tt, f g).
Definition raise {A} (e : exn) : M A := fun g => (Raise e, g).
Definition lift {A} (r : result A) : M A := fun g => (r, g).
Definition ret {A} (a : A) : M A := fun g => (Ok a, g).
Definition pass : M unit := ret tt.

(** [d[k]] on a dictionary. *)
Definition getitem {V} (d : gmap string V) (k : string) : result V :=
  match d !! k with
  | Some v => Ok v
  | None => Raise KeyError
  end.

(** [for x in xs: body(x)] *)
Fixpoint for_each {A} (xs : list A) (body : A → M unit) : M unit :=
  match xs with
  | [] => pass
  | x :: xs' => body x ;; for_each xs' body
  end.

(** The view handed out by the engine ([GameState] in the source). *)
Module GameState.
Record t : Type := mk {
  community_cards : list Card;
  pot_size : Z;
  current_bet : Z;
  player_chips : gmap string Z;
  player_hole_cards : gmap string (list Card);
  active_players : list string;
  betting_round : string;
  to_act : string
}.
End GameState.

Inductive GameAction : Type := FOLD | CALL | RAISE | CHECK.

Record PlayerAction : Type := mkPlayerAction { action : GameAction; amount : Z }.

(** [TexasHoldem.__init__] *)
Definition TexasHoldem_init (players : list string)
    (starting_chips small_blind big_blind : Z) : TexasHoldem :=
  {| players := players;
     starting_chips := starting_chips;
     small_blind := small_blind;
     big_blind := big_blind;
     chips := list_to_map ((fun player => (player, starting_chips)) <$> players);
     deck := None;
     community_cards := [];
     hole_cards := ∅;
     pot := 0;
     current_bet := 0;
     player_bets := ∅;
     active_players := [];
     folded_players := ∅;
     dealer_position := 0 |}.

(** [Deck.deal], through [self.deck]. *)
Definition deal : M Card := fun g =>
  match deck g with
  | None => (Raise AttributeError, g)
  | Some cards =>
      match last cards with
      | None => (Raise IndexError, g)
      | Some c => (Ok c, set_deck (Some (removelast cards)) g)
      end
  end.

(** [[p for p in ps if chips[p] > 0]] *)
Fixpoint with_chips (chips : gmap string Z) (ps : list string) : result (list string) :=
  match ps with
  | [] => Ok []
  | p :: ps' =>
      c ← getitem chips p;
      rest ← with_chips chips ps';
      Ok (if bool_decide (c > 0) then p :: rest else rest)
  end.

(** [[p for p in self.active_players if p not in self.folded_players]] *)
Definition not_folded (g : TexasHoldem) : list string :=
  filter (fun p => p ∉ folded_players g) (active_players g).

(** [TexasHoldem._place_bet] *)
Definition _place_bet (player : string) (amount : Z) : M unit :=
  g ← self;
  c ← lift (getitem (chips g) player);
  let actual_amount := Z.min amount c in
  modify (fun g => set_chips (<[player := c - actual_amount]> (chips g)) g) ;;
  g ← self;
  b ← lift (getitem (player_bets g) player);
  modify (fun g => set_player_bets (<[player := b + actual_amount]> (player_bets g)) g) ;;
  modify (fun g => set_pot (pot g + actual_amount) g).

(** [TexasHoldem._get_game_state] *)
Definition _get_game_state (betting_round : option string) : M GameState.t :=
  g ← self;
  let betting_round :=
    match betting_round with
    | Some r => r
    | None =>
        if bool_decide (community_cards g = []) then "preflop"
        else if bool_decide (length (community_cards g) = 3%nat) then "flop"
        else if bool_decide (length (community_cards g) = 4%nat) then "turn"
        else "river"
    end in
  let active := not_folded g in
  let to_act := match active with p :: _ => p | [] => "" end in
  ret (GameState.mk (community_cards g) (pot g) (current_bet g) (chips g)
          (hole_cards g) active betting_round to_act).

(** [lst[i]] for an index that is never negative here. *)
Definition getindex {A} (xs : list A) (i : Z) : result A :=
  match xs !! Z.to_nat i with
  | Some x => Ok x
  | None => Raise IndexError
  end.

(** [TexasHoldem.start_hand], in the three parts the source marks: the
    resets up to [self.folded_players = set()], the loop under
    [# Deal hole cards], the block under [# Post blinds].  [shuffled] is the
    order [random.shuffle] left the 52 cards of the new [Deck] in. *)
Definition reset_table (shuffled : list Card) : M unit :=
  modify (set_deck (Some shuffled)) ;;
  modify (set_community_cards []) ;;
  modify (set_hole_cards ∅) ;;
  modify (set_pot 0) ;;
  modify (set_current_bet 0) ;;
  modify (fun g => set_player_bets (list_to_map ((fun player => (player, 0)) <$> players g)) g) ;;
  g ← self;
  active ← lift (with_chips (chips g) (players g));
  modify (set_active_players active) ;;
  modify (set_folded_players ∅).

Definition deal_to (player : string) : M unit :=
  c1 ← deal;
  c2 ← deal;
  modify (fun g => set_hole_cards (<[player := [c1; c2]]> (hole_cards g)) g).

Definition deal_hole_cards : M unit :=
  g ← self;
  for_each (active_players g) deal_to.

Definition post_blinds : M unit :=
  g ← self;
  if bool_decide (2 ≤ length (active_players g))%nat then
    let n := Z.of_nat (length (active_players g)) in
    sb_player ← lift (getindex (active_players g) ((dealer_position g + 1) `mod` n));
    bb_player ← lift (getindex (active_players g) ((dealer_position g + 2) `mod` n));
    g ← self;
    c ← lift (getitem (chips g) sb_player);
    _place_bet sb_player (Z.min (small_blind g) c) ;;
    g ← self;
    c ← lift (getitem (chips g) bb_player);
    _place_bet bb_player (Z.min (big_blind g) c) ;;
    modify (fun g => set_current_bet (big_blind g) g)
  else pass.

Definition start_hand (shuffled : list Card) : M GameState.t :=
  reset_table shuffled ;;
  deal_hole_cards ;;
  post_blinds ;;
  _get_game_state (Some "preflop").

(** [TexasHoldem.process_action] *)
Definition process_action (player : string) (a : PlayerAction) : M (option GameState.t) :=
  g ← self;
  if bool_decide (player ∈ folded_players g) || bool_decide (player ∉ active_players g)
  then ret None
  else
    match action a with
    | FOLD =>
        modify (fun g => set_folded_players ({[player]} ∪ folded_players g) g) ;;
        view ← _get_game_state None; ret (Some view)
    | CALL =>
        b ← lift (getitem (player_bets g) player);
        let call_amount := current_bet g - b in
        _place_bet player call_amount ;;
        view ← _get_game_state None; ret (Some view)
    | RAISE =>
        b ← lift (getitem (player_bets g) player);
        let total_bet := b + amount a in
        (if bool_decide (total_bet > current_bet g) then
           _place_bet player (amount a) ;;
           modify (set_current_bet total_bet)
         else pass) ;;
        view ← _get_game_state None; ret (Some view)
    | CHECK =>
        b ← lift (getitem (player_bets g) player);
        if bool_decide (b < current_bet g) then ret None
        else view ← _get_game_state None; ret (Some view)
    end.

(** [TexasHoldem._get_best_hand]: [best_hand_step] is the body of its loop,
    run from [best_hand = None]; the result is [None] when there is no
    five-card combination. *)
Definition best_hand_step (acc : result (option HandEvaluation)) (five_cards : list Card)
  : result (option HandEvaluation) :=
  best_hand ← acc;
  evaluation ← evaluate five_cards;
  match best_hand with
  | None => Ok (Some evaluation)
  | Some b => Ok (if he_gt evaluation b then Some evaluation else Some b)
  end.

Definition _get_best_hand (cards : list Card) : result (option HandEvaluation) :=
  foldl best_hand_step (Ok None) (combinations cards 5).

(** [a > b] and [a >= b] where either side may be [None]: the methods of
    [HandEvaluation] read [other.rank], and [None] has no ordering. *)
Definition opt_gt (a b : option HandEvaluation) : result bool :=
  match a, b with
  | Some x, Some y => Ok (he_gt x y)
  | None, None => Raise TypeError
  | _, _ => Raise AttributeError
  end.

Definition opt_ge (a b : option HandEvaluation) : result bool :=
  match a, b with
  | Some x, Some y => Ok (he_ge x y)
  | None, None => Raise TypeError
  | _, _ => Raise AttributeError
  end.

(** [max(player_hands.values())]: the first item, then each further item
    replaces the running maximum when it compares greater. *)
Definition max_step (acc : result (option HandEvaluation)) (item : option HandEvaluation)
  : result (option HandEvaluation) :=
  m ← acc;
  greater ← opt_gt item m;
  Ok (if greater : bool then item else m).

Definition max_hand (hands : list (option HandEvaluation)) : result (option HandEvaluation) :=
  match hands with
  | [] => Raise ValueError
  | h :: rest => foldl max_step (Ok h) rest
  end.

(** The loop filling [player_hands] in [_determine_winner]; [collect_step]
    is its body. *)
Definition collect_step (g : TexasHoldem)
    (acc : result (list (string * option HandEvaluation))) (player : string)
  : result (list (string * option HandEvaluation)) :=
  player_hands ← acc;
  hole ← getitem (hole_cards g) player;
  let all_cards := hole ++ community_cards g in
  best_hand ← _get_best_hand all_cards;
  Ok (PyDict.set player_hands player best_hand).

Definition collect_hands (g : TexasHoldem) (active : list string)
  : result (list (string * option HandEvaluation)) :=
  foldl (collect_step g) (Ok []) active.

(** [[p for p, hand in player_hands.items() if hand >= best_evaluation]] *)
Fixpoint winners_of (player_hands : list (string * option HandEvaluation))
    (best_evaluation : option HandEvaluation) : result (list string) :=
  match player_hands with
  | [] => Ok []
  | (p, hand) :: rest =>
      keep ← opt_ge hand best_evaluation;
      ws ← winners_of rest best_evaluation;
      Ok (if keep : bool then p :: ws else ws)
  end.

(** The loop crediting the winners in [_determine_winner]. *)
Fixpoint pay_winners (winners : list string) (winnings_per_player : Z)
    (results : list (string * Z)) : M (list (string * Z)) :=
  match winners with
  | [] => ret results
  | winner :: rest =>
      g ← self;
      c ← lift (getitem (chips g) winner);
      modify (fun g => set_chips (<[winner := c + winnings_per_player]> (chips g)) g) ;;
      pay_winners rest winnings_per_player (PyDict.set results winner winnings_per_player)
  end.

(** [TexasHoldem._determine_winner] *)
Definition _determine_winner : M (list (string * Z)) :=
  g ← self;
  let active_players := not_folded g in
  if bool_decide (length active_players = 1%nat) then
    winner ← lift (item0 active_players);
    c ← lift (getitem (chips g) winner);
    modify (fun g => set_chips (<[winner := c + pot g]> (chips g)) g) ;;
    g ← self;
    ret [(winner, pot g)]
  else
    player_hands ← lift (collect_hands g active_players);
    best_evaluation ← lift (max_hand (PyDict.values player_hands));
    winners ← lift (winners_of player_hands best_evaluation);
    if bool_decide (length winners = 0%nat) then raise ZeroDivisionError
    else
      let winnings_per_player := pot g `div` Z.of_nat (length winners) in
      pay_winners winners winnings_per_player [].

(** [advance_betting_round] returns a view, or at showdown the winnings. *)
Inductive Advanced : Type :=
| NextStreet (view : GameState.t)
| Showdown (results : list (string * Z)).

(** [TexasHoldem.advance_betting_round] *)
Definition advance_betting_round : M Advanced :=
  modify (fun g => set_player_bets (list_to_map ((fun player => (player, 0)) <$> players g)) g) ;;
  modify (set_current_bet 0) ;;
  g ← self;
  if bool_decide (community_cards g = []) then
    c1 ← deal; c2 ← deal; c3 ← deal;
    modify (set_community_cards [c1; c2; c3]) ;;
    view ← _get_game_state (Some "flop"); ret (NextStreet view)
  else if bool_decide (length (community_cards g) = 3%nat) then
    c ← deal;
    modify (fun g => set_community_cards (community_cards g ++ [c]) g) ;;
    view ← _get_game_state (Some "turn"); ret (NextStreet view)
  else if bool_decide (length (community_cards g) = 4%nat) then
    c ← deal;
    modify (fun g => set_community_cards (community_cards g ++ [c]) g) ;;
    view ← _get_game_state (Some "river"); ret (NextStreet view)
  else
    results ← _determine_winner; ret (Showdown results).

(** [TexasHoldem.is_hand_complete] *)
Definition is_hand_complete (g : TexasHoldem) : bool :=
  bool_decide (length (not_folded g) ≤ 1)%nat.

(** [TexasHoldem.next_hand] *)
Definition next_hand : M unit :=
  g ← self;
  (if bool_decide (players g = []) then raise ZeroDivisionError
   else modify (set_dealer_position
                  ((dealer_position g + 1) `mod` Z.of_nat (length (players g))))) ;;
  g ← self;
  ps ← lift (with_chips (chips g) (players g));
  modify (set_players ps).

(** ** The orchestrator's call of an agent and the benchmark roll-up *)

(** The arguments [_play_single_hand] passes to [player.make_decision]: the
    latest view returned by the engine and [game.hole_cards[player_name]]. *)
Definition decision_input (g : TexasHoldem) (game_state : GameState.t)
    (player_name : string) : result (GameState.t * list Card) :=
  hole ← getitem (hole_cards g) player_name;
  Ok (game_state, hole).

(** [GameResults]; [session_duration] and [hand_results] play no part in
    the roll-up modelled here. *)
Record GameResults : Type := mkGameResults {
  player_final_chips : gmap string Z;
  hands_played : Z
}.

(** [session.player_final_chips.values()]; the order does not affect
    [max]. *)
Definition final_chip_values (session : GameResults) : list Z :=
  (map_to_list (player_final_chips session)).*2.

(** The condition of the generator in [sessions_won]:
    [session.player_final_chips.get(name, 0) == max(session.player_final_chips.values())] *)
Definition tops_session (name : string) (session : GameResults) : result bool :=
  m ← py_max (final_chip_values session);
  Ok (bool_decide (default 0 (player_final_chips session !! name) = m)).

(** [sessions_won = sum(1 for session in session_results if ...)] in
    [GameSimulator.run_benchmark]. *)
Fixpoint sessions_won (name : string) (session_results : list GameResults) : result Z :=
  match session_results with
  | [] => Ok 0
  | session :: rest =>
      top ← tops_session name session;
      n ← sessions_won name rest;
      Ok ((if top : bool then 1 else 0) + n)
  end.

(** ** Notions used in the statements *)

(** Sum of the stacks: [sum(self.chips.values())]. *)
Definition stacks (chips : gmap string Z) : Z :=
  map_fold (fun _ c acc => c + acc) 0 chips.

(** Chips on the table: all stacks plus the pot. *)
Definition on_table (g : TexasHoldem) : Z := stacks (chips g) + pot g.

(** The table a method call leaves behind. *)
Definition after {A} (m : M A) (g : TexasHoldem) : TexasHoldem := (m g).2.

(** Dealing touches the deck and the hole cards only. *)
Definition dealt_from (g g' : TexasHoldem) : Prop :=
  g' = set_hole_cards (hole_cards g') (set_deck (deck g') g).

(** The three calls of [advance_betting_round] that deal a street. *)
Definition deals_street (g : TexasHoldem) : Prop :=
  community_cards g = [] ∨ length (community_cards g) = 3%nat
  ∨ length (community_cards g) = 4%nat.

(** Every collected best hand is an evaluation, none is [None]. *)
Definition all_evaluated (ph : list (string * option HandEvaluation)) : Prop :=
  ∀ p h, (p, h) ∈ ph → is_Some h.

(** The tables reached within one hand started on [g0]: the hand is
    started on a table whose players all have a stack entry, with two cards
    per player in the deck; then actions are applied and streets dealt. *)
Inductive in_hand (g0 : TexasHoldem) : TexasHoldem → Prop :=
| hand_started (shuffled : list Card) :
    (∀ p, p ∈ players g0 → is_Some (chips g0 !! p)) →
    (2 * length (players g0) ≤ length shuffled)%nat →
    in_hand g0 (start_hand shuffled g0).2
| action_applied (g : TexasHoldem) (player : string) (a : PlayerAction) :
    in_hand g0 g → in_hand g0 (process_action player a g).2
| street_dealt (g : TexasHoldem) :
    in_hand g0 g → deals_street g → in_hand g0 (advance_betting_round g).2.

(** ** Hands and tables used as examples *)

(** The 52 cards in the order [Deck.__init__] builds them, before the
    shuffle. *)
Definition unshuffled : list Card :=
  r ← [TWO; THREE; FOUR; FIVE; SIX; SEVEN; EIGHT; NINE; TEN; JACK; QUEEN; KING; ACE];
  s ← [HEARTS; DIAMONDS; CLUBS; SPADES];
  [mkCard r s].

Definition wheel : list Card :=
  [card ACE HEARTS; card TWO DIAMONDS; card THREE CLUBS; card FOUR SPADES; card FIVE HEARTS].
Definition six_to_ten : list Card :=
  [card SIX HEARTS; card SEVEN DIAMONDS; card EIGHT CLUBS; card NINE SPADES; card TEN HEARTS].
Definition steel_wheel : list Card :=
  [card ACE CLUBS; card TWO CLUBS; card THREE CLUBS; card FOUR CLUBS; card FIVE CLUBS].

(** A heads-up table: A and B with 100 chips each, blinds 5/10, the
    button on A (seat 0); the same table once a hand has started (A holds
    90 and has put in 10, B holds 95 and has put in 5, the bet to match is
    10); and that table after B has folded. *)
Definition heads_up : TexasHoldem := TexasHoldem_init ["A"; "B"] 100 5 10.
Definition heads_up_preflop : TexasHoldem :=
  Eval vm_compute in after (start_hand unshuffled) heads_up.
Definition heads_up_folded : TexasHoldem :=
  Eval vm_compute in after (process_action "B" (mkPlayerAction FOLD 0)) heads_up_preflop.

(** B with a stack of 7 and nothing put in yet, facing a bet of 10. *)
Definition short_stack : TexasHoldem :=
  Eval vm_compute in
  set_chips (<["B" := 7]> (chips heads_up_preflop))
    (set_player_bets (<["B" := 0]> (player_bets heads_up_preflop)) heads_up_preflop).

(** A three-handed hand in which A and C both end up playing the board.
    [tie_dealt] are the cards in the order they are dealt: two to A, B and
    C each, then flop, turn and river; [tie_deck] is a full deck with these
    on top.  B posts 5, C posts 10, A calls, B folds, C checks, and the
    three streets are dealt. *)
Definition tie_dealt : list Card :=
  [card TWO CLUBS; card THREE DIAMONDS; card SEVEN HEARTS; card EIGHT HEARTS;
   card TWO DIAMONDS; card THREE CLUBS;
   card ACE SPADES; card KING SPADES; card QUEEN HEARTS; card JACK DIAMONDS;
   card NINE CLUBS].
Definition tie_deck : list Card :=
  filter (fun c => c ∉ tie_dealt) unshuffled ++ rev tie_dealt.
Definition three_way : TexasHoldem := TexasHoldem_init ["A"; "B"; "C"] 100 5 10.
Definition three_way_play (g : TexasHoldem) : TexasHoldem :=
  after advance_betting_round
    (after advance_betting_round
       (after advance_betting_round
          (after (process_action "C" (mkPlayerAction CHECK 0))
             (after (process_action "B" (mkPlayerAction FOLD 0))
                (after (process_action "A" (mkPlayerAction CALL 0))
                   (after (start_hand tie_deck) g)))))).
Definition three_way_river : TexasHoldem := Eval vm_compute in three_way_play three_way.

(** A session that A and B both end with 1000 chips. *)
Definition tied_session : GameResults :=
  mkGameResults (<["A" := 1000]> (<["B" := 1000]> ∅)) 100.

(** ** Further notions used in the statements *)

(** The number of cards of a hand whose rank has value [r]. *)
Definition cards_of_rank (cards : list Card) (r : Z) : nat :=
  length (filter (fun c => Rank_value (rank c) = r) cards).

(** The number of tiebreak ranks each [return] of [evaluate] builds for a
    five-card hand of the given category. *)
Definition tiebreak_length (r : HandRank) : nat :=
  match r with
  | HIGH_CARD | FLUSH => 5
  | PAIR => 4
  | TWO_PAIR | THREE_OF_A_KIND => 3
  | FULL_HOUSE | FOUR_OF_A_KIND => 2
  | STRAIGHT | STRAIGHT_FLUSH | ROYAL_FLUSH => 1
  end.

(** [TexasHoldem.should_advance_to_showdown] *)
Definition should_advance_to_showdown (g : TexasHoldem) : bool :=
  bool_decide (length (not_folded g) ≤ 1)%nat
  || bool_decide (length (community_cards g) = 5%nat).

(** The tables reached from [g] by any sequence of [process_action] and
    [advance_betting_round] calls (no new hand is started). *)
Inductive plays (g : TexasHoldem) : TexasHoldem → Prop :=
| plays_nothing : plays g g
| plays_action (g' : TexasHoldem) (player : string) (a : PlayerAction) :
    plays g g' → plays g (process_action player a g').2
| plays_street (g' : TexasHoldem) :
    plays g g' → plays g (advance_betting_round g').2.

(** The cards that have left the deck: every player's hole cards and the
    community cards. *)
Definition cards_out (g : TexasHoldem) : list Card :=
  concat (map_to_list (hole_cards g)).*2 ++ community_cards g.

(** The cards still in the deck (none before the first hand). *)
Definition cards_left (g : TexasHoldem) : list Card := default [] (deck g).

(** The best hand [_determine_winner] computes for a player:
    [self._get_best_hand(self.hole_cards[player] + self.community_cards)]. *)
Definition showdown_hand (g : TexasHoldem) (player : string)
  : result (option HandEvaluation) :=
  hole ← getitem (hole_cards g) player;
  _get_best_hand (hole ++ community_cards g).

(** The branch [advance_betting_round] takes on a board of fewer than five
    cards: how many cards it deals and the name it gives the street. *)
Definition street_size (g : TexasHoldem) : nat :=
  if bool_decide (community_cards g = []) then 3 else 1.

Definition street_name (g : TexasHoldem) : string :=
  if bool_decide (community_cards g = []) then "flop"
  else if bool_decide (length (community_cards g) = 3%nat) then "turn"
  else "river".

(** ** One hand under the orchestrator

    [GameSimulator._play_single_hand] with no database attached
    ([self.db_integration] is [None]).  Printing is left out, except where
    evaluating what is printed can raise.  [last_to_act] is assigned and
    never read, it is left out as well. *)

(** What [await asyncio.wait_for(player.make_decision(...), timeout=30.0)]
    comes back with: an action, [asyncio.TimeoutError], or any other
    exception. *)
Inductive Response : Type :=
| Decides (a : PlayerAction)
| TimesOut
| Fails.

(** An entry of [hand_actions]. *)
Record ActionLog : Type := mkActionLog {
  log_player : string;
  log_action : GameAction;
  log_amount : Z;
  log_betting_round : string;
  log_reason : option string
}.

(** The engine and the locals of [_play_single_hand].  [calls] is not in
    the source: it records the arguments of every [make_decision] call made so
    far, the latest last. *)
Record Hand : Type := mkHand {
  game : TexasHoldem;
  game_state : GameState.t;
  hand_actions : list ActionLog;
  players_who_acted : gset string;
  calls : list (string * GameState.t * list Card)
}.

Definition set_game (v : TexasHoldem) (h : Hand) : Hand :=
  mkHand v (game_state h) (hand_actions h) (players_who_acted h) (calls h).
Definition set_game_state (v : GameState.t) (h : Hand) : Hand :=
  mkHand (game h) v (hand_actions h) (players_who_acted h) (calls h).
Definition set_players_who_acted (v : gset string) (h : Hand) : Hand :=
  mkHand (game h) (game_state h) (hand_actions h) v (calls h).
Definition set_calls (v : list (string * GameState.t * list Card)) (h : Hand) : Hand :=
  mkHand (game h) (game_state h) (hand_actions h) (players_who_acted h) v.

(** Code of [_play_single_hand] as a state transformer on [Hand]; as for
    the engine, what was mutated before an exception stays. *)
Definition H (A : Type) : Type := Hand → result A * Hand.

#[global] Instance H_bind : MBind H := fun A B f m h =>
  match m h with
  | (Ok a, h') => f a h'
  | (Raise e, h') => (Raise e, h')
  end.

Definition H_ret {A} (a : A) : H A := fun h => (Ok a, h).
Definition H_get : H Hand := fun h => (Ok h, h).
Definition H_modify (f : Hand → Hand) : H unit := fun h => (Ok tt, f h).
Definition H_raise {A} (e : exn) : H A := fun h => (Raise e, h).

(** A method call on [game]. *)
Definition on_game {A} (m : M A) : H A := fun h =>
  match m (game h) with
  | (r, g') => (r, set_game g' h)
  end.

Fixpoint H_for_each {A} (xs : list A) (body : A → H unit) : H unit :=
  match xs with
  | [] => H_ret tt
  | x :: xs' => body x ;; H_for_each xs' body
  end.

(** The loop under [# Find players who need to act]. *)
Fixpoint players_to_act (g : TexasHoldem) (acted : gset string) (active_players : list string)
  : result (list string) :=
  match active_players with
  | [] => Ok []
  | player :: rest =>
      c ← getitem (chips g) player;
      add ←
        (if bool_decide (c > 0) then
           if bool_decide (current_bet g = 0) then Ok (bool_decide (player ∉ acted))
           else
             b ← getitem (player_bets g) player;
             Ok (bool_decide (b < current_bet g))
         else Ok false);
      to_act ← players_to_act g acted rest;
      Ok (if add : bool then player :: to_act else to_act)
  end.

(** The lines under [# Validate and process action], up to the call of
    [process_action]: a raise by nothing or less becomes a raise by the bet
    to match, and no raise exceeds the stack. *)
Definition validate (player_name : string) (a : PlayerAction) : M PlayerAction :=
  match action a with
  | RAISE =>
      g ← self;
      let amount1 := if bool_decide (amount a ≤ 0) then current_bet g else amount a in
      c ← lift (getitem (chips g) player_name);
      ret (mkPlayerAction RAISE (Z.min amount1 c))
  | _ => ret a
  end.

(** What the [try] block does to the engine when the agent has answered. *)
Definition attempt (player_name : string) (a : PlayerAction)
  : M (PlayerAction * option GameState.t) :=
  a' ← validate player_name a;
  result_state ← process_action player_name a';
  ret (a', result_state).

(** [game.process_action(player_name, PlayerAction(GameAction.FOLD))] of the
    two [except] blocks. *)
Definition forced_fold (player_name : string) : M (option GameState.t) :=
  process_action player_name (mkPlayerAction FOLD 0).

(** The body of [for player_name in players_to_act].  [agents n] is what the
    [n]-th call of [make_decision] of the hand comes back with.  The lookup
    of the player object by name always succeeds: [simulate_session] builds
    the table from the names of [self.players]. *)
Definition take_turn (agents : nat → Response) (betting_round : string)
    (player_name : string) : H unit := fun h =>
  if bool_decide (player_name ∈ folded_players (game h)) then (Ok tt, h)
  else
    match getitem (hole_cards (game h)) player_name with
    | Raise e => (Raise e, h)
    | Ok hole =>
        let response := agents (length (calls h)) in
        let h := set_calls (calls h ++ [(player_name, game_state h, hole)]) h in
        match response with
        | Decides a =>
            match attempt player_name a (game h) with
            | (Ok (a', result_state), g') =>
                (Ok tt,
                 mkHand g' (default (game_state h) result_state)
                   (hand_actions h
                    ++ [mkActionLog player_name (action a') (amount a') betting_round None])
                   ({[player_name]} ∪ players_who_acted h) (calls h))
            | (Raise _, g') =>
                match forced_fold player_name g' with
                | (Ok _, g'') =>
                    (Ok tt,
                     mkHand g'' (game_state h) (hand_actions h)
                       ({[player_name]} ∪ players_who_acted h) (calls h))
                | (Raise e, g'') => (Raise e, set_game g'' h)
                end
            end
        | TimesOut =>
            match forced_fold player_name (game h) with
            | (Ok _, g') =>
                (Ok tt,
                 mkHand g' (game_state h)
                   (hand_actions h
                    ++ [mkActionLog player_name FOLD 0 betting_round (Some "timeout")])
                   ({[player_name]} ∪ players_who_acted h) (calls h))
            | (Raise e, g') => (Raise e, set_game g' h)
            end
        | Fails =>
            match forced_fold player_name (game h) with
            | (Ok _, g') =>
                (Ok tt,
                 mkHand g' (game_state h) (hand_actions h)
                   ({[player_name]} ∪ players_who_acted h) (calls h))
            | (Raise e, g') => (Raise e, set_game g' h)
            end
        end
    end.

(** [while not betting_complete], run for at most [passes] passes.  The
    result is [true] when the loop was left, [false] when the source would
    start a further pass. *)
Fixpoint betting (agents : nat → Response) (betting_round : string) (passes : nat)
  : H bool :=
  match passes with
  | O => H_ret false
  | S passes' => fun h =>
      let active_players := not_folded (game h) in
      if bool_decide (length active_players ≤ 1)%nat then (Ok true, h)
      else
        match players_to_act (game h) (players_who_acted h) active_players with
        | Raise e => (Raise e, h)
        | Ok to_act =>
            let next_pass : H bool :=
              H_for_each to_act (take_turn agents betting_round) ;;
              betting agents betting_round passes' in
            if bool_decide (to_act = []) then
              if bool_decide (current_bet (game h) = 0) then
                if bool_decide (length active_players ≤ size (players_who_acted h))%nat
                then (Ok true, h)
                else next_pass h
              else (Ok true, h)
            else next_pass h
        end
  end.

(** The lines of a betting round before its betting loop, for every street
    but the first.  At showdown [advance_betting_round] returns the winnings,
    a [dict], and the line that prints the street reads
    [game_state.community_cards] off it. *)
Definition next_street : H unit :=
  advanced ← on_game advance_betting_round;
  match advanced with
  | NextStreet view => H_modify (set_game_state view)
  | Showdown _ => H_raise AttributeError
  end.

(** [for betting_round in ["preflop", "flop", "turn", "river"]], every
    betting loop run for at most [passes] passes; the result is [false] when
    one of them was not left by then. *)
Fixpoint play_rounds (agents : nat → Response) (passes : nat) (betting_rounds : list string)
  : H bool :=
  match betting_rounds with
  | [] => H_ret true
  | betting_round :: rest => fun h =>
      if is_hand_complete (game h) then (Ok true, h)
      else
        let round : H bool :=
          (if bool_decide (betting_round ≠ "preflop") then next_street else H_ret tt) ;;
          H_modify (set_players_who_acted ∅) ;;
          left ← betting agents betting_round passes;
          if left : bool then play_rounds agents passes rest else H_ret false in
        round h
  end.

(** The dictionary [_play_single_hand] returns; [community_cards] holds the
    cards, the source their [str]. *)
Record HandResult : Type := mkHandResult {
  result_winners : list string;
  result_winnings : list (string * Z);
  result_pot_size : Z;
  result_actions : list ActionLog;
  result_community_cards : list Card
}.

(** [_play_single_hand], in two parts: [game.start_hand()], and the rest
    run on the locals as they are after it.  The value is [None] when a
    betting loop was not left within [passes] passes. *)
Definition finish_hand (agents : nat → Response) (passes : nat) : H (option HandResult) :=
  left ← play_rounds agents passes ["preflop"; "flop"; "turn"; "river"];
  if left : bool then
    winners ← on_game _determine_winner;
    on_game next_hand ;;
    h ← H_get;
    H_ret (Some (mkHandResult (map fst winners) winners
                   (GameState.pot_size (game_state h)) (hand_actions h)
                   (GameState.community_cards (game_state h))))
  else H_ret None.

Definition _play_single_hand (agents : nat → Response) (passes : nat) (shuffled : list Card)
    (g : TexasHoldem) : result (option HandResult) * TexasHoldem :=
  match start_hand shuffled g with
  | (Raise e, g') => (Raise e, g')
  | (Ok view, g') =>
      match finish_hand agents passes (mkHand g' view [] ∅ []) with
      | (r, h) => (r, game h)
      end
  end.

(** Agents that always come back with the same response, and the locals of
    [_play_single_hand] right after [game.start_hand()] on the heads-up
    table. *)
Definition always (r : Response) : nat → Response := fun _ => r.

Definition heads_up_hand : Hand :=
  Eval vm_compute in
  match start_hand unshuffled heads_up with
  | (Ok view, g) => mkHand g view [] ∅ []
  | (Raise _, g) => mkHand g (GameState.mk [] 0 0 ∅ ∅ [] "" "") [] ∅ []
  end.

(** An answer that takes the player out of the hand: a fold, a timeout or a
    failure of the agent. *)
Definition gives_up (r : Response) : Prop :=
  match r with
  | Decides a => action a = FOLD
  | TimesOut | Fails => True
  end.

(** The heads-up hand after B has moved all-in, A has called with all chips
    and the flop has been dealt: the locals at the start of the betting loop
    of the flop. *)
Definition all_in_flop : Hand :=
  Eval vm_compute in
  match advance_betting_round
          (after (process_action "A" (mkPlayerAction CALL 0))
             (after (process_action "B" (mkPlayerAction RAISE 95)) heads_up_preflop)) with
  | (Ok (NextStreet view), g) => mkHand g view [] ∅ []
  | (_, g) => mkHand g (GameState.mk [] 0 0 ∅ ∅ [] "" "") [] ∅ []
  end.

(** The locals at the start of the betting loop of the flop of the
    three-handed hand, everybody still in. *)
Definition three_way_flop : Hand :=
  Eval vm_compute in
  match advance_betting_round
          (after (process_action "B" (mkPlayerAction CALL 0))
             (after (process_action "A" (mkPlayerAction CALL 0))
                (after (start_hand tie_deck) three_way))) with
  | (Ok (NextStreet view), g) => mkHand g view [] ∅ []
  | (_, g) => mkHand g (GameState.mk [] 0 0 ∅ ∅ [] "" "") [] ∅ []
  end.

(** The locals of a hand on the table [g0] in which nobody has folded and
    nobody has run out of chips: the roster is dealt in as a whole, the chips
    on the table are the stacks the hand started with, and the view kept by
    the orchestrator shows the pot and the board as they are. *)
Definition everybody_in (g0 : TexasHoldem) (h : Hand) : Prop :=
  players (game h) = players g0 ∧ active_players (game h) = players g0 ∧
  folded_players (game h) = ∅ ∧ dealer_position (game h) = dealer_position g0 ∧
  0 ≤ pot (game h) ∧ on_table (game h) = stacks (chips g0) ∧
  GameState.pot_size (game_state h) = pot (game h) ∧
  GameState.community_cards (game_state h) = community_cards (game h) ∧
  (∀ p, p ∈ players g0 →
     is_Some (hole_cards (game h) !! p) ∧ ∃ c, chips (game h) !! p = Some c ∧ 0 < c).

(** Every player dealt in has a stack, a street contribution and hole
    cards. *)
Definition seated (g : TexasHoldem) : Prop :=
  ∀ p, p ∈ active_players g →
    is_Some (chips g !! p) ∧ is_Some (player_bets g !! p) ∧ is_Some (hole_cards g !! p).

(** [g'] differs from [g] by betting only: roster, cards, deck and button
    are the same, nobody has come back from a fold, no chips have entered or
    left the table and no stack or contribution entry has appeared or gone. *)
Definition played_from (g g' : TexasHoldem) : Prop :=
  players g' = players g ∧ active_players g' = active_players g ∧
  hole_cards g' = hole_cards g ∧ community_cards g' = community_cards g ∧
  deck g' = deck g ∧ dealer_position g' = dealer_position g ∧
  folded_players g ⊆ folded_players g' ∧
  on_table g' = on_table g ∧
  (∀ p, is_Some (chips g' !! p) ↔ is_Some (chips g !! p)) ∧
  (∀ p, is_Some (player_bets g' !! p) ↔ is_Some (player_bets g !! p)).

(** The view shows the pot and the board of the table. *)
Definition shows (view : GameState.t) (g : TexasHoldem) : Prop :=
  GameState.pot_size view = pot g ∧
  GameState.community_cards view = community_cards g.

(** [g'] is a later table of the hand played on [g]: the same roster, the
    same players dealt in with the same hole cards, the same button; nobody
    has come back from a fold, no chips have entered or left the table and
    no stack entry has appeared or gone. *)
Definition hand_goes_on (g g' : TexasHoldem) : Prop :=
  players g' = players g ∧ active_players g' = active_players g ∧
  hole_cards g' = hole_cards g ∧ dealer_position g' = dealer_position g ∧
  folded_players g ⊆ folded_players g' ∧
  on_table g' = on_table g ∧
  (∀ p, is_Some (chips g' !! p) ↔ is_Some (chips g !! p)).

(** The board when [k] streets are still to be dealt, and a table in that
    state whose deck can deal them. *)
Definition board_size (k : nat) : nat :=
  match k with
  | 0%nat => 5
  | 1%nat => 4
  | 2%nat => 3
  | _ => 0
  end.

Definition streets_left (k : nat) (g : TexasHoldem) : Prop :=
  (k ≤ 3)%nat ∧ length (community_cards g) = board_size k ∧
  ∃ cards, deck g = Some cards ∧ (5 - board_size k ≤ length cards)%nat.

(** ** The overall winner of a benchmark ([GameSimulator.run_benchmark]) *)





(** Nobody owes the table and the table owes nobody: no stack, no street
    contribution, neither the pot nor the bet to match is negative, and no
    contribution exceeds the bet to match. *)
Definition solvent (g : TexasHoldem) : Prop :=
  0 ≤ pot g ∧ 0 ≤ current_bet g ∧
  (∀ p c, chips g !! p = Some c → 0 ≤ c) ∧
  (∀ p b, player_bets g !! p = Some b → 0 ≤ b ≤ current_bet g).

(** * Properties *)

(** ** Sorting *)

Section sorting_facts.

#[local] Instance Zge_trans : Transitive Z.ge.
Proof. intros x y z; lia. Qed.
#[local] Instance Zge_antisymm : AntiSymm (=) Z.ge.
Proof. intros x y; lia. Qed.
#[local] Instance Zge_total : Total Z.ge.
Proof. intros x y; lia. Qed.

Lemma sorted_reverse_perm (l l' : list Z) :
  l ≡ₚ l' → sorted_reverse l = sorted_reverse l'.
Proof.
  intros Hp. unfold sorted_reverse.
  apply (Sorted_unique Z.ge); try apply Sorted_merge_sort; try apply _.
  by rewrite !merge_sort_Permutation.
Qed.

Lemma sorted_reverse_elem (x : Z) (l : list Z) : x ∈ sorted_reverse l ↔ x ∈ l.
Proof. unfold sorted_reverse. by rewrite merge_sort_Permutation. Qed.

Lemma sorted_reverse_length (l : list Z) : length (sorted_reverse l) = length l.
Proof. unfold sorted_reverse. by rewrite merge_sort_Permutation. Qed.

Lemma sorted_length (l : list Z) : length (sorted l) = length l.
Proof. unfold sorted. by rewrite merge_sort_Permutation. Qed.

End sorting_facts.

(** ** The order on hand evaluations *)

Lemma list_gt_lt (a b : list Z) : list_gt a b = list_lt b a.
Proof.
  revert b; induction a as [|x a IH]; intros [|y b]; simpl; try done.
  repeat case_bool_decide; try lia; auto.
Qed.

Lemma list_lt_irrefl (a : list Z) : list_lt a a = false.
Proof. induction a as [|x a IH]; simpl; [done|]. by rewrite bool_decide_true. Qed.

Lemma list_lt_trichotomy (a b : list Z) :
  list_lt a b = true ∨ a = b ∨ list_lt b a = true.
Proof.
  revert b; induction a as [|x a IH]; intros [|y b]; simpl; auto.
  destruct (IH b) as [H|[H|H]]; repeat case_bool_decide; subst; auto; try lia.
Qed.

Lemma list_lt_asym (a b : list Z) : list_lt a b = true → list_lt b a = false.
Proof.
  revert b; induction a as [|x a IH]; intros [|y b]; simpl; try done.
  repeat case_bool_decide; subst; auto; try lia.
Qed.

Lemma list_lt_trans (a b c : list Z) :
  list_lt a b = true → list_lt b c = true → list_lt a c = true.
Proof.
  revert b c; induction a as [|x a IH]; intros [|y b] [|z c]; simpl; try done.
  repeat case_bool_decide; subst; try done; try lia; eauto.
Qed.

Lemma HandRank_value_inj (r r' : HandRank) :
  HandRank_value r = HandRank_value r' → r = r'.
Proof. by destruct r, r'. Qed.

Lemma he_eq_spec (a b : HandEvaluation) : he_eq a b = true ↔ a = b.
Proof.
  unfold he_eq. rewrite andb_true_iff, !bool_decide_eq_true.
  destruct a as [ra ka], b as [rb kb]; simpl. split.
  - intros [Hr ->]. by rewrite (HandRank_value_inj _ _ Hr).
  - by intros [= -> ->].
Qed.

Lemma he_gt_lt (a b : HandEvaluation) : he_gt a b = he_lt b a.
Proof.
  unfold he_gt, he_lt. rewrite list_gt_lt.
  repeat case_bool_decide; try done; lia.
Qed.

Lemma he_ge_le (a b : HandEvaluation) : he_ge a b = he_le b a.
Proof.
  unfold he_ge, he_le. rewrite he_gt_lt. f_equal.
  apply eq_true_iff_eq. rewrite !he_eq_spec. naive_solver.
Qed.

Lemma he_le_refl (a : HandEvaluation) : he_le a a = true.
Proof. unfold he_le. apply orb_true_iff; right. by apply he_eq_spec. Qed.

Lemma he_lt_trichotomy (a b : HandEvaluation) :
  he_lt a b = true ∨ a = b ∨ he_lt b a = true.
Proof.
  unfold he_lt. destruct a as [ra ka], b as [rb kb]; simpl.
  repeat case_bool_decide; auto; try lia.
  destruct (list_lt_trichotomy ka kb) as [H'|[->|H']]; auto.
  right; left. f_equal. apply HandRank_value_inj. lia.
Qed.

Lemma he_lt_trans (a b c : HandEvaluation) :
  he_lt a b = true → he_lt b c = true → he_lt a c = true.
Proof.
  unfold he_lt.
  destruct (decide (HandRank_value (hand_rank a) = HandRank_value (hand_rank b))) as [E1|N1];
  destruct (decide (HandRank_value (hand_rank b) = HandRank_value (hand_rank c))) as [E2|N2].
  - rewrite !bool_decide_false by (intros ?; lia). apply list_lt_trans.
  - rewrite (bool_decide_false _ (λ H, H E1)), (bool_decide_true _ N2), E1.
    rewrite (bool_decide_true _ N2). auto.
  - rewrite (bool_decide_true _ N1), (bool_decide_false _ (λ H, H E2)), <- E2.
    rewrite (bool_decide_true _ N1). auto.
  - rewrite (bool_decide_true _ N1), (bool_decide_true _ N2).
    rewrite !bool_decide_eq_true. intros. rewrite bool_decide_true by lia.
    apply bool_decide_eq_true. lia.
Qed.

Lemma he_lt_asym (a b : HandEvaluation) : he_lt a b = true → he_lt b a = false.
Proof.
  unfold he_lt.
  destruct (decide (HandRank_value (hand_rank a) = HandRank_value (hand_rank b))) as [E|N].
  - rewrite !bool_decide_false by (intros ?; lia). apply list_lt_asym.
  - rewrite (bool_decide_true (_ ≠ _)) by done.
    rewrite (bool_decide_true (_ ≠ _)) by (intros ?; lia).
    rewrite bool_decide_eq_true, bool_decide_eq_false. lia.
Qed.

Lemma he_le_spec (a b : HandEvaluation) :
  he_le a b = true ↔ he_lt a b = true ∨ a = b.
Proof. unfold he_le. by rewrite orb_true_iff, he_eq_spec. Qed.

Lemma he_le_trans (a b c : HandEvaluation) :
  he_le a b = true → he_le b c = true → he_le a c = true.
Proof.
  rewrite !he_le_spec. intros [H1| ->] [H2| ->]; eauto using he_lt_trans.
Qed.

Lemma he_le_total (a b : HandEvaluation) : he_le a b = true ∨ he_le b a = true.
Proof.
  rewrite !he_le_spec. destruct (he_lt_trichotomy a b) as [?|[?|?]]; auto.
Qed.

Lemma he_le_antisym (a b : HandEvaluation) :
  he_le a b = true → he_le b a = true → a = b.
Proof.
  rewrite !he_le_spec. intros [H1|?] [H2|?]; try done.
  apply he_lt_asym in H1. congruence.
Qed.

Lemma he_gt_false_le (a b : HandEvaluation) : he_gt a b = false → he_le a b = true.
Proof.
  rewrite he_gt_lt, he_le_spec. intros H.
  destruct (he_lt_trichotomy a b) as [?|[?|?]]; auto. congruence.
Qed.

Lemma he_gt_true_le (a b : HandEvaluation) : he_gt a b = true → he_le b a = true.
Proof. rewrite he_gt_lt, he_le_spec. auto. Qed.

(** ** [evaluate] never raises *)

Lemma _is_straight_nonempty (ranks : list Z) :
  _is_straight ranks = true → ∃ r rest, ranks = r :: rest.
Proof. destruct ranks as [|r rest]; [done|eauto]. Qed.

Lemma py_max_cons (x : Z) (xs : list Z) : ∃ m, py_max (x :: xs) = Ok m.
Proof. simpl. eauto. Qed.

Lemma ranks_with_count_item0 (rank_counts : list (Z * Z)) (n : Z) :
  n ∈ sorted_reverse (PyDict.values rank_counts) →
  ∃ x, item0 (ranks_with_count rank_counts n) = Ok x.
Proof.
  rewrite sorted_reverse_elem. unfold PyDict.values, ranks_with_count.
  induction rank_counts as [|[k c] rc IH]; simpl.
  - by intros ?%elem_of_nil.
  - intros [->|Hin]%elem_of_cons.
    + rewrite filter_cons_True by done. simpl. eauto.
    + destruct (decide (c = n)) as [->|Hne].
      * rewrite filter_cons_True by done. simpl. eauto.
      * rewrite filter_cons_False by done. auto.
Qed.

Ltac item0_of_counts :=
  repeat match goal with
  | Hc : sorted_reverse (PyDict.values ?rc) = _
    |- context [item0 (ranks_with_count ?rc ?n)] =>
      let x := fresh "x" in
      let Hx := fresh "Hx" in
      destruct (ranks_with_count_item0 rc n) as [x Hx];
      [rewrite Hc; set_solver | rewrite Hx; simpl]
  end.

Lemma evaluate_total (cards : list Card) : ∃ e, evaluate cards = Ok e.
Proof.
  unfold evaluate.
  set (ranks := sorted_reverse _).
  destruct (_is_straight ranks) eqn:Hs.
  - destruct (_is_straight_nonempty _ Hs) as (r & rest & Hr). rewrite Hr. simpl.
    repeat (case_bool_decide; simpl; eauto); item0_of_counts; eauto.
  - simpl.
    repeat (case_bool_decide; simpl; eauto); item0_of_counts; eauto.
Qed.

(** ** Order of the input cards *)

(** C9.  [evaluate] returns the same evaluation (category and tiebreak
    sequence) for a hand and for any permutation of its cards. *)
Theorem evaluate_permutation_invariant (cards cards' : list Card) :
  cards ≡ₚ cards' → evaluate cards = evaluate cards'.
Proof.
  intros Hp. unfold evaluate.
  rewrite (sorted_reverse_perm _ _ (Permutation_map (fun c => Rank_value (rank c)) Hp)).
  assert (list_to_set (map suit cards) =@{gset Suit} list_to_set (map suit cards')) as ->; [|done].
  apply list_to_set_perm_L. by apply Permutation_map.
Qed.

Lemma evaluate_permutation_invariant_witness :
  evaluate [card ACE SPADES; card KING HEARTS; card KING CLUBS; card TWO CLUBS; card NINE DIAMONDS]
  = evaluate [card KING CLUBS; card TWO CLUBS; card ACE SPADES; card NINE DIAMONDS; card KING HEARTS].
Proof.
  apply evaluate_permutation_invariant.
  apply (Permutation_trans (l' := [card KING CLUBS; card ACE SPADES; card KING HEARTS; card TWO CLUBS; card NINE DIAMONDS])).
  - apply perm_trans with (l' := [card ACE SPADES; card KING CLUBS; card KING HEARTS; card TWO CLUBS; card NINE DIAMONDS]).
    + apply perm_skip, perm_swap.
    + apply perm_swap.
  - apply perm_skip.
    apply perm_trans with (l' := [card TWO CLUBS; card ACE SPADES; card KING HEARTS; card NINE DIAMONDS]).
    + apply perm_trans with (l' := [card ACE SPADES; card TWO CLUBS; card KING HEARTS; card NINE DIAMONDS]).
      * apply perm_skip, perm_swap.
      * apply perm_swap.
    + do 2 apply perm_skip. apply perm_swap.
Defined.

(** ** The wheel *)

(** C4.  What [evaluate] does on A-2-3-4-5: the hand is a straight, but its
    tiebreak is [max(ranks)], the Ace (14) and not 5, so it compares above
    6-7-8-9-10 instead of below; and the suited A-2-3-4-5, a five-high
    straight flush, is returned as a royal flush because [ranks[0] == 14]. *)
Theorem wheel_is_scored_ace_high :
  evaluate wheel = Ok (mkHandEvaluation STRAIGHT [14]) ∧
  evaluate six_to_ten = Ok (mkHandEvaluation STRAIGHT [10]) ∧
  he_lt (mkHandEvaluation STRAIGHT [14]) (mkHandEvaluation STRAIGHT [10]) = false ∧
  he_gt (mkHandEvaluation STRAIGHT [14]) (mkHandEvaluation STRAIGHT [10]) = true ∧
  evaluate steel_wheel = Ok (mkHandEvaluation ROYAL_FLUSH [14]).
Proof. by vm_compute. Qed.

(** ** Best of seven *)

Lemma combinations_length_7 {A} (cards : list A) :
  length cards = 7%nat → length (combinations cards 5) = 21%nat.
Proof.
  intros H. do 8 (destruct cards as [|? cards]; simpl in H; try lia). reflexivity.
Qed.

(** [combinations l r] lists exactly the sub-sequences of [l] of length [r]. *)
Lemma combinations_spec {A} (l s : list A) (r : nat) :
  s ∈ combinations l r ↔ s `sublist_of` l ∧ length s = r.
Proof.
  revert s r; induction l as [|x l IH]; intros s r.
  - destruct r; simpl.
    + rewrite list_elem_of_singleton, sublist_nil_r.
      split; [by intros ->|]. by intros [-> _].
    + rewrite elem_of_nil, sublist_nil_r. split; [done|]. by intros [-> ?].
  - destruct r; simpl.
    + rewrite list_elem_of_singleton. split.
      * intros ->. split; [apply sublist_nil_l|done].
      * intros [_ ?]. by destruct s.
    + rewrite elem_of_app, list_elem_of_In, in_map_iff. setoid_rewrite <- list_elem_of_In.
      rewrite IH. split.
      * intros [(s' & <- & [Hs Hl]%IH)|[Hs Hl]].
        -- split; [by apply sublist_skip|]. simpl. by rewrite Hl.
        -- split; [by apply sublist_cons|done].
      * intros [Hs Hl]. apply sublist_cons_r in Hs as [Hs|(s' & -> & Hs)].
        -- by right.
        -- left. exists s'. split; [done|]. apply IH. simpl in Hl. split; [done|lia].
Qed.

Lemma best_hand_fold (combos : list (list Card)) (acc : option HandEvaluation) :
  ∃ r, foldl best_hand_step (Ok acc) combos = Ok r ∧
    match r with
    | None => acc = None ∧ combos = []
    | Some m =>
        (acc = Some m ∨ ∃ five, five ∈ combos ∧ evaluate five = Ok m) ∧
        (∀ b, acc = Some b → he_le b m = true) ∧
        (∀ five e, five ∈ combos → evaluate five = Ok e → he_le e m = true)
    end.
Proof.
  revert acc; induction combos as [|five combos IH]; intros acc; cbn [foldl].
  - exists acc. split; [done|]. destruct acc as [m|]; [|done].
    split_and!; [by left| |].
    + intros b [= ->]. apply he_le_refl.
    + by intros ?? ?%elem_of_nil.
  - destruct (evaluate_total five) as [e He].
    assert (∃ acc', best_hand_step (Ok acc) five = Ok (Some acc') ∧
              (acc' = e ∨ acc = Some acc') ∧ he_le e acc' = true ∧
              (∀ b, acc = Some b → he_le b acc' = true)) as (acc' & -> & Hfrom & Hle & Hub).
    { unfold best_hand_step; simpl. rewrite He; simpl. destruct acc as [b|].
      - destruct (he_gt e b) eqn:Hgt.
        + exists e. split_and!; auto using he_le_refl.
          intros ? [= <-]. by apply he_gt_true_le.
        + exists b. split_and!; auto using he_gt_false_le.
          intros ? [= <-]. apply he_le_refl.
      - exists e. split_and!; auto using he_le_refl. done. }
    destruct (IH (Some acc')) as (r & -> & Hr). exists r. split; [done|].
    destruct r as [m|]; [|by destruct Hr].
    destruct Hr as (Hm & Hacc & Hall). specialize (Hacc _ eq_refl). split_and!.
    + destruct Hm as [[= <-]|(five' & ? & ?)].
      * destruct Hfrom as [->|?]; [right; exists five|by left].
        split; [by left|done].
      * right. exists five'. split; [by right|done].
    + intros b Hb. eapply he_le_trans; eauto.
    + intros five' e' [->|Hin]%elem_of_cons He'.
      * assert (e' = e) as -> by congruence. eapply he_le_trans; eauto.
      * eauto.
Qed.

Lemma maximum_unique (evaluations : list HandEvaluation) (m m' : HandEvaluation) :
  m ∈ evaluations → (∀ e, e ∈ evaluations → he_le e m = true) →
  m' ∈ evaluations → (∀ e, e ∈ evaluations → he_le e m' = true) →
  m = m'.
Proof. intros Hm Hub Hm' Hub'. apply he_le_antisym; auto. Qed.

(** C8.  On seven cards [_get_best_hand] returns an evaluation; it is the
    evaluation of one of the 21 five-card sub-hands, the evaluation of every
    five-card sub-hand is at most it in the order of [HandEvaluation], and
    no other evaluation has these two properties: it is the maximum over
    the 21 combinations. *)
Theorem best_hand_is_maximum (cards : list Card) :
  length cards = 7%nat →
  length (combinations cards 5) = 21%nat ∧
  ∃ best,
    _get_best_hand cards = Ok (Some best) ∧
    (∃ five, five `sublist_of` cards ∧ length five = 5%nat ∧ evaluate five = Ok best) ∧
    (∀ five, five `sublist_of` cards → length five = 5%nat →
       ∃ e, evaluate five = Ok e ∧ he_le e best = true) ∧
    (∀ m,
       (∃ five, five `sublist_of` cards ∧ length five = 5%nat ∧ evaluate five = Ok m) →
       (∀ five e, five `sublist_of` cards → length five = 5%nat →
                  evaluate five = Ok e → he_le e m = true) →
       m = best).
Proof.
  intros Hlen. split; [by apply combinations_length_7|].
  destruct (best_hand_fold (combinations cards 5) None) as (r & Hr & Hspec).
  destruct r as [best|].
  - exists best. split; [exact Hr|]. destruct Hspec as ([?|(five & Hin & He)] & _ & Hall); [done|].
    apply combinations_spec in Hin as [Hsub Hfive].
    split_and!.
    + by exists five.
    + intros five' Hs Hl. destruct (evaluate_total five') as [e He'].
      exists e. split; [done|]. apply (Hall five'); [|done].
      by apply combinations_spec.
    + intros m (five' & Hs' & Hl' & Hm) Hub. apply he_le_antisym.
      * apply (Hall five'); [by apply combinations_spec|done].
      * by apply (Hub five).
  - destruct Hspec as [_ Hnil]. apply (f_equal length) in Hnil.
    rewrite combinations_length_7 in Hnil; done.
Qed.

Lemma best_hand_is_maximum_witness :
  length (combinations (wheel ++ [card KING SPADES; card KING HEARTS]) 5) = 21%nat ∧
  ∃ best,
    _get_best_hand (wheel ++ [card KING SPADES; card KING HEARTS]) = Ok (Some best) ∧
    (∃ five, five `sublist_of` (wheel ++ [card KING SPADES; card KING HEARTS]) ∧
             length five = 5%nat ∧ evaluate five = Ok best) ∧
    (∀ five, five `sublist_of` (wheel ++ [card KING SPADES; card KING HEARTS]) →
       length five = 5%nat → ∃ e, evaluate five = Ok e ∧ he_le e best = true) ∧
    (∀ m,
       (∃ five, five `sublist_of` (wheel ++ [card KING SPADES; card KING HEARTS]) ∧
                length five = 5%nat ∧ evaluate five = Ok m) →
       (∀ five e, five `sublist_of` (wheel ++ [card KING SPADES; card KING HEARTS]) →
                  length five = 5%nat → evaluate five = Ok e → he_le e m = true) →
       m = best).
Proof. apply best_hand_is_maximum. reflexivity. Defined.

(** ** Stacks and the pot *)

Lemma stacks_empty : stacks ∅ = 0.
Proof. unfold stacks. by rewrite map_fold_empty. Qed.

Lemma stacks_insert_fresh (chips : gmap string Z) (p : string) (c : Z) :
  chips !! p = None → stacks (<[p := c]> chips) = c + stacks chips.
Proof. intros H. unfold stacks. rewrite map_fold_insert_L; [done| |done]. intros; lia. Qed.

Lemma stacks_delete (chips : gmap string Z) (p : string) (c : Z) :
  chips !! p = Some c → stacks chips = c + stacks (delete p chips).
Proof.
  intros H. unfold stacks. rewrite (map_fold_delete_L _ _ p c); [done| |done]. intros; lia.
Qed.

Lemma stacks_insert (chips : gmap string Z) (p : string) (c c' : Z) :
  chips !! p = Some c → stacks (<[p := c']> chips) = stacks chips - c + c'.
Proof.
  intros H. rewrite <- insert_delete_eq.
  rewrite stacks_insert_fresh by apply lookup_delete_eq.
  rewrite (stacks_delete chips p c H). lia.
Qed.

Lemma stacks_init (players : list string) (starting_chips small_blind big_blind : Z) :
  NoDup players →
  stacks (chips (TexasHoldem_init players starting_chips small_blind big_blind))
  = Z.of_nat (length players) * starting_chips.
Proof.
  cbn [chips TexasHoldem_init]. induction 1 as [|p ps Hp _ IH].
  - rewrite fmap_nil, list_to_map_nil, stacks_empty. simpl. lia.
  - rewrite fmap_cons, list_to_map_cons, stacks_insert_fresh.
    + rewrite IH, length_cons. lia.
    + apply not_elem_of_list_to_map_1. rewrite <- list_fmap_compose.
      intros (q & -> & Hq)%list_elem_of_fmap. done.
Qed.

(** Unfolding one method call on a given table. *)
Ltac run_M :=
  unfold mbind, M_bind, self, modify, lift, pass, ret, raise; cbn beta iota.

Lemma _get_game_state_run (betting_round : option string) (g : TexasHoldem) :
  ∃ view, _get_game_state betting_round g = (Ok view, g) ∧
    GameState.player_hole_cards view = hole_cards g ∧
    GameState.player_chips view = chips g ∧
    GameState.pot_size view = pot g ∧
    GameState.current_bet view = current_bet g ∧
    GameState.community_cards view = community_cards g ∧
    GameState.active_players view = not_folded g.
Proof. unfold _get_game_state. run_M. eexists. split; [reflexivity|]. by simpl. Qed.

Lemma _place_bet_ok (g : TexasHoldem) (player : string) (amount c b : Z) :
  chips g !! player = Some c → player_bets g !! player = Some b →
  _place_bet player amount g =
    (Ok tt,
     set_pot (pot g + Z.min amount c)
       (set_player_bets (<[player := b + Z.min amount c]> (player_bets g))
          (set_chips (<[player := c - Z.min amount c]> (chips g)) g))).
Proof.
  intros Hc Hb. unfold _place_bet, getitem. run_M. rewrite Hc. simpl.
  rewrite Hb. reflexivity.
Qed.

Lemma _place_bet_no_stack (g : TexasHoldem) (player : string) (amount : Z) :
  chips g !! player = None → _place_bet player amount g = (Raise KeyError, g).
Proof. intros Hc. unfold _place_bet, getitem. run_M. by rewrite Hc. Qed.

Lemma _place_bet_on_table (g : TexasHoldem) (player : string) (amount b : Z) :
  player_bets g !! player = Some b →
  on_table (_place_bet player amount g).2 = on_table g.
Proof.
  intros Hb. destruct (chips g !! player) as [c|] eqn:Hc.
  - rewrite (_place_bet_ok g player amount c b) by done. unfold on_table. simpl.
    rewrite (stacks_insert _ _ c) by done. lia.
  - by rewrite _place_bet_no_stack.
Qed.

(** ** Rejected actions *)

Lemma process_action_reject (g : TexasHoldem) (player : string) (a : PlayerAction) :
  player ∈ folded_players g ∨ player ∉ active_players g ∨
    (action a = CHECK ∧ ∃ b, player_bets g !! player = Some b ∧ b < current_bet g) →
  process_action player a g = (Ok None, g).
Proof.
  intros H. unfold process_action. run_M.
  destruct (bool_decide (player ∈ folded_players g) || bool_decide (player ∉ active_players g)) eqn:Hrej;
    [done|].
  apply orb_false_iff in Hrej as [Hf Ha].
  apply bool_decide_eq_false in Hf, Ha.
  destruct H as [?|[?|(Hchk & b & Hb & Hlt)]]; try done.
  rewrite Hchk. unfold getitem. rewrite Hb. cbn beta iota.
  by rewrite bool_decide_true.
Qed.

(** C6.  An action of a folded player or of a player outside the active
    roster, and a check by a player whose street contribution is below the
    bet to match, returns no view ([None]) and leaves the table exactly as
    it was: every attribute, stacks, pot, bets, bet to match, folded set and
    community cards included. *)
Theorem process_action_rejected (g : TexasHoldem) (player : string) (a : PlayerAction) :
  player ∈ folded_players g ∨ player ∉ active_players g ∨
    (action a = CHECK ∧ ∃ b, player_bets g !! player = Some b ∧ b < current_bet g) →
  process_action player a g = (Ok None, g).
Proof. apply process_action_reject. Qed.

Lemma process_action_rejected_witness :
  process_action "B" (mkPlayerAction CHECK 0) heads_up_preflop = (Ok None, heads_up_preflop).
Proof.
  apply process_action_rejected. right; right. split; [reflexivity|].
  exists 5. split; [by vm_compute|by vm_compute].
Defined.

(** ** Accepted actions *)

Lemma eligible_not_rejected (g : TexasHoldem) (player : string) :
  player ∉ folded_players g → player ∈ active_players g →
  bool_decide (player ∈ folded_players g) || bool_decide (player ∉ active_players g) = false.
Proof.
  intros Hf Ha. rewrite (bool_decide_false _ Hf). simpl.
  apply bool_decide_false. auto.
Qed.

Lemma process_action_raise (g : TexasHoldem) (player : string) (amt c b : Z) :
  player ∉ folded_players g → player ∈ active_players g →
  chips g !! player = Some c → player_bets g !! player = Some b →
  ∃ view,
    process_action player (mkPlayerAction RAISE amt) g =
      (Ok (Some view),
       if bool_decide (b + amt > current_bet g) then
         set_current_bet (b + amt)
           (set_pot (pot g + Z.min amt c)
              (set_player_bets (<[player := b + Z.min amt c]> (player_bets g))
                 (set_chips (<[player := c - Z.min amt c]> (chips g)) g)))
       else g).
Proof.
  intros Hf Ha Hc Hb. unfold process_action. run_M.
  rewrite eligible_not_rejected by done. cbn beta iota delta [action amount].
  unfold getitem at 1. rewrite Hb. cbn beta iota.
  case_bool_decide.
  - rewrite (_place_bet_ok g player amt c b) by done. cbn beta iota.
    match goal with |- context [_get_game_state None ?g'] =>
      destruct (_get_game_state_run None g') as (view & -> & _) end.
    by exists view.
  - destruct (_get_game_state_run None g) as (view & -> & _). by exists view.
Qed.

Lemma process_action_call (g : TexasHoldem) (player : string) (c b : Z) :
  player ∉ folded_players g → player ∈ active_players g →
  chips g !! player = Some c → player_bets g !! player = Some b →
  ∃ view,
    process_action player (mkPlayerAction CALL 0) g =
      (Ok (Some view),
       set_pot (pot g + Z.min (current_bet g - b) c)
         (set_player_bets (<[player := b + Z.min (current_bet g - b) c]> (player_bets g))
            (set_chips (<[player := c - Z.min (current_bet g - b) c]> (chips g)) g))).
Proof.
  intros Hf Ha Hc Hb. unfold process_action. run_M.
  rewrite eligible_not_rejected by done. cbn beta iota delta [action amount].
  unfold getitem at 1. rewrite Hb. cbn beta iota.
  rewrite (_place_bet_ok g player _ c b) by done. cbn beta iota.
  match goal with |- context [_get_game_state None ?g'] =>
    destruct (_get_game_state_run None g') as (view & -> & _) end.
  by exists view.
Qed.

(** C3 (as the code has it).  A raise by an eligible player is always
    accepted (a view is returned).  When the player's street contribution
    plus the requested amount exceeds the bet to match, the amount, clamped
    to the stack, moves from the stack to the pot and to the player's street
    contribution, and, the amount being within the stack, the bet to match
    becomes the player's new contribution.  When it does not exceed the bet
    to match, no chip moves and the table is left unchanged. *)
Theorem raise_moves_chips_only_above_bet (g : TexasHoldem) (player : string) (amt c b : Z) :
  player ∉ folded_players g → player ∈ active_players g →
  chips g !! player = Some c → player_bets g !! player = Some b →
  ∃ view g',
    process_action player (mkPlayerAction RAISE amt) g = (Ok (Some view), g') ∧
    (b + amt > current_bet g →
       chips g' !! player = Some (c - Z.min amt c) ∧
       player_bets g' !! player = Some (b + Z.min amt c) ∧
       pot g' = pot g + Z.min amt c ∧
       (amt ≤ c →
          current_bet g' = b + amt ∧ player_bets g' !! player = Some (current_bet g'))) ∧
    (b + amt ≤ current_bet g → g' = g).
Proof.
  intros Hf Ha Hc Hb.
  destruct (process_action_raise g player amt c b) as [view Hrun]; try done.
  eexists view, _. split; [exact Hrun|]. split; intros Hcmp.
  - rewrite bool_decide_true by done. simpl.
    rewrite !lookup_insert_eq. split_and!; try done.
    intros Hle. by rewrite Z.min_l.
  - by rewrite bool_decide_false by lia.
Qed.

Ltac by_compute := apply (bool_decide_unpack _); vm_compute; exact I.

Lemma raise_moves_chips_only_above_bet_witness :
  ∃ view g',
    process_action "B" (mkPlayerAction RAISE 20) heads_up_preflop = (Ok (Some view), g') ∧
    (5 + 20 > current_bet heads_up_preflop →
       chips g' !! "B" = Some (95 - Z.min 20 95) ∧
       player_bets g' !! "B" = Some (5 + Z.min 20 95) ∧
       pot g' = pot heads_up_preflop + Z.min 20 95 ∧
       (20 ≤ 95 →
          current_bet g' = 5 + 20 ∧ player_bets g' !! "B" = Some (current_bet g'))) ∧
    (5 + 20 ≤ current_bet heads_up_preflop → g' = heads_up_preflop).
Proof.
  apply (raise_moves_chips_only_above_bet heads_up_preflop "B" 20 95 5).
  - by_compute.
  - by_compute.
  - by vm_compute.
  - by vm_compute.
Defined.

(** C3, as stated, fails: B has 95 chips, has put 5 in and faces a bet of
    10; a raise of 3 makes a total of 8, which does not exceed 10.  The
    raise is accepted, yet none of the 3 chips moves: stack and pot stay as
    they were. *)
Lemma small_raise_moves_no_chips :
  ∃ view g',
    process_action "B" (mkPlayerAction RAISE 3) heads_up_preflop = (Ok (Some view), g') ∧
    chips heads_up_preflop !! "B" = Some 95 ∧
    player_bets heads_up_preflop !! "B" = Some 5 ∧
    current_bet heads_up_preflop = 10 ∧
    chips g' !! "B" ≠ Some (95 - Z.min 3 95) ∧
    pot g' ≠ pot heads_up_preflop + Z.min 3 95 ∧
    g' = heads_up_preflop.
Proof.
  destruct (process_action_raise heads_up_preflop "B" 3 95 5) as [view Hrun];
    [by_compute|by_compute|by vm_compute|by vm_compute|].
  exists view, heads_up_preflop. split; [exact Hrun|].
  split_and!; try by vm_compute.
Qed.

(** ** What an action moves *)

Lemma process_action_moves (g : TexasHoldem) (player : string) (a : PlayerAction) (c b : Z) :
  chips g !! player = Some c → player_bets g !! player = Some b →
  ∃ moved,
    (moved ≤ c ∨ moved = 0) ∧
    chips (process_action player a g).2 !! player = Some (c - moved) ∧
    player_bets (process_action player a g).2 !! player = Some (b + moved) ∧
    pot (process_action player a g).2 = pot g + moved ∧
    (∀ q, q ≠ player →
       chips (process_action player a g).2 !! q = chips g !! q ∧
       player_bets (process_action player a g).2 !! q = player_bets g !! q).
Proof.
  intros Hc Hb.
  assert (∃ moved, (moved ≤ c ∨ moved = 0) ∧ chips g !! player = Some (c - moved) ∧
            player_bets g !! player = Some (b + moved) ∧ pot g = pot g + moved ∧
            (∀ q, q ≠ player → chips g !! q = chips g !! q ∧
                               player_bets g !! q = player_bets g !! q)) as Hsame.
  { exists 0. rewrite Z.sub_0_r, !Z.add_0_r. split_and!; [lia|done..]. }
  destruct (decide (player ∈ folded_players g)) as [Hf|Hf].
  { rewrite process_action_reject by auto. exact Hsame. }
  destruct (decide (player ∈ active_players g)) as [Ha|Ha].
  2:{ rewrite process_action_reject by auto. exact Hsame. }
  destruct a as [[] amt].
  - unfold process_action. run_M. rewrite eligible_not_rejected by done.
    cbn beta iota delta [action amount].
    destruct (_get_game_state_run None
                (set_folded_players ({[player]} ∪ folded_players g) g)) as (view & -> & _).
    exact Hsame.
  - destruct (process_action_call g player c b) as [view Hrun]; try done.
    unfold process_action in *. cbn beta iota delta [action amount] in *. rewrite Hrun.
    exists (Z.min (current_bet g - b) c). simpl. rewrite !lookup_insert_eq.
    split_and!; [lia|done..|].
    intros q Hq. by rewrite !lookup_insert_ne.
  - destruct (process_action_raise g player amt c b) as [view ->]; try done.
    case_bool_decide; [|exact Hsame].
    exists (Z.min amt c). simpl. rewrite !lookup_insert_eq.
    split_and!; [lia|done..|].
    intros q Hq. by rewrite !lookup_insert_ne.
  - unfold process_action. run_M. rewrite eligible_not_rejected by done.
    cbn beta iota delta [action amount]. unfold getitem. rewrite Hb. cbn beta iota.
    case_bool_decide; [exact Hsame|].
    destruct (_get_game_state_run None g) as (view & -> & _). exact Hsame.
Qed.

(** ** Starting a hand *)

Lemma with_chips_run (chips : gmap string Z) (ps : list string) :
  (∀ p, p ∈ ps → is_Some (chips !! p)) →
  ∃ active, with_chips chips ps = Ok active ∧
    (length active ≤ length ps)%nat ∧
    (∀ p, p ∈ active → p ∈ ps ∧ ∃ c, chips !! p = Some c ∧ c > 0).
Proof.
  induction ps as [|p ps IH]; intros Hall; simpl.
  - exists []. split_and!; [done..|]. by intros ? ?%elem_of_nil.
  - destruct (Hall p) as [c Hc]; [by left|].
    destruct IH as (rest & Hrest & Hlen & Hin).
    { intros q Hq. apply Hall. by right. }
    unfold getitem. rewrite Hc. simpl. rewrite Hrest. simpl.
    eexists. split; [done|]. case_bool_decide.
    + split; [simpl; lia|]. intros q [->|Hq]%elem_of_cons.
      * split; [by left|eauto].
      * destruct (Hin q Hq) as [? ?]. split; [by right|done].
    + split; [lia|]. intros q Hq. destruct (Hin q Hq) as [? ?]. split; [by right|done].
Qed.

Lemma lookup_zero_bets (ps : list string) (p : string) :
  p ∈ ps →
  (list_to_map ((fun player => (player, 0)) <$> ps) : gmap string Z) !! p = Some 0.
Proof.
  induction ps as [|q ps IH]; [by intros ?%elem_of_nil|].
  intros Hin. simpl. destruct (decide (q = p)) as [->|Hne].
  - by rewrite lookup_insert_eq.
  - rewrite lookup_insert_ne by done. apply IH.
    apply elem_of_cons in Hin as [->|]; done.
Qed.

Lemma reset_table_run (shuffled : list Card) (g : TexasHoldem) (active : list string) :
  with_chips (chips g) (players g) = Ok active →
  reset_table shuffled g =
    (Ok tt,
     mkTexasHoldem (players g) (starting_chips g) (small_blind g) (big_blind g)
       (chips g) (Some shuffled) [] ∅ 0 0
       (list_to_map ((fun player => (player, 0)) <$> players g))
       active ∅ (dealer_position g)).
Proof. intros H. unfold reset_table. run_M. simpl. by rewrite H. Qed.

Lemma dealt_from_refl (g : TexasHoldem) : dealt_from g g.
Proof. by destruct g. Qed.

Lemma dealt_from_trans (g1 g2 g3 : TexasHoldem) :
  dealt_from g1 g2 → dealt_from g2 g3 → dealt_from g1 g3.
Proof. unfold dealt_from. intros H12 H23. rewrite H23, H12. by destruct g1. Qed.

Lemma deal_run (g : TexasHoldem) (cards : list Card) (c : Card) :
  deck g = Some (cards ++ [c]) → deal g = (Ok c, set_deck (Some cards) g).
Proof.
  intros H. unfold deal. rewrite H, last_snoc. by rewrite removelast_last.
Qed.

Lemma deal_dealt_from (g : TexasHoldem) : dealt_from g (deal g).2.
Proof.
  unfold deal. destruct (deck g) as [cards|]; [|apply dealt_from_refl].
  destruct (last cards); [|apply dealt_from_refl]. by destruct g.
Qed.

Lemma deal_to_dealt_from (player : string) (g : TexasHoldem) :
  dealt_from g (deal_to player g).2.
Proof.
  unfold deal_to. run_M.
  pose proof (deal_dealt_from g) as H1. destruct (deal g) as [[c1|e] g1]; [|done].
  pose proof (deal_dealt_from g1) as H2. destruct (deal g1) as [[c2|e] g2]; simpl in *.
  - eapply dealt_from_trans; [done|]. eapply dealt_from_trans; [done|]. by destruct g2.
  - by eapply dealt_from_trans.
Qed.

Lemma for_each_deal_to_dealt_from (ps : list string) (g : TexasHoldem) :
  dealt_from g (for_each ps deal_to g).2.
Proof.
  revert g; induction ps as [|p ps IH]; intros g; simpl.
  - apply dealt_from_refl.
  - run_M. pose proof (deal_to_dealt_from p g) as H1.
    destruct (deal_to p g) as [[[]|e] g1]; simpl in *; [|done].
    eapply dealt_from_trans; [done|apply IH].
Qed.

Lemma snoc_two {A} (l : list A) :
  (2 ≤ length l)%nat → ∃ l' x y, l = (l' ++ [x]) ++ [y].
Proof.
  intros H. destruct l as [|y l _] using rev_ind; [simpl in H; lia|].
  destruct l as [|x l _] using rev_ind; [simpl in H; lia|]. eauto.
Qed.

Lemma deal_to_run (player : string) (g : TexasHoldem) (cards : list Card) :
  deck g = Some cards → (2 ≤ length cards)%nat →
  ∃ g' cards', deal_to player g = (Ok tt, g') ∧ deck g' = Some cards' ∧
    (length cards = 2 + length cards')%nat ∧
    ∀ q, is_Some (hole_cards g' !! q) ↔ q = player ∨ is_Some (hole_cards g !! q).
Proof.
  intros Hd Hlen. destruct (snoc_two cards Hlen) as (cards' & c2 & c1 & ->).
  unfold deal_to. run_M. rewrite (deal_run g _ c1 Hd). cbn beta iota.
  rewrite (deal_run _ cards' c2) by done. cbn beta iota.
  eexists _, cards'. split; [done|]. simpl. split; [done|].
  split; [rewrite !length_app; simpl; lia|].
  intros q. rewrite lookup_insert_is_Some. destruct (decide (player = q)) as [->|Hne].
  - split; auto.
  - split; [intros [?|[_ ?]]; [done|by right]|].
    intros [->|?]; [done|right; by split].
Qed.

Lemma for_each_deal_to_run (ps : list string) (g : TexasHoldem) (cards : list Card) :
  deck g = Some cards → (2 * length ps ≤ length cards)%nat →
  ∃ g', for_each ps deal_to g = (Ok tt, g') ∧
    ∀ q, is_Some (hole_cards g' !! q) ↔ q ∈ ps ∨ is_Some (hole_cards g !! q).
Proof.
  revert g cards; induction ps as [|p ps IH]; intros g cards Hd Hlen; simpl.
  - exists g. split; [done|]. intros q. rewrite elem_of_nil. tauto.
  - simpl in Hlen.
    destruct (deal_to_run p g cards Hd) as (g1 & cards1 & Hrun & Hd1 & Hl1 & Hh1); [lia|].
    destruct (IH g1 cards1 Hd1) as (g' & Hrun' & Hh'); [lia|].
    run_M. rewrite Hrun. cbn beta iota. rewrite Hrun'. exists g'. split; [done|].
    intros q. rewrite Hh', Hh1, elem_of_cons. tauto.
Qed.

Lemma getindex_mod {A} (xs : list A) (i : Z) :
  xs ≠ [] → ∃ x, getindex xs (i `mod` Z.of_nat (length xs)) = Ok x ∧ x ∈ xs.
Proof.
  intros Hne. unfold getindex.
  assert (0 < Z.of_nat (length xs)) as Hpos by (destruct xs; simpl in *; [done|lia]).
  pose proof (Z.mod_pos_bound i _ Hpos) as Hb.
  destruct (lookup_lt_is_Some_2 xs (Z.to_nat (i `mod` Z.of_nat (length xs)))) as [x Hx]; [lia|].
  rewrite Hx. exists x. split; [done|]. by eapply list_elem_of_lookup_2.
Qed.

Lemma min_twice (a c : Z) : Z.min (Z.min a c) c = Z.min a c.
Proof. lia. Qed.

(** The table after the two blinds: who posted, and how much. *)
Lemma post_blinds_two (g : TexasHoldem) :
  (2 ≤ length (active_players g))%nat →
  (∀ p, p ∈ active_players g → is_Some (chips g !! p) ∧ is_Some (player_bets g !! p)) →
  ∃ sb_player bb_player cs bs cb bb,
    getindex (active_players g)
      ((dealer_position g + 1) `mod` Z.of_nat (length (active_players g))) = Ok sb_player ∧
    getindex (active_players g)
      ((dealer_position g + 2) `mod` Z.of_nat (length (active_players g))) = Ok bb_player ∧
    chips g !! sb_player = Some cs ∧ player_bets g !! sb_player = Some bs ∧
    <[sb_player := cs - Z.min (small_blind g) cs]> (chips g) !! bb_player = Some cb ∧
    <[sb_player := bs + Z.min (small_blind g) cs]> (player_bets g) !! bb_player = Some bb ∧
    post_blinds g =
      (Ok tt,
       set_current_bet (big_blind g)
         (set_pot (pot g + Z.min (small_blind g) cs + Z.min (big_blind g) cb)
            (set_player_bets
               (<[bb_player := bb + Z.min (big_blind g) cb]>
                  (<[sb_player := bs + Z.min (small_blind g) cs]> (player_bets g)))
               (set_chips
                  (<[bb_player := cb - Z.min (big_blind g) cb]>
                     (<[sb_player := cs - Z.min (small_blind g) cs]> (chips g)))
                  g)))).
Proof.
  intros Hlen Hall.
  assert (active_players g ≠ []) as Hne by (intros E; rewrite E in Hlen; simpl in Hlen; lia).
  destruct (getindex_mod (active_players g) (dealer_position g + 1) Hne) as (sb & Hsb & Hsbin).
  destruct (getindex_mod (active_players g) (dealer_position g + 2) Hne) as (bb & Hbb & Hbbin).
  destruct (Hall sb Hsbin) as [[cs Hcs] [bs Hbs]].
  destruct (Hall bb Hbbin) as [[cb0 Hcb0] [bb0 Hbb0]].
  assert (is_Some (<[sb := cs - Z.min (small_blind g) cs]> (chips g) !! bb)) as [cb Hcb].
  { rewrite lookup_insert_is_Some. destruct (decide (sb = bb)); eauto. }
  assert (is_Some (<[sb := bs + Z.min (small_blind g) cs]> (player_bets g) !! bb)) as [bb' Hbb'].
  { rewrite lookup_insert_is_Some. destruct (decide (sb = bb)); eauto. }
  exists sb, bb, cs, bs, cb, bb'. split_and!; try done.
  unfold post_blinds. run_M. rewrite bool_decide_true by done.
  rewrite Hsb, Hbb. cbn beta iota. unfold getitem at 1. rewrite Hcs. cbn beta iota.
  rewrite (_place_bet_ok g sb _ cs bs) by done. cbn beta iota.
  rewrite !min_twice.
  unfold getitem. cbn [chips set_pot set_player_bets set_chips]. rewrite Hcb. cbn beta iota.
  erewrite _place_bet_ok; [|exact Hcb|exact Hbb']. cbn beta iota.
  rewrite !min_twice. reflexivity.
Qed.

Lemma post_blinds_run (g : TexasHoldem) :
  (∀ p, p ∈ active_players g → is_Some (chips g !! p) ∧ is_Some (player_bets g !! p)) →
  ∃ g', post_blinds g = (Ok tt, g') ∧
    g' = set_current_bet (current_bet g')
           (set_pot (pot g') (set_player_bets (player_bets g') (set_chips (chips g') g))) ∧
    on_table g' = on_table g ∧
    (∀ p c b, chips g !! p = Some c → player_bets g !! p = Some b →
       ∃ moved, (moved ≤ c ∨ moved = 0) ∧
         chips g' !! p = Some (c - moved) ∧ player_bets g' !! p = Some (b + moved)).
Proof.
  intros Hall. destruct (decide (2 ≤ length (active_players g))%nat) as [Hlen|Hlen].
  - destruct (post_blinds_two g Hlen Hall)
      as (sb & bb & cs & bs & cb & bb' & _ & _ & Hcs & Hbs & Hcb & Hbb & ->).
    eexists. split; [done|]. split; [done|]. split.
    + unfold on_table. simpl. rewrite (stacks_insert _ bb cb) by done.
      rewrite (stacks_insert _ sb cs) by done. lia.
    + intros p c b Hc Hb. simpl.
      destruct (decide (sb = bb)) as [<-|Hne].
      * rewrite lookup_insert_eq in Hcb, Hbb.
        injection Hcb as <-. injection Hbb as <-.
        rewrite !insert_insert_eq. destruct (decide (p = sb)) as [->|Hp].
        -- rewrite !lookup_insert_eq.
           assert (cs = c) as -> by congruence. assert (bs = b) as -> by congruence.
           exists (Z.min (small_blind g) c
                   + Z.min (big_blind g) (c - Z.min (small_blind g) c)).
           split_and!; [lia|f_equal; lia..].
        -- rewrite !lookup_insert_ne by done. exists 0.
           rewrite Hc, Hb. split_and!; [lia|f_equal; lia..].
      * rewrite lookup_insert_ne in Hcb, Hbb by done.
        destruct (decide (p = bb)) as [->|Hpb].
        -- rewrite !lookup_insert_eq.
           assert (cb = c) as -> by congruence. assert (bb' = b) as -> by congruence.
           exists (Z.min (big_blind g) c).
           split_and!; [lia|done..].
        -- rewrite !(lookup_insert_ne _ bb) by done.
           destruct (decide (p = sb)) as [->|Hps].
           ++ rewrite !lookup_insert_eq.
              assert (cs = c) as -> by congruence. assert (bs = b) as -> by congruence.
              exists (Z.min (small_blind g) c).
              split_and!; [lia|done..].
           ++ rewrite !lookup_insert_ne by done. exists 0.
              rewrite Hc, Hb. split_and!; [lia|f_equal; lia..].
  - exists g. unfold post_blinds. run_M. rewrite bool_decide_false by done.
    split; [done|]. split; [by destruct g|]. split; [done|].
    intros p c b Hc Hb. exists 0. rewrite Hc, Hb. split_and!; [lia|f_equal; lia..].
Qed.

Lemma not_folded_all (g : TexasHoldem) :
  folded_players g = ∅ → not_folded g = active_players g.
Proof.
  intros Hf. unfold not_folded. rewrite Hf.
  induction (active_players g) as [|p ps IH]; [done|].
  rewrite filter_cons_True by set_solver. by rewrite IH.
Qed.

(** A hand starts on any table whose players all have a stack entry, given
    two cards per player: the pot is emptied first, so the chips on the
    table afterwards are the stacks held before. *)
Lemma start_hand_run (shuffled : list Card) (g : TexasHoldem) :
  (∀ p, p ∈ players g → is_Some (chips g !! p)) →
  (2 * length (players g) ≤ length shuffled)%nat →
  ∃ view g',
    start_hand shuffled g = (Ok view, g') ∧
    on_table g' = stacks (chips g) ∧
    GameState.player_hole_cards view = hole_cards g' ∧
    GameState.active_players view = active_players g' ∧
    with_chips (chips g) (players g) = Ok (active_players g') ∧
    folded_players g' = ∅ ∧
    community_cards g' = [] ∧
    (∀ q, is_Some (hole_cards g' !! q) ↔ q ∈ active_players g') ∧
    (∀ p c, chips g !! p = Some c → p ∈ players g →
       ∃ moved, (moved ≤ c ∨ moved = 0) ∧
         chips g' !! p = Some (c - moved) ∧ player_bets g' !! p = Some moved).
Proof.
  intros Hall Hdeck.
  destruct (with_chips_run (chips g) (players g) Hall) as (active & Hactive & Hlen & Hin).
  unfold start_hand. run_M. rewrite (reset_table_run _ _ _ Hactive). cbn beta iota.
  set (g1 := mkTexasHoldem _ _ _ _ _ _ _ _ _ _ _ _ _ _).
  unfold deal_hole_cards. run_M.
  destruct (for_each_deal_to_run (active_players g1) g1 shuffled) as (g2 & Hrun2 & Hh2);
    [done|simpl; lia|].
  rewrite Hrun2. cbn beta iota.
  pose proof (for_each_deal_to_dealt_from (active_players g1) g1) as Hfr.
  rewrite Hrun2 in Hfr. simpl in Hfr. unfold dealt_from in Hfr.
  assert (chips g2 = chips g ∧ pot g2 = 0 ∧ active_players g2 = active ∧
          player_bets g2 = list_to_map ((fun player => (player, 0)) <$> players g) ∧
          folded_players g2 = ∅ ∧ community_cards g2 = [] ∧ players g2 = players g)
    as (Hc2 & Hp2 & Ha2 & Hb2 & Hf2 & Hcc2 & Hpl2) by (by rewrite Hfr).
  destruct (post_blinds_run g2) as (g3 & -> & Hfr3 & Hon3 & Hmoved).
  { intros p Hp. rewrite Ha2 in Hp. destruct (Hin p Hp) as [Hpin (c & Hc & _)].
    rewrite Hc2, Hb2, Hc, lookup_zero_bets by done. eauto. }
  cbn beta iota.
  destruct (_get_game_state_run (Some "preflop") g3) as (view & -> & Hv & _ & _ & _ & _ & Hva).
  assert (hole_cards g3 = hole_cards g2 ∧ active_players g3 = active_players g2 ∧
          folded_players g3 = folded_players g2 ∧ community_cards g3 = community_cards g2)
    as (Hh3 & Ha3 & Hf3 & Hcc3) by (by rewrite Hfr3).
  exists view, g3. split_and!; try done.
  - rewrite Hon3. unfold on_table. rewrite Hc2, Hp2. lia.
  - rewrite Hva. apply not_folded_all. congruence.
  - by rewrite Ha3, Ha2.
  - congruence.
  - congruence.
  - intros q. rewrite Hh3, Hh2, Ha3, Ha2. simpl. rewrite lookup_empty.
    split; [intros [?|[? [=]]]; done|auto].
  - intros p c Hc Hp.
    destruct (Hmoved p c 0) as (moved & ? & ? & ?).
    + by rewrite Hc2.
    + rewrite Hb2. by apply lookup_zero_bets.
    + exists moved. by rewrite Z.add_0_l in *.
Qed.

(** ** Contributions and the stack *)

(** C7.  Chips only move through [_place_bet], which a blind, a call and a
    raise all use: what moves is the requested amount clamped to the
    player's stack, so it never exceeds the stack and the stack never goes
    below zero.  Whatever the action, and likewise when the blinds are
    posted at the start of a hand, the player's street contribution either
    stays as it was or grows by at most the stack held before.  A call
    by a player whose stack is short of the amount owed is accepted: the
    whole stack goes in, the player is not folded. *)
Theorem contribution_clamped_to_stack (g : TexasHoldem) (player : string) (c b : Z) :
  chips g !! player = Some c → player_bets g !! player = Some b →
  (∀ amount, ∃ g',
     _place_bet player amount g = (Ok tt, g') ∧
     chips g' !! player = Some (c - Z.min amount c) ∧
     player_bets g' !! player = Some (b + Z.min amount c) ∧
     pot g' = pot g + Z.min amount c ∧
     Z.min amount c ≤ c ∧ 0 ≤ c - Z.min amount c) ∧
  (∀ a, ∃ moved,
     (moved ≤ c ∨ moved = 0) ∧
     chips (process_action player a g).2 !! player = Some (c - moved) ∧
     player_bets (process_action player a g).2 !! player = Some (b + moved) ∧
     pot (process_action player a g).2 = pot g + moved) ∧
  (player ∉ folded_players g → player ∈ active_players g → c < current_bet g - b →
   ∃ view g',
     process_action player (mkPlayerAction CALL 0) g = (Ok (Some view), g') ∧
     chips g' !! player = Some 0 ∧
     player_bets g' !! player = Some (b + c) ∧
     pot g' = pot g + c ∧
     player ∉ folded_players g') ∧
  (∀ shuffled,
     (∀ p, p ∈ players g → is_Some (chips g !! p)) →
     (2 * length (players g) ≤ length shuffled)%nat →
     player ∈ players g →
     ∃ view g' posted,
       start_hand shuffled g = (Ok view, g') ∧
       (posted ≤ c ∨ posted = 0) ∧
       chips g' !! player = Some (c - posted) ∧
       player_bets g' !! player = Some posted).
Proof.
  intros Hc Hb. split_and!.
  - intros amount. eexists. split; [by apply _place_bet_ok|]. simpl.
    rewrite !lookup_insert_eq. split_and!; try done; lia.
  - intros a. destruct (process_action_moves g player a c b) as (moved & ? & ? & ? & ? & _);
      try done.
    by exists moved.
  - intros Hf Ha Hshort.
    destruct (process_action_call g player c b) as [view Hrun]; try done.
    eexists view, _. split; [exact Hrun|]. simpl.
    rewrite !lookup_insert_eq, Z.min_r by lia.
    split_and!; try done. f_equal; lia.
  - intros shuffled Hall Hdeck Hin.
    destruct (start_hand_run shuffled g Hall Hdeck)
      as (view & g' & Hrun & _ & _ & _ & _ & _ & _ & _ & Hposted).
    destruct (Hposted player c Hc Hin) as (posted & ? & ? & ?).
    by exists view, g', posted.
Qed.

Lemma contribution_clamped_to_stack_witness :
  ∃ view g',
    process_action "B" (mkPlayerAction CALL 0) short_stack = (Ok (Some view), g') ∧
    chips g' !! "B" = Some 0 ∧
    player_bets g' !! "B" = Some (0 + 7) ∧
    pot g' = pot short_stack + 7 ∧
    "B" ∉ folded_players g'.
Proof.
  apply (contribution_clamped_to_stack short_stack "B" 7 0).
  - by vm_compute.
  - by vm_compute.
  - by_compute.
  - by_compute.
  - by vm_compute.
Defined.

(** ** Heads-up blinds *)

(** C5 (as the code has it).  Heads-up, A and B with 100 chips each, blinds
    5/10, button on A, any shuffle: after [start_hand] the pot is 15 and the
    bet to match is 10, but the blinds sit the other way round from the
    claim, because the small blind is the seat after the button and the big
    blind the seat after that, counted modulo two: B has posted the small
    blind of 5 and owes 5 more, the dealer A has posted the big blind
    of 10. *)
Theorem heads_up_blinds (shuffled : list Card) :
  (4 ≤ length shuffled)%nat →
  ∃ view g',
    start_hand shuffled heads_up = (Ok view, g') ∧
    pot g' = 15 ∧ current_bet g' = 10 ∧
    player_bets g' !! "A" = Some 10 ∧ player_bets g' !! "B" = Some 5 ∧
    chips g' !! "A" = Some 90 ∧ chips g' !! "B" = Some 95 ∧
    GameState.pot_size view = 15.
Proof.
  intros Hlen. unfold start_hand. run_M.
  rewrite (reset_table_run shuffled heads_up ["A"; "B"]) by (by vm_compute).
  cbn beta iota. set (g1 := mkTexasHoldem _ _ _ _ _ _ _ _ _ _ _ _ _ _).
  unfold deal_hole_cards. run_M.
  destruct (for_each_deal_to_run (active_players g1) g1 shuffled) as (g2 & Hrun2 & _);
    [done|simpl; lia|].
  rewrite Hrun2. cbn beta iota.
  pose proof (for_each_deal_to_dealt_from (active_players g1) g1) as Hfr.
  rewrite Hrun2 in Hfr. simpl in Hfr. unfold dealt_from in Hfr. rewrite Hfr.
  generalize (hole_cards g2) (deck g2). intros h dk. subst g1.
  eexists _, _. split; [vm_compute; reflexivity|]. by vm_compute.
Qed.

Lemma heads_up_blinds_witness :
  ∃ view g',
    start_hand unshuffled heads_up = (Ok view, g') ∧
    pot g' = 15 ∧ current_bet g' = 10 ∧
    player_bets g' !! "A" = Some 10 ∧ player_bets g' !! "B" = Some 5 ∧
    chips g' !! "A" = Some 90 ∧ chips g' !! "B" = Some 95 ∧
    GameState.pot_size view = 15.
Proof. apply heads_up_blinds. vm_compute. lia. Defined.

(** C5, as stated, fails on that table: the pot is 15, but it is A, the
    dealer, who has contributed 10 and B who has contributed 5; so it is
    not the case that A has contributed 5 and B 10. *)
Lemma heads_up_blinds_not_as_claimed :
  pot (start_hand unshuffled heads_up).2 = 15 ∧
  player_bets (start_hand unshuffled heads_up).2 !! "A" = Some 10 ∧
  player_bets (start_hand unshuffled heads_up).2 !! "B" = Some 5 ∧
  ¬ (pot (start_hand unshuffled heads_up).2 = 15 ∧
     player_bets (start_hand unshuffled heads_up).2 !! "A" = Some 5 ∧
     player_bets (start_hand unshuffled heads_up).2 !! "B" = Some 10).
Proof. vm_compute. split_and!; try done. by intros (_ & [=] & _). Qed.

(** ** Chips on the table *)

Lemma dealt_from_on_table (g g' : TexasHoldem) : dealt_from g g' → on_table g' = on_table g.
Proof. unfold dealt_from. intros ->. done. Qed.

Lemma process_action_on_table (g : TexasHoldem) (player : string) (a : PlayerAction) :
  on_table (process_action player a g).2 = on_table g.
Proof.
  unfold process_action. run_M.
  destruct (bool_decide (player ∈ folded_players g) || bool_decide (player ∉ active_players g));
    [done|].
  destruct (action a).
  - by destruct (_get_game_state_run None
                   (set_folded_players ({[player]} ∪ folded_players g) g)) as (view & -> & _).
  - unfold getitem at 1. destruct (player_bets g !! player) as [b|] eqn:Hb; [|done].
    cbn beta iota.
    pose proof (_place_bet_on_table g player (current_bet g - b) b Hb) as Hon.
    destruct (_place_bet player (current_bet g - b) g) as [[[]|e] g1]; [|done].
    by destruct (_get_game_state_run None g1) as (view & -> & _).
  - unfold getitem at 1. destruct (player_bets g !! player) as [b|] eqn:Hb; [|done].
    cbn beta iota. case_bool_decide.
    + pose proof (_place_bet_on_table g player (amount a) b Hb) as Hon.
      destruct (_place_bet player (amount a) g) as [[[]|e] g1]; [|done].
      cbn beta iota.
      by destruct (_get_game_state_run None (set_current_bet (b + amount a) g1))
        as (view & -> & _).
    + by destruct (_get_game_state_run None g) as (view & -> & _).
  - unfold getitem at 1. destruct (player_bets g !! player) as [b|] eqn:Hb; [|done].
    cbn beta iota. case_bool_decide; [done|].
    by destruct (_get_game_state_run None g) as (view & -> & _).
Qed.

Lemma advance_street_on_table (g : TexasHoldem) :
  deals_street g → on_table (advance_betting_round g).2 = on_table g.
Proof.
  intros Hs. unfold advance_betting_round. run_M.
  set (g1 := set_current_bet 0 _).
  assert (on_table g1 = on_table g) as <- by done.
  assert (community_cards g1 = community_cards g) as -> by done.
  assert (∀ g2 g3 : TexasHoldem, dealt_from g2 g3 →
            ∀ cc, on_table (set_community_cards cc g3) = on_table g2) as Hset.
  { intros g2 g3 ->. done. }
  assert (∀ (tag : string) g2 (cc : Card → TexasHoldem → list Card), on_table
            (match deal g2 with
             | (Ok c, g3) =>
                 match _get_game_state (Some tag) (set_community_cards (cc c g3) g3) with
                 | (Ok view, g4) => (Ok (NextStreet view), g4)
                 | (Raise e, g4) => (Raise e, g4)
                 end
             | (Raise e, g3) => (Raise e, g3)
             end).2 = on_table g2) as Hone.
  { intros tag g2 cc. pose proof (deal_dealt_from g2) as Hd.
    destruct (deal g2) as [[c|e] g3]; simpl in Hd; [|by apply dealt_from_on_table].
    destruct (_get_game_state_run (Some tag) (set_community_cards (cc c g3) g3))
      as (view & -> & _).
    simpl. by eapply Hset. }
  case_bool_decide as Hcc.
  - pose proof (deal_dealt_from g1) as Hd1.
    destruct (deal g1) as [[c1|e] g2]; simpl in Hd1; [|by apply dealt_from_on_table].
    pose proof (deal_dealt_from g2) as Hd2.
    destruct (deal g2) as [[c2|e] g3]; simpl in Hd2;
      [|apply dealt_from_on_table; by eapply dealt_from_trans].
    rewrite <- (dealt_from_on_table g1 g3) by (by eapply dealt_from_trans).
    apply (Hone "flop" g3 (fun c3 _ => [c1; c2; c3])).
  - case_bool_decide as H3.
    + apply (Hone "turn" g1 (fun c g3 => community_cards g3 ++ [c])).
    + case_bool_decide as H4; [|exfalso; destruct Hs as [?|[?|?]]; done].
      apply (Hone "river" g1 (fun c g3 => community_cards g3 ++ [c])).
Qed.

(** ** Showdown *)

Lemma _determine_winner_single (g : TexasHoldem) (winner : string) (c : Z) :
  not_folded g = [winner] → chips g !! winner = Some c →
  _determine_winner g =
    (Ok [(winner, pot g)], set_chips (<[winner := c + pot g]> (chips g)) g).
Proof.
  intros Hnf Hc. unfold _determine_winner. run_M. rewrite Hnf. simpl.
  unfold getitem. by rewrite Hc.
Qed.

Lemma pay_winners_run (winners : list string) (w : Z) (results : list (string * Z))
    (g : TexasHoldem) :
  (∀ p, p ∈ winners → is_Some (chips g !! p)) →
  ∃ g',
    pay_winners winners w results g =
      (Ok (foldl (fun r p => PyDict.set r p w) results winners), g') ∧
    g' = set_chips (chips g') g ∧
    stacks (chips g') = stacks (chips g) + Z.of_nat (length winners) * w.
Proof.
  revert results g; induction winners as [|p ws IH]; intros results g Hall.
  - exists g. simpl. split_and!; [done|by destruct g|lia].
  - destruct (Hall p) as [c Hc]; [by left|].
    cbn [pay_winners]. run_M. unfold getitem. rewrite Hc. cbn beta iota.
    destruct (IH (PyDict.set results p w) (set_chips (<[p := c + w]> (chips g)) g))
      as (g' & -> & Hfr & Hst).
    { intros q Hq. simpl. rewrite lookup_insert_is_Some.
      destruct (decide (p = q)); [by left|right]. split; [done|]. apply Hall. by right. }
    exists g'. split_and!; [done|by rewrite Hfr|].
    rewrite Hst. simpl. rewrite (stacks_insert _ p c) by done. lia.
Qed.

Lemma pay_winners_stops (winners : list string) (w : Z) (results : list (string * Z))
    (g : TexasHoldem) (r : list (string * Z)) (g' : TexasHoldem) :
  pay_winners winners w results g = (Ok r, g') →
  ∀ p, p ∈ winners → is_Some (chips g !! p).
Proof.
  revert results g; induction winners as [|p ws IH]; intros results g Hrun q Hq.
  - by apply elem_of_nil in Hq.
  - cbn [pay_winners] in Hrun. revert Hrun. run_M. unfold getitem.
    destruct (chips g !! p) as [c|] eqn:Hc; [|done]. cbn beta iota. intros Hrun.
    apply elem_of_cons in Hq as [->|Hq]; [by rewrite Hc|].
    specialize (IH _ _ Hrun q Hq). simpl in IH.
    rewrite lookup_insert_is_Some in IH. destruct IH as [->|[_ ?]]; [by rewrite Hc|done].
Qed.

(** Keys of a dictionary filled by assignments. *)
Lemma PyDict_set_keys {V} (d : list (string * V)) (k : string) (v : V) :
  map fst (PyDict.set d k v) = if decide (k ∈ map fst d) then map fst d else map fst d ++ [k].
Proof.
  induction d as [|[k' v'] d IH].
  - cbn [PyDict.set map]. rewrite decide_False; [done|]. by intros ?%elem_of_nil.
  - cbn [PyDict.set map fst]. destruct (decide (k' = k)) as [->|Hne]; cbn [map fst].
    + rewrite decide_True; [done|by left].
    + rewrite IH. destruct (decide (k ∈ map fst d)) as [Hin|Hin].
      * rewrite decide_True; [done|by right].
      * rewrite decide_False; [done|]. intros [?|?]%elem_of_cons; congruence.
Qed.

Lemma PyDict_set_NoDup {V} (d : list (string * V)) (k : string) (v : V) :
  NoDup (map fst d) → NoDup (map fst (PyDict.set d k v)).
Proof.
  intros Hnd. rewrite PyDict_set_keys. destruct (decide (k ∈ map fst d)); [done|].
  apply NoDup_app. split_and!; [done| |apply NoDup_singleton].
  intros x Hx ->%list_elem_of_singleton. done.
Qed.

Lemma pay_results (winners : list string) (w : Z) (results : list (string * Z)) :
  NoDup (map fst results ++ winners) →
  foldl (fun r p => PyDict.set r p w) results winners
  = results ++ map (fun p => (p, w)) winners.
Proof.
  revert results; induction winners as [|p ws IH]; intros results Hnd; simpl.
  - by rewrite app_nil_r.
  - assert (PyDict.set results p w = results ++ [(p, w)]) as ->.
    { apply NoDup_app in Hnd as (_ & Hdis & _).
      assert (p ∉ map fst results) as Hp by (intros ?; eapply Hdis; [done|by left]).
      clear -Hp. induction results as [|[k v] d IH]; [done|].
      cbn [PyDict.set app]. rewrite decide_False; [|intros ->; apply Hp; by left].
      rewrite IH; [done|]. intros ?; apply Hp; by right. }
    rewrite IH.
    + by rewrite <- app_assoc.
    + rewrite map_app. simpl. rewrite <- app_assoc. done.
Qed.

Lemma foldl_collect_raise (g : TexasHoldem) (active : list string) (e : exn) :
  foldl (collect_step g) (Raise e) active = Raise e.
Proof. induction active as [|p ps IH]; [done|]. exact IH. Qed.

Lemma collect_hands_NoDup (g : TexasHoldem) (active : list string)
    (acc ph : list (string * option HandEvaluation)) :
  foldl (collect_step g) (Ok acc) active = Ok ph →
  NoDup (map fst acc) → NoDup (map fst ph).
Proof.
  revert acc; induction active as [|p ps IH]; intros acc; cbn [foldl].
  - by intros [= ->].
  - destruct (collect_step g (Ok acc) p) as [acc'|e] eqn:Hstep.
    + intros Hrun Hnd. apply (IH acc' Hrun).
      unfold collect_step in Hstep. simpl in Hstep.
      destruct (getitem (hole_cards g) p) as [hole|]; [|done]. simpl in Hstep.
      destruct (_get_best_hand (hole ++ community_cards g)) as [best|]; [|done].
      simpl in Hstep. injection Hstep as <-. by apply PyDict_set_NoDup.
    + by rewrite foldl_collect_raise.
Qed.

Lemma winners_of_sublist (player_hands : list (string * option HandEvaluation))
    (best : option HandEvaluation) (ws : list string) :
  winners_of player_hands best = Ok ws → ws `sublist_of` map fst player_hands.
Proof.
  revert ws; induction player_hands as [|[p hand] rest IH]; intros ws; simpl.
  - by intros [= <-].
  - destruct (opt_ge hand best) as [keep|]; [|done]. simpl.
    destruct (winners_of rest best) as [ws'|]; [|done]. simpl.
    intros [= <-]. destruct keep; [apply sublist_skip|apply sublist_cons]; by apply IH.
Qed.

(** What a showdown that returns has done: the pot attribute is left as it
    was, only the stacks change, every winner is credited the same amount
    [pot // number of winners]. *)
Lemma _determine_winner_returns (g g' : TexasHoldem) (results : list (string * Z)) :
  _determine_winner g = (Ok results, g') →
  g' = set_chips (chips g') g ∧
  results ≠ [] ∧
  (∀ p x, (p, x) ∈ results → x = pot g `div` Z.of_nat (length results)) ∧
  stacks (chips g') =
    stacks (chips g) + Z.of_nat (length results) * (pot g `div` Z.of_nat (length results)).
Proof.
  unfold _determine_winner. run_M. case_bool_decide as Hone.
  - destruct (not_folded g) as [|winner [|??]] eqn:Hnf; try done. simpl.
    unfold getitem. destruct (chips g !! winner) as [c|] eqn:Hc; [|done]. simpl.
    intros [= <- <-]. simpl. rewrite Z.div_1_r.
    split_and!; [done..| |].
    + by intros p x [= -> ->]%list_elem_of_singleton.
    + rewrite (stacks_insert _ winner c) by done. lia.
  - unfold collect_hands.
    destruct (foldl (collect_step g) (Ok []) (not_folded g)) as [ph|] eqn:Hph; [|done].
    cbn beta iota.
    destruct (max_hand (PyDict.values ph)) as [best|]; [|done]. cbn beta iota.
    destruct (winners_of ph best) as [ws|] eqn:Hws; [|done]. cbn beta iota.
    case_bool_decide as Hlen; [done|]. intros Hrun.
    pose proof (pay_winners_stops _ _ _ _ _ _ Hrun) as Hchips.
    destruct (pay_winners_run ws (pot g `div` Z.of_nat (length ws)) [] g Hchips)
      as (g'' & Hrun' & Hfr & Hst).
    rewrite Hrun in Hrun'. injection Hrun' as -> <-.
    assert (NoDup ws) as Hnd.
    { apply (sublist_NoDup ws (map fst ph)); [|by eapply winners_of_sublist].
      eapply collect_hands_NoDup; [done|]. constructor. }
    rewrite pay_results by done. simpl. rewrite length_map.
    split_and!; [done| |  |done].
    + destruct ws; [done|]. done.
    + intros p x (q & [= -> ->] & _)%list_elem_of_In%in_map_iff. done.
Qed.

Lemma combinations_nonempty {A} (l : list A) (r : nat) :
  (r ≤ length l)%nat → combinations l r ≠ [].
Proof.
  intros Hr Hnil.
  assert (take r l ∈ combinations l r) as Hin.
  { apply combinations_spec. split; [apply sublist_take|]. rewrite length_take. lia. }
  rewrite Hnil in Hin. by apply elem_of_nil in Hin.
Qed.

Lemma _get_best_hand_some (cards : list Card) :
  (5 ≤ length cards)%nat → ∃ best, _get_best_hand cards = Ok (Some best).
Proof.
  intros Hlen. destruct (best_hand_fold (combinations cards 5) None) as ([best|] & Hr & Hspec).
  - by exists best.
  - destruct Hspec as [_ Hnil]. by apply combinations_nonempty in Hnil.
Qed.

Lemma PyDict_set_elem {V} (d : list (string * V)) (k : string) (v : V) (x : string * V) :
  x ∈ PyDict.set d k v → x ∈ d ∨ x = (k, v).
Proof.
  induction d as [|[k' v'] d IH]; cbn [PyDict.set].
  - intros ->%list_elem_of_singleton. by right.
  - destruct (decide (k' = k)) as [->|Hne].
    + intros [->|?]%elem_of_cons; [by right|left; by right].
    + intros [->|[?|?]%IH]%elem_of_cons; [left; by left|left; by right|by right].
Qed.

Lemma collect_hands_run (g : TexasHoldem) (active : list string)
    (acc : list (string * option HandEvaluation)) :
  (∀ p, p ∈ active →
     ∃ hole, hole_cards g !! p = Some hole ∧ (5 ≤ length (hole ++ community_cards g))%nat) →
  all_evaluated acc →
  ∃ ph, foldl (collect_step g) (Ok acc) active = Ok ph ∧
    all_evaluated ph ∧
    (∀ p, p ∈ map fst ph ↔ p ∈ map fst acc ∨ p ∈ active).
Proof.
  revert acc; induction active as [|p ps IH]; intros acc Hwf Hacc; cbn [foldl].
  - exists acc. split_and!; [done..|]. intros q. rewrite elem_of_nil. tauto.
  - destruct (Hwf p) as (hole & Hhole & Hlen); [by left|].
    destruct (_get_best_hand_some _ Hlen) as [best Hbest].
    assert (collect_step g (Ok acc) p = Ok (PyDict.set acc p (Some best))) as ->.
    { unfold collect_step, getitem. simpl. rewrite Hhole. simpl. by rewrite Hbest. }
    destruct (IH (PyDict.set acc p (Some best))) as (ph & -> & Hall & Hkeys).
    + intros q Hq. apply Hwf. by right.
    + intros q h [?|[= -> ->]]%PyDict_set_elem; [by eapply Hacc|done].
    + exists ph. split_and!; [done..|]. intros q. rewrite Hkeys, PyDict_set_keys.
      rewrite elem_of_cons. destruct (decide (p ∈ map fst acc)) as [Hin|Hin].
      * split; [tauto|]. intros [?|[->|?]]; tauto.
      * rewrite elem_of_app, list_elem_of_singleton. split; [tauto|]. intros [?|[->|?]]; tauto.
Qed.

Lemma max_hand_fold (rest : list (option HandEvaluation)) (a : HandEvaluation) :
  (∀ h, h ∈ rest → is_Some h) →
  ∃ m, foldl max_step (Ok (Some a)) rest = Ok (Some m) ∧
    Some m ∈ Some a :: rest ∧
    he_le a m = true ∧
    (∀ h, Some h ∈ rest → he_le h m = true).
Proof.
  revert a; induction rest as [|item rest IH]; intros a Hall; cbn [foldl].
  - exists a. split_and!; [done|by left|apply he_le_refl|]. by intros ? ?%elem_of_nil.
  - destruct (Hall item) as [x ->]; [by left|].
    assert (∃ a', max_step (Ok (Some a)) (Some x) = Ok (Some a') ∧ (a' = a ∨ a' = x) ∧
              he_le a a' = true ∧ he_le x a' = true) as (a' & -> & Hfrom & Ha & Hx).
    { unfold max_step. simpl. destruct (he_gt x a) eqn:Hgt.
      - exists x. split_and!; auto using he_le_refl, he_gt_true_le.
      - exists a. split_and!; auto using he_le_refl, he_gt_false_le. }
    destruct (IH a') as (m & -> & Hin & Hle & Hub).
    { intros h Hh. apply Hall. by right. }
    exists m. split_and!; [done| | |].
    + apply elem_of_cons in Hin as [[= ->]|Hin].
      * destruct Hfrom as [->| ->]; [by left|right; by left].
      * right. by right.
    + by eapply he_le_trans.
    + intros h [[= ->]|Hh]%elem_of_cons; [by eapply he_le_trans|by apply Hub].
Qed.

Lemma max_hand_run (hands : list (option HandEvaluation)) :
  hands ≠ [] → (∀ h, h ∈ hands → is_Some h) →
  ∃ m, max_hand hands = Ok (Some m) ∧ Some m ∈ hands ∧
    (∀ h, Some h ∈ hands → he_le h m = true).
Proof.
  intros Hne Hall. destruct hands as [|h0 rest]; [done|].
  destruct (Hall h0) as [a ->]; [by left|].
  destruct (max_hand_fold rest a) as (m & Hrun & Hin & Hle & Hub).
  { intros h Hh. apply Hall. by right. }
  exists m. split_and!; [exact Hrun|done|].
  intros h [[= ->]|Hh]%elem_of_cons; auto.
Qed.

Lemma winners_of_run (ph : list (string * option HandEvaluation)) (m : HandEvaluation) :
  all_evaluated ph →
  ∃ ws, winners_of ph (Some m) = Ok ws ∧
    ∀ p, p ∈ ws ↔ ∃ h, (p, Some h) ∈ ph ∧ he_ge h m = true.
Proof.
  induction ph as [|[p hand] rest IH]; intros Hall; simpl.
  - exists []. split; [done|]. intros p. rewrite elem_of_nil.
    split; [done|]. by intros (h & ?%elem_of_nil & _).
  - destruct (Hall p hand) as [x ->]; [by left|]. simpl.
    destruct IH as (ws & -> & Hws).
    { intros q h Hq. eapply Hall. by right. }
    simpl. eexists. split; [done|]. intros q. destruct (he_ge x m) eqn:Hge.
    + rewrite elem_of_cons, Hws. split.
      * intros [->|(h & ? & ?)]; [exists x; split; [by left|done]|].
        exists h. split; [by right|done].
      * intros (h & [[= -> ->]|?]%elem_of_cons & ?); [by left|right; eauto].
    + rewrite Hws. split.
      * intros (h & ? & ?). exists h. split; [by right|done].
      * intros (h & [[= -> ->]|?]%elem_of_cons & ?); [congruence|eauto].
Qed.

(** A showdown between players who all hold hole cards and a stack, with at
    least five cards each to choose from, returns. *)
Lemma _determine_winner_run (g : TexasHoldem) :
  not_folded g ≠ [] →
  (∀ p, p ∈ not_folded g →
     is_Some (chips g !! p) ∧
     ∃ hole, hole_cards g !! p = Some hole ∧ (5 ≤ length (hole ++ community_cards g))%nat) →
  ∃ results g', _determine_winner g = (Ok results, g').
Proof.
  intros Hne Hwf. destruct (decide (length (not_folded g) = 1%nat)) as [Hone|Hone].
  - destruct (not_folded g) as [|winner [|??]] eqn:Hnf; try done.
    destruct (Hwf winner) as [[c Hc] _]; [by left|].
    rewrite (_determine_winner_single g winner c) by done. eauto.
  - unfold _determine_winner. run_M. rewrite bool_decide_false by done.
    unfold collect_hands.
    destruct (collect_hands_run g (not_folded g) []) as (ph & -> & Hall & Hkeys).
    { intros p Hp. by destruct (Hwf p Hp). }
    { by intros p h ?%elem_of_nil. }
    cbn beta iota.
    assert (PyDict.values ph ≠ []) as Hvals.
    { destruct (not_folded g) as [|p ?]; [done|].
      assert (p ∈ map fst ph) as Hp by (apply Hkeys; right; by left).
      destruct ph; [by apply elem_of_nil in Hp|done]. }
    destruct (max_hand_run (PyDict.values ph) Hvals) as (m & -> & Hm & _).
    { intros h ([p h'] & <- & He)%list_elem_of_In%in_map_iff.
      eapply Hall. by apply list_elem_of_In. }
    cbn beta iota. destruct (winners_of_run ph m Hall) as (ws & -> & Hws). cbn beta iota.
    apply list_elem_of_In, in_map_iff in Hm as ([p h] & Hh & Hin). simpl in Hh. subst h.
    assert (p ∈ ws) as Hp.
    { apply Hws. exists m. split; [by apply list_elem_of_In|].
      rewrite he_ge_le. apply he_le_refl. }
    rewrite bool_decide_false by (destruct ws; [by apply elem_of_nil in Hp|done]).
    destruct (pay_winners_run ws (pot g `div` Z.of_nat (length ws)) [] g) as (g' & -> & _).
    { intros q (h & Hq & _)%Hws. apply Hwf.
      assert (q ∈ map fst ph) as Hk.
      { apply list_elem_of_In, in_map_iff. exists (q, Some h). split; [done|].
        by apply list_elem_of_In. }
      apply Hkeys in Hk as [?%elem_of_nil|?]; done. }
    eauto.
Qed.

(** ** Tables reached within a hand *)

Lemma in_hand_on_table (g0 g : TexasHoldem) :
  in_hand g0 g → on_table g = stacks (chips g0).
Proof.
  induction 1 as [shuffled Hall Hdeck|g player a _ IH|g _ IH Hs].
  - destruct (start_hand_run shuffled g0 Hall Hdeck) as (view & g' & -> & Hon & _). done.
  - by rewrite process_action_on_table.
  - by rewrite advance_street_on_table.
Qed.

Lemma tie_deck_is_a_deck : length tie_deck = 52%nat ∧ NoDup tie_deck.
Proof. split; [by vm_compute|by_compute]. Qed.

Lemma heads_up_folded_in_hand : in_hand heads_up heads_up_folded.
Proof.
  change heads_up_folded
    with (after (process_action "B" (mkPlayerAction FOLD 0))
            (after (start_hand unshuffled) heads_up)).
  unfold after. apply action_applied, hand_started.
  - intros p Hp. simpl in Hp.
    repeat (apply elem_of_cons in Hp as [->|Hp]; [vm_compute; eauto|]).
    by apply elem_of_nil in Hp.
  - vm_compute. lia.
Qed.

Lemma three_way_river_in_hand : in_hand three_way three_way_river.
Proof.
  change three_way_river with (three_way_play three_way).
  unfold three_way_play, after.
  do 3 (apply street_dealt; [|vm_compute; auto]).
  do 3 apply action_applied. apply hand_started.
  - intros p Hp. simpl in Hp.
    repeat (apply elem_of_cons in Hp as [->|Hp]; [vm_compute; eauto|]).
    by apply elem_of_nil in Hp.
  - vm_compute. lia.
Qed.

(** C1 (as the code has it).  A new table holds the starting stacks and an
    empty pot.  Every applied action and every dealt street leaves stacks
    plus pot unchanged, so on every table reached within a hand stacks plus
    pot equal the stacks held when the hand started ([start_hand] empties
    the pot before the blinds go in).  A showdown credits the stacks and
    leaves the pot attribute as it was: with one player left, or with tied
    winners among whom the pot divides evenly, the stacks afterwards are the
    stacks before plus the pot. *)
Theorem chips_on_table_accounting :
  (∀ players starting_chips small_blind big_blind,
     NoDup players →
     on_table (TexasHoldem_init players starting_chips small_blind big_blind)
     = Z.of_nat (length players) * starting_chips) ∧
  (∀ g player a, on_table (process_action player a g).2 = on_table g) ∧
  (∀ g, deals_street g → on_table (advance_betting_round g).2 = on_table g) ∧
  (∀ g0 g, in_hand g0 g → on_table g = stacks (chips g0)) ∧
  (∀ g winner c, not_folded g = [winner] → chips g !! winner = Some c →
     ∃ g', _determine_winner g = (Ok [(winner, pot g)], g') ∧
       pot g' = pot g ∧ stacks (chips g') = stacks (chips g) + pot g) ∧
  (∀ g, not_folded g ≠ [] →
     (∀ p, p ∈ not_folded g →
        is_Some (chips g !! p) ∧
        ∃ hole, hole_cards g !! p = Some hole
                ∧ (5 ≤ length (hole ++ community_cards g))%nat) →
     ∃ results g', _determine_winner g = (Ok results, g') ∧
       pot g' = pot g ∧
       ((Z.of_nat (length results) | pot g) →
        stacks (chips g') = stacks (chips g) + pot g)).
Proof.
  split_and!.
  - intros players sc sb bb Hnd. unfold on_table. rewrite stacks_init by done. simpl. lia.
  - apply process_action_on_table.
  - apply advance_street_on_table.
  - apply in_hand_on_table.
  - intros g winner c Hnf Hc. eexists. split; [by apply _determine_winner_single|].
    simpl. split; [done|]. rewrite (stacks_insert _ winner c) by done. lia.
  - intros g Hne Hwf. destruct (_determine_winner_run g Hne Hwf) as (results & g' & Hrun).
    exists results, g'. split; [done|].
    destruct (_determine_winner_returns g g' results Hrun) as (Hfr & Hres & _ & Hst).
    split; [by rewrite Hfr|]. intros [k Hk]. rewrite Hst, Hk.
    rewrite Z.div_mul by (destruct results; [done|simpl; lia]). lia.
Qed.

Lemma three_way_river_showdown_ready (p : string) :
  p ∈ not_folded three_way_river →
  is_Some (chips three_way_river !! p) ∧
  ∃ hole, hole_cards three_way_river !! p = Some hole
          ∧ (5 ≤ length (hole ++ community_cards three_way_river))%nat.
Proof.
  assert (not_folded three_way_river = ["A"; "C"]) as -> by (by vm_compute).
  intros Hp.
  repeat (apply elem_of_cons in Hp as [->|Hp];
          [split; [vm_compute; eauto|eexists; split; [by vm_compute|vm_compute; lia]]|]).
  by apply elem_of_nil in Hp.
Qed.

Lemma chips_on_table_accounting_witness :
  on_table three_way_river = stacks (chips three_way) ∧
  ∃ results g',
    _determine_winner three_way_river = (Ok results, g') ∧
    pot g' = pot three_way_river ∧
    ((Z.of_nat (length results) | pot three_way_river) →
     stacks (chips g') = stacks (chips three_way_river) + pot three_way_river).
Proof.
  destruct chips_on_table_accounting as (_ & _ & _ & Hin & _ & Hshow). split.
  - apply Hin, three_way_river_in_hand.
  - apply Hshow; [by vm_compute|apply three_way_river_showdown_ready].
Defined.

(** C1, as stated, fails at showdown.  Heads-up, B folds: A is paid the pot
    of 15, the pot attribute still reads 15, so stacks plus pot go from 200
    to 215.  Three-handed, A and C tie for a pot of 25: each is credited 12,
    the stacks go from 275 to 299 and not to 300, the pot still reads 25. *)
Lemma showdown_changes_chips_on_table :
  on_table heads_up_folded = 200 ∧
  (_determine_winner heads_up_folded).1 = Ok [("A", 15)] ∧
  on_table (after _determine_winner heads_up_folded) = 215 ∧
  on_table (after _determine_winner heads_up_folded) ≠ on_table heads_up_folded ∧
  on_table three_way_river = 300 ∧
  (_determine_winner three_way_river).1 = Ok [("A", 12); ("C", 12)] ∧
  stacks (chips (after _determine_winner three_way_river)) = 299 ∧
  pot (after _determine_winner three_way_river) = 25 ∧
  on_table (after _determine_winner three_way_river) ≠ on_table three_way_river.
Proof. by vm_compute. Qed.

(** ** What a view shows *)

Lemma advance_view_hole_cards (g g' : TexasHoldem) (view : GameState.t) :
  advance_betting_round g = (Ok (NextStreet view), g') →
  GameState.player_hole_cards view = hole_cards g'.
Proof.
  unfold advance_betting_round. run_M. set (g1 := set_current_bet 0 _).
  assert (∀ (tag : string) (g2 : TexasHoldem),
            match _get_game_state (Some tag) g2 with
            | (Ok v, g3) => (Ok (NextStreet v), g3)
            | (Raise e, g3) => (Raise e, g3)
            end = (Ok (NextStreet view), g') →
            GameState.player_hole_cards view = hole_cards g') as Hview.
  { intros tag g2. destruct (_get_game_state_run (Some tag) g2) as (v & -> & Hv & _).
    intros [= <- <-]. done. }
  repeat case_bool_decide.
  - destruct (deal g1) as [[c1|e] g2]; [|done].
    destruct (deal g2) as [[c2|e] g3]; [|done].
    destruct (deal g3) as [[c3|e] g4]; [|done]. apply Hview.
  - destruct (deal g1) as [[c|e] g2]; [|done]. apply Hview.
  - destruct (deal g1) as [[c|e] g2]; [|done]. apply Hview.
  - by destruct (_determine_winner g1) as [[results|e] g2].
Qed.

(** C2 (as the code has it).  A view carries a copy of the table's whole
    hole-card dictionary: the hole cards of every player dealt in, the
    acting player's own and everybody else's.  So do the views returned
    when a hand starts, by an accepted action and when a street is dealt,
    and so does the view the orchestrator hands to an agent next to that
    agent's own two cards. *)
Theorem view_shows_all_hole_cards (g : TexasHoldem) :
  (∀ betting_round, ∃ view,
     _get_game_state betting_round g = (Ok view, g) ∧
     GameState.player_hole_cards view = hole_cards g) ∧
  (∀ player a view g',
     process_action player a g = (Ok (Some view), g') →
     GameState.player_hole_cards view = hole_cards g' ∧ hole_cards g' = hole_cards g) ∧
  (∀ shuffled,
     (∀ p, p ∈ players g → is_Some (chips g !! p)) →
     (2 * length (players g) ≤ length shuffled)%nat →
     ∃ view g',
       start_hand shuffled g = (Ok view, g') ∧
       GameState.player_hole_cards view = hole_cards g' ∧
       ∀ q, q ∈ GameState.active_players view →
            is_Some (GameState.player_hole_cards view !! q)) ∧
  (∀ view g',
     advance_betting_round g = (Ok (NextStreet view), g') →
     GameState.player_hole_cards view = hole_cards g') ∧
  (∀ view player_name game_state hole,
     GameState.player_hole_cards view = hole_cards g →
     decision_input g view player_name = Ok (game_state, hole) →
     game_state = view ∧
     GameState.player_hole_cards game_state !! player_name = Some hole ∧
     ∀ other, GameState.player_hole_cards game_state !! other = hole_cards g !! other).
Proof.
  split_and!.
  - intros r. destruct (_get_game_state_run r g) as (view & ? & ? & _). eauto.
  - intros player a view g'. unfold process_action. run_M.
    destruct (bool_decide (player ∈ folded_players g) || bool_decide (player ∉ active_players g));
      [done|].
    assert (∀ g1 : TexasHoldem, hole_cards g1 = hole_cards g →
              match _get_game_state None g1 with
              | (Ok v, g2) => (Ok (Some v), g2)
              | (Raise e, g2) => (Raise e, g2)
              end = (Ok (Some view), g') →
              GameState.player_hole_cards view = hole_cards g' ∧ hole_cards g' = hole_cards g)
      as Hview.
    { intros g1 Hg1. destruct (_get_game_state_run None g1) as (v & -> & Hv & _).
      intros [= <- <-]. by rewrite Hv. }
    destruct (action a).
    + by apply Hview.
    + unfold getitem at 1. destruct (player_bets g !! player) as [b|] eqn:Hb; [|done].
      cbn beta iota. destruct (chips g !! player) as [c|] eqn:Hc.
      * rewrite (_place_bet_ok g player _ c b) by done. by apply Hview.
      * by rewrite _place_bet_no_stack.
    + unfold getitem at 1. destruct (player_bets g !! player) as [b|] eqn:Hb; [|done].
      cbn beta iota. case_bool_decide; [|by apply Hview].
      destruct (chips g !! player) as [c|] eqn:Hc.
      * rewrite (_place_bet_ok g player _ c b) by done. by apply Hview.
      * by rewrite _place_bet_no_stack.
    + unfold getitem at 1. destruct (player_bets g !! player) as [b|] eqn:Hb; [|done].
      cbn beta iota. case_bool_decide; [done|by apply Hview].
  - intros shuffled Hall Hdeck.
    destruct (start_hand_run shuffled g Hall Hdeck)
      as (view & g' & Hrun & _ & Hv & Ha & _ & _ & _ & Hh & _).
    exists view, g'. split_and!; [done..|]. intros q Hq. rewrite Hv. apply Hh. by rewrite <- Ha.
  - intros view g'. apply advance_view_hole_cards.
  - intros view player_name game_state hole Hv. unfold decision_input, getitem.
    destruct (hole_cards g !! player_name) as [h|] eqn:Hh; [|done]. simpl.
    intros [= <- <-]. split_and!; [done|by rewrite Hv|]. intros other. by rewrite Hv.
Qed.

Lemma view_shows_all_hole_cards_witness :
  ∃ view,
    _get_game_state None heads_up_preflop = (Ok view, heads_up_preflop) ∧
    GameState.player_hole_cards view = hole_cards heads_up_preflop.
Proof. apply (view_shows_all_hole_cards heads_up_preflop). Defined.

(** C2, as stated, fails: in the view the engine returns when a heads-up
    hand starts, the player to act is A, and the view holds B's two hole
    cards as well as A's. *)
Lemma view_leaks_other_hole_cards :
  ∃ view g',
    start_hand unshuffled heads_up = (Ok view, g') ∧
    GameState.to_act view = "A" ∧
    decision_input g' view "A" = Ok (view, [card ACE SPADES; card ACE CLUBS]) ∧
    GameState.player_hole_cards view !! "A" = Some [card ACE SPADES; card ACE CLUBS] ∧
    GameState.player_hole_cards view !! "B" = Some [card ACE DIAMONDS; card ACE HEARTS].
Proof. eexists _, _. split; [by vm_compute|]. by vm_compute. Qed.

(** ** Sessions won *)

Lemma py_max_fold (rest : list Z) (x : Z) :
  let m := foldl (fun m y => if bool_decide (y > m) then y else m) x rest in
  m ∈ x :: rest ∧ x ≤ m ∧ ∀ y, y ∈ rest → y ≤ m.
Proof.
  revert x; induction rest as [|y rest IH]; intros x; simpl.
  - split_and!; [by left|lia|]. by intros ? ?%elem_of_nil.
  - destruct (IH (if bool_decide (y > x) then y else x)) as (Hin & Hle & Hub).
    split_and!.
    + apply elem_of_cons in Hin as [Hin|Hin]; [|right; by right].
      rewrite Hin. case_bool_decide; [right; by left|by left].
    + case_bool_decide; lia.
    + intros z [->|Hz]%elem_of_cons; [|by apply Hub]. case_bool_decide; lia.
Qed.

Lemma py_max_run (xs : list Z) :
  xs ≠ [] → ∃ m, py_max xs = Ok m ∧ m ∈ xs ∧ ∀ x, x ∈ xs → x ≤ m.
Proof.
  destruct xs as [|x rest]; [done|]. intros _.
  destruct (py_max_fold rest x) as (Hin & Hle & Hub).
  eexists. split; [done|]. split; [done|].
  intros y [->|Hy]%elem_of_cons; auto.
Qed.

Lemma final_chip_values_elem (session : GameResults) (c : Z) :
  c ∈ final_chip_values session ↔ ∃ q, player_final_chips session !! q = Some c.
Proof.
  unfold final_chip_values. rewrite list_elem_of_fmap. split.
  - intros ([q c'] & -> & Hin%elem_of_map_to_list). by exists q.
  - intros [q Hq]. exists (q, c). split; [done|]. by apply elem_of_map_to_list.
Qed.

(** C10 (as the code has it).  In a session with at least one player there
    is a highest final chip count [m], held by some player; a player is
    counted as winning the session exactly when their own final count
    (0 when they have none) equals [m].  Every player tied at the top is
    therefore counted, and [sessions_won] adds one for each such session. *)
Theorem sessions_won_counts_every_top_stack (session : GameResults) :
  player_final_chips session ≠ ∅ →
  ∃ m,
    (∃ q, player_final_chips session !! q = Some m) ∧
    (∀ q c, player_final_chips session !! q = Some c → c ≤ m) ∧
    (∀ name,
       tops_session name session
       = Ok (bool_decide (default 0 (player_final_chips session !! name) = m))) ∧
    (∀ name, player_final_chips session !! name = Some m →
       ∀ rest n, sessions_won name rest = Ok n →
                 sessions_won name (session :: rest) = Ok (1 + n)).
Proof.
  intros Hne.
  destruct (py_max_run (final_chip_values session)) as (m & Hm & Hin & Hub).
  { unfold final_chip_values. intros Hnil%fmap_nil_inv. by apply map_to_list_empty_iff in Hnil. }
  exists m. split_and!.
  - by apply final_chip_values_elem.
  - intros q c Hq. apply Hub, final_chip_values_elem. by exists q.
  - intros name. unfold tops_session. by rewrite Hm.
  - intros name Hname rest n Hrest. simpl. unfold tops_session. rewrite Hm. simpl.
    rewrite Hrest. simpl. rewrite Hname. simpl. by rewrite bool_decide_true.
Qed.

Lemma sessions_won_counts_every_top_stack_witness :
  ∃ m,
    (∃ q, player_final_chips tied_session !! q = Some m) ∧
    (∀ q c, player_final_chips tied_session !! q = Some c → c ≤ m) ∧
    (∀ name,
       tops_session name tied_session
       = Ok (bool_decide (default 0 (player_final_chips tied_session !! name) = m))) ∧
    (∀ name, player_final_chips tied_session !! name = Some m →
       ∀ rest n, sessions_won name rest = Ok n →
                 sessions_won name (tied_session :: rest) = Ok (1 + n)).
Proof.
  apply sessions_won_counts_every_top_stack.
  intros E. apply (f_equal (fun m => m !! "A")) in E. by vm_compute in E.
Defined.

(** C10, as stated, fails: A and B tie for the highest final chip count of
    the session, and each of them is counted as having won it. *)
Lemma tied_session_counts_for_both :
  player_final_chips tied_session !! "A" = Some 1000 ∧
  player_final_chips tied_session !! "B" = Some 1000 ∧
  py_max (final_chip_values tied_session) = Ok 1000 ∧
  sessions_won "A" [tied_session] = Ok 1 ∧
  sessions_won "B" [tied_session] = Ok 1.
Proof. by vm_compute. Qed.

(** * Further properties of the code *)

(** ** Comparing evaluations *)

Lemma he_lt_eq_gt_exclusive (a b : HandEvaluation) :
  (he_lt a b = true → he_eq a b = false ∧ he_gt a b = false) ∧
  (he_eq a b = true → he_lt a b = false ∧ he_gt a b = false) ∧
  (he_gt a b = true → he_lt a b = false ∧ he_eq a b = false).
Proof.
  assert (∀ x y, he_lt x y = true → he_eq x y = false) as Hne.
  { intros x y Hlt. destruct (he_eq x y) eqn:E; [|done].
    apply he_eq_spec in E as ->. apply he_lt_asym in Hlt as Hlt'. congruence. }
  assert (∀ x y, he_eq x y = he_eq y x) as Hsym.
  { intros x y. apply eq_true_iff_eq. rewrite !he_eq_spec. split; congruence. }
  rewrite he_gt_lt. split_and!.
  - intros Hlt. split; [by apply Hne|by apply he_lt_asym].
  - intros Heq. split.
    + destruct (he_lt a b) eqn:E; [|done]. apply Hne in E. congruence.
    + destruct (he_lt b a) eqn:E; [|done]. apply Hne in E. rewrite Hsym in E. congruence.
  - intros Hgt. split; [by apply he_lt_asym|]. rewrite Hsym. by apply Hne.
Qed.

(** X1.  The comparison methods of [HandEvaluation] agree with one another
    and order the evaluations totally: [>] is [<] with the sides swapped
    and [>=] is [<=] with the sides swapped; of [a < b], [a == b] and
    [a > b] exactly one holds; [==] holds for equal category and equal
    tiebreak list only; [<=] is transitive and antisymmetric. *)
Theorem hand_evaluations_are_totally_ordered :
  (∀ a b, he_gt a b = he_lt b a ∧ he_ge a b = he_le b a) ∧
  (∀ a b, he_lt a b = true ∨ he_eq a b = true ∨ he_gt a b = true) ∧
  (∀ a b,
     (he_lt a b = true → he_eq a b = false ∧ he_gt a b = false) ∧
     (he_eq a b = true → he_lt a b = false ∧ he_gt a b = false) ∧
     (he_gt a b = true → he_lt a b = false ∧ he_eq a b = false)) ∧
  (∀ a b, he_eq a b = true ↔ hand_rank a = hand_rank b ∧ kickers a = kickers b) ∧
  (∀ a b c, he_le a b = true → he_le b c = true → he_le a c = true) ∧
  (∀ a b, he_le a b = true → he_le b a = true → a = b).
Proof.
  split_and!.
  - intros a b. split; [apply he_gt_lt|apply he_ge_le].
  - intros a b. rewrite he_gt_lt, he_eq_spec. apply he_lt_trichotomy.
  - apply he_lt_eq_gt_exclusive.
  - intros a b. rewrite he_eq_spec. destruct a, b; simpl. split; [by intros [= -> ->]|].
    by intros [-> ->].
  - apply he_le_trans.
  - apply he_le_antisym.
Qed.

(** ** [evaluate] and [_get_best_hand] on any number of cards *)

Lemma _get_best_hand_none (cards : list Card) :
  _get_best_hand cards = Ok None ↔ (length cards < 5)%nat.
Proof.
  split.
  - intros Hnone. destruct (decide (length cards < 5)%nat) as [?|Hge]; [done|].
    destruct (_get_best_hand_some cards) as [best Hbest]; [lia|congruence].
  - intros Hlt. unfold _get_best_hand.
    assert (combinations cards 5 = []) as ->; [|done].
    destruct (combinations cards 5) as [|five rest] eqn:E; [done|].
    assert (five ∈ combinations cards 5) as Hin by (rewrite E; by left).
    apply combinations_spec in Hin as [Hsub%sublist_length Hlen]. lia.
Qed.

(** X2.  [evaluate] returns an evaluation for every list of cards, of any
    length: none of its [[...][0]], [ranks[0]] and [max(ranks)] can raise.
    [_get_best_hand] never raises either; it returns [None] exactly when it
    is given fewer than five cards, and an evaluation otherwise. *)
Theorem evaluation_never_raises (cards : list Card) :
  (∃ e, evaluate cards = Ok e) ∧
  (_get_best_hand cards = Ok None ↔ (length cards < 5)%nat) ∧
  ((5 ≤ length cards)%nat ↔ ∃ best, _get_best_hand cards = Ok (Some best)).
Proof.
  split_and!.
  - apply evaluate_total.
  - apply _get_best_hand_none.
  - split; [apply _get_best_hand_some|].
    intros [best Hbest]. destruct (decide (5 ≤ length cards)%nat) as [?|Hlt]; [done|].
    assert (_get_best_hand cards = Ok None) by (apply _get_best_hand_none; lia). congruence.
Qed.

(** ** Dictionaries kept in insertion order *)

Section PyDict_facts.
Context {K V : Type} `{EqDecision K}.

Lemma PyDict_get_set (d : list (K * V)) (k k' : K) (v dflt : V) :
  PyDict.get (PyDict.set d k v) k' dflt
  = if decide (k = k') then v else PyDict.get d k' dflt.
Proof.
  induction d as [|[k0 v0] d IH]; cbn [PyDict.set PyDict.get].
  - destruct (decide (k = k')); done.
  - destruct (decide (k0 = k)) as [->|Hne]; cbn [PyDict.get].
    + destruct (decide (k = k')); done.
    + rewrite IH. destruct (decide (k0 = k')) as [->|?]; [|done].
      by rewrite decide_False.
Qed.

Lemma PyDict_keys_set (d : list (K * V)) (k : K) (v : V) :
  map fst (PyDict.set d k v)
  = if decide (k ∈ map fst d) then map fst d else map fst d ++ [k].
Proof.
  induction d as [|[k' v'] d IH].
  - cbn [PyDict.set map]. rewrite decide_False; [done|]. by intros ?%elem_of_nil.
  - cbn [PyDict.set map fst]. destruct (decide (k' = k)) as [->|Hne]; cbn [map fst].
    + rewrite decide_True; [done|by left].
    + rewrite IH. destruct (decide (k ∈ map fst d)) as [Hin|Hin].
      * rewrite decide_True; [done|by right].
      * rewrite decide_False; [done|]. intros [?|?]%elem_of_cons; congruence.
Qed.

Lemma PyDict_keys_set_NoDup (d : list (K * V)) (k : K) (v : V) :
  NoDup (map fst d) → NoDup (map fst (PyDict.set d k v)).
Proof.
  intros Hnd. rewrite PyDict_keys_set. destruct (decide (k ∈ map fst d)); [done|].
  apply NoDup_app. split_and!; [done| |apply NoDup_singleton].
  intros x Hx ->%list_elem_of_singleton. done.
Qed.

Lemma PyDict_get_elem (d : list (K * V)) (k : K) (v dflt : V) :
  NoDup (map fst d) → (k, v) ∈ d → PyDict.get d k dflt = v.
Proof.
  induction d as [|[k0 v0] d IH]; [by intros _ ?%elem_of_nil|].
  cbn [map fst PyDict.get]. intros [Hk0 Hnd]%NoDup_cons [[= -> ->]|Hin]%elem_of_cons.
  - by rewrite decide_True.
  - rewrite decide_False; [by apply IH|]. intros ->. apply Hk0.
    apply list_elem_of_In, in_map_iff. exists (k, v). split; [done|by apply list_elem_of_In].
Qed.

End PyDict_facts.

(** ** What [rank_counts] holds *)

Lemma count_fold_get (ranks : list Z) (acc : list (Z * Z)) (r : Z) :
  PyDict.get
    (foldl (fun rank_counts rank =>
              PyDict.set rank_counts rank (PyDict.get rank_counts rank 0 + 1)) acc ranks) r 0
  = PyDict.get acc r 0 + Z.of_nat (length (filter (fun x => x = r) ranks)).
Proof.
  revert acc; induction ranks as [|x ranks IH]; intros acc; cbn [foldl].
  - rewrite filter_nil. simpl. lia.
  - rewrite IH, PyDict_get_set. destruct (decide (x = r)) as [->|Hne].
    + rewrite filter_cons_True by done. rewrite length_cons. lia.
    + rewrite filter_cons_False by done. lia.
Qed.

Lemma count_fold_NoDup (ranks : list Z) (acc : list (Z * Z)) :
  NoDup (map fst acc) →
  NoDup (map fst
    (foldl (fun rank_counts rank =>
              PyDict.set rank_counts rank (PyDict.get rank_counts rank 0 + 1)) acc ranks)).
Proof.
  revert acc; induction ranks as [|x ranks IH]; intros acc Hnd; cbn [foldl]; [done|].
  apply IH. by apply PyDict_keys_set_NoDup.
Qed.

Lemma count_ranks_NoDup (ranks : list Z) : NoDup (map fst (count_ranks ranks)).
Proof. apply count_fold_NoDup. constructor. Qed.

Lemma count_ranks_elem (ranks : list Z) (r n : Z) :
  (r, n) ∈ count_ranks ranks → Z.of_nat (length (filter (fun x => x = r) ranks)) = n.
Proof.
  intros Hin.
  pose proof (PyDict_get_elem (count_ranks ranks) r n 0 (count_ranks_NoDup ranks) Hin) as Hget.
  unfold count_ranks in Hget. rewrite count_fold_get in Hget. simpl in Hget. lia.
Qed.

Lemma filter_length_perm (P : Z → Prop) `{∀ x, Decision (P x)} (l l' : list Z) :
  l ≡ₚ l' → length (filter P l) = length (filter P l').
Proof. intros Hp. by rewrite Hp. Qed.

Lemma cards_of_rank_sorted (cards : list Card) (r : Z) :
  length (filter (fun x => x = r)
            (sorted_reverse (map (fun card => Rank_value (rank card)) cards)))
  = cards_of_rank cards r.
Proof.
  unfold cards_of_rank, sorted_reverse.
  rewrite (filter_length_perm _ _ _ (merge_sort_Permutation _ _)).
  induction cards as [|c cards IH]; [done|]. cbn [map].
  destruct (decide (Rank_value (rank c) = r)) as [E|E].
  - rewrite !filter_cons_True by done. simpl. by rewrite IH.
  - rewrite !filter_cons_False by done. done.
Qed.

Lemma ranks_with_count_elem (rank_counts : list (Z * Z)) (n r : Z) :
  r ∈ ranks_with_count rank_counts n ↔ (r, n) ∈ rank_counts.
Proof.
  unfold ranks_with_count. rewrite list_elem_of_In, in_map_iff. split.
  - intros ([r' n'] & <- & Hin%list_elem_of_In%list_elem_of_filter). simpl in *.
    destruct Hin as [-> ?]. done.
  - intros Hin. exists (r, n). split; [done|].
    apply list_elem_of_In, list_elem_of_filter. done.
Qed.

Lemma ranks_with_count_length (rank_counts : list (Z * Z)) (n : Z) :
  length (ranks_with_count rank_counts n)
  = length (filter (fun x => x = n) (PyDict.values rank_counts)).
Proof.
  unfold ranks_with_count, PyDict.values. rewrite length_map.
  induction rank_counts as [|[r c] rc IH]; [done|]. cbn [map snd].
  destruct (decide (c = n)) as [E|E].
  - rewrite !filter_cons_True by done. simpl. by rewrite IH.
  - rewrite !filter_cons_False by done. done.
Qed.

Lemma ranks_with_count_NoDup (ranks : list Z) (n : Z) :
  NoDup (ranks_with_count (count_ranks ranks) n).
Proof.
  unfold ranks_with_count. pose proof (count_ranks_NoDup ranks) as Hnd.
  induction (count_ranks ranks) as [|[r c] rc IH]; [constructor|].
  cbn [map fst] in Hnd. apply NoDup_cons in Hnd as [Hr Hnd].
  destruct (decide (c = n)) as [E|E].
  - rewrite filter_cons_True by done. cbn [map fst]. apply NoDup_cons. split; [|by apply IH].
    intros ([r' c'] & Hrr & Hin%list_elem_of_In%list_elem_of_filter)%list_elem_of_In%in_map_iff.
    simpl in Hrr. subst r'. apply Hr. apply list_elem_of_In, in_map_iff.
    exists (r, c'). split; [done|]. apply list_elem_of_In. by destruct Hin.
  - rewrite filter_cons_False by done. by apply IH.
Qed.

Lemma item0_elem {A} (xs : list A) (x : A) : item0 xs = Ok x → x ∈ xs.
Proof. destruct xs; [done|]. intros [= ->]. by left. Qed.

Lemma multiplicity_of (cards : list Card) (r n : Z) :
  r ∈ ranks_with_count
        (count_ranks (sorted_reverse (map (fun card => Rank_value (rank card)) cards))) n →
  Z.of_nat (cards_of_rank cards r) = n.
Proof.
  intros Hin%ranks_with_count_elem%count_ranks_elem. by rewrite cards_of_rank_sorted in Hin.
Qed.

Lemma sorted_reverse_descending (l : list Z) :
  NoDup l → Sorted Z.gt (sorted_reverse l).
Proof.
  intros Hnd.
  assert (NoDup (sorted_reverse l)) as Hnd'.
  { unfold sorted_reverse. by rewrite merge_sort_Permutation. }
  assert (Sorted Z.ge (sorted_reverse l)) as Hs.
  { unfold sorted_reverse. apply Sorted_merge_sort. intros x y; lia. }
  induction Hs as [|x xs Hs IH Hhd]; [constructor|].
  apply NoDup_cons in Hnd' as [Hx Hnd']. constructor; [by apply IH|].
  destruct Hhd as [|y ys Hge]; constructor.
  assert (x ≠ y) by (intros ->; apply Hx; by left). lia.
Qed.

Lemma singles_length (rank_counts : list (Z * Z)) (n : Z) (counts : list Z) :
  sorted_reverse (PyDict.values rank_counts) = counts →
  length (sorted_reverse (ranks_with_count rank_counts n))
  = length (filter (fun x => x = n) counts).
Proof.
  intros <-. rewrite sorted_reverse_length, ranks_with_count_length.
  apply filter_length_perm. unfold sorted_reverse. by rewrite merge_sort_Permutation.
Qed.

Lemma sorted_two (l : list Z) :
  NoDup l → length (sorted_reverse l) = 2%nat →
  ∃ k1 k2, sorted_reverse l = [k1; k2] ∧ k1 > k2 ∧ k1 ∈ l ∧ k2 ∈ l.
Proof.
  intros Hnd Hlen. pose proof (sorted_reverse_descending l Hnd) as Hs.
  pose proof (sorted_reverse_elem) as Hel.
  destruct (sorted_reverse l) as [|k1 [|k2 [|??]]] eqn:E; try done.
  exists k1, k2. split; [done|].
  apply Sorted_inv in Hs as [_ Hhd]. apply HdRel_inv in Hhd.
  split_and!; [done|apply Hel; rewrite E..].
  - by left.
  - right; by left.
Qed.

Lemma sorted_three (l : list Z) :
  NoDup l → length (sorted_reverse l) = 3%nat →
  ∃ k1 k2 k3, sorted_reverse l = [k1; k2; k3] ∧ k1 > k2 ∧ k2 > k3
              ∧ k1 ∈ l ∧ k2 ∈ l ∧ k3 ∈ l.
Proof.
  intros Hnd Hlen. pose proof (sorted_reverse_descending l Hnd) as Hs.
  pose proof (sorted_reverse_elem) as Hel.
  destruct (sorted_reverse l) as [|k1 [|k2 [|k3 [|??]]]] eqn:E; try done.
  exists k1, k2, k3. split; [done|].
  apply Sorted_inv in Hs as [Hs Hhd]. apply HdRel_inv in Hhd.
  apply Sorted_inv in Hs as [_ Hhd']. apply HdRel_inv in Hhd'.
  split_and!; [done|done|apply Hel; rewrite E..].
  - by left.
  - right; by left.
  - right; right; by left.
Qed.

(** ** What the categories and tiebreaks of [evaluate] mean *)

Ltac other_category :=
  split_and!; intros Hcat; simpl in Hcat;
  try discriminate Hcat;
  try (by destruct Hcat as [Hcat|Hcat]);
  try (by destruct Hcat as [Hcat|[Hcat|Hcat]]);
  clear Hcat.

Lemma of_nat_eq (n : nat) (z : Z) (m : nat) : Z.of_nat n = z → z = Z.of_nat m → n = m.
Proof. lia. Qed.

Lemma evaluate_shapes (cards : list Card) (e : HandEvaluation) :
  evaluate cards = Ok e →
  (hand_rank e = FOUR_OF_A_KIND →
     ∃ a b, kickers e = [a; b]
            ∧ cards_of_rank cards a = 4%nat ∧ cards_of_rank cards b = 1%nat) ∧
  (hand_rank e = FULL_HOUSE →
     ∃ a b, kickers e = [a; b]
            ∧ cards_of_rank cards a = 3%nat ∧ cards_of_rank cards b = 2%nat) ∧
  (hand_rank e = THREE_OF_A_KIND →
     ∃ a k1 k2, kickers e = [a; k1; k2] ∧ cards_of_rank cards a = 3%nat
                ∧ cards_of_rank cards k1 = 1%nat ∧ cards_of_rank cards k2 = 1%nat
                ∧ k1 > k2) ∧
  (hand_rank e = TWO_PAIR →
     ∃ a b c, kickers e = [a; b; c] ∧ cards_of_rank cards a = 2%nat
              ∧ cards_of_rank cards b = 2%nat ∧ a > b ∧ cards_of_rank cards c = 1%nat) ∧
  (hand_rank e = PAIR →
     ∃ a k1 k2 k3, kickers e = [a; k1; k2; k3] ∧ cards_of_rank cards a = 2%nat
                   ∧ cards_of_rank cards k1 = 1%nat ∧ cards_of_rank cards k2 = 1%nat
                   ∧ cards_of_rank cards k3 = 1%nat ∧ k1 > k2 ∧ k2 > k3) ∧
  (hand_rank e = FLUSH ∨ hand_rank e = HIGH_CARD →
     kickers e = sorted_reverse (map (fun card => Rank_value (rank card)) cards)) ∧
  (hand_rank e = STRAIGHT ∨ hand_rank e = STRAIGHT_FLUSH ∨ hand_rank e = ROYAL_FLUSH →
     ∃ m, kickers e = [m]).
Proof.
  unfold evaluate.
  set (ranks := sorted_reverse _).
  set (rc := count_ranks ranks).
  assert (∀ r n, r ∈ ranks_with_count rc n → Z.of_nat (cards_of_rank cards r) = n) as Hmult.
  { intros r n. apply multiplicity_of. }
  assert (∀ n, NoDup (ranks_with_count rc n)) as Hnd by (intros n; apply ranks_with_count_NoDup).
  destruct (_is_straight ranks && _).
  { destruct (item0 ranks) as [r0|]; [|done]. simpl. case_bool_decide.
    - intros [= <-]. other_category. by eexists.
    - destruct (py_max ranks); [|done]. simpl. intros [= <-]. other_category. by eexists. }
  case_bool_decide as H41.
  { destruct (item0 (ranks_with_count rc 4)) as [a|] eqn:Ha; [|done]. simpl.
    destruct (item0 (ranks_with_count rc 1)) as [b|] eqn:Hb; [|done]. simpl.
    intros [= <-]. other_category. exists a, b.
    apply item0_elem, Hmult in Ha, Hb. split_and!; [done|lia..]. }
  case_bool_decide as H32.
  { destruct (item0 (ranks_with_count rc 3)) as [a|] eqn:Ha; [|done]. simpl.
    destruct (item0 (ranks_with_count rc 2)) as [b|] eqn:Hb; [|done]. simpl.
    intros [= <-]. other_category. exists a, b.
    apply item0_elem, Hmult in Ha, Hb. split_and!; [done|lia..]. }
  case_bool_decide as Hfl.
  { intros [= <-]. other_category. }
  destruct (_is_straight ranks).
  { destruct (py_max ranks); [|done]. simpl. intros [= <-]. other_category. by eexists. }
  case_bool_decide as H311.
  { destruct (item0 (ranks_with_count rc 3)) as [a|] eqn:Ha; [|done]. simpl.
    intros [= <-]. other_category.
    destruct (sorted_two (ranks_with_count rc 1)) as (k1 & k2 & Hks & Hgt & Hk1 & Hk2);
      [done|by rewrite (singles_length rc 1 _ H311)|].
    exists a, k1, k2. simpl. rewrite Hks.
    apply item0_elem, Hmult in Ha. apply Hmult in Hk1, Hk2. split_and!; [done|lia..]. }
  case_bool_decide as H221.
  { destruct (item0 (ranks_with_count rc 1)) as [c|] eqn:Hc; [|done]. simpl.
    intros [= <-]. other_category.
    destruct (sorted_two (ranks_with_count rc 2)) as (a & b & Hks & Hgt & Hk1 & Hk2);
      [done|by rewrite (singles_length rc 2 _ H221)|].
    exists a, b, c. simpl. rewrite Hks.
    apply item0_elem, Hmult in Hc. apply Hmult in Hk1, Hk2. split_and!; [done|lia..]. }
  case_bool_decide as H2111.
  { destruct (item0 (ranks_with_count rc 2)) as [a|] eqn:Ha; [|done]. simpl.
    intros [= <-]. other_category.
    destruct (sorted_three (ranks_with_count rc 1))
      as (k1 & k2 & k3 & Hks & Hgt1 & Hgt2 & Hk1 & Hk2 & Hk3);
      [done|by rewrite (singles_length rc 1 _ H2111)|].
    exists a, k1, k2, k3. simpl. rewrite Hks.
    apply item0_elem, Hmult in Ha. apply Hmult in Hk1, Hk2, Hk3.
    split_and!; [done|lia..]. }
  intros [= <-]. other_category.
Qed.

(** X3.  The leading tiebreak ranks are the ranks that occur with the
    multiplicity the category names.  Four of a kind [a; b]: four cards of
    rank [a], one of rank [b]; full house [a; b]: three of [a], two of [b];
    three of a kind [a; k1; k2]: three of [a], one each of [k1 > k2]; two
    pair [a; b; c]: two each of [a > b], one of [c]; pair [a; k1; k2; k3]:
    two of [a], one each of [k1 > k2 > k3]. *)
Theorem evaluate_multiplicities (cards : list Card) (e : HandEvaluation) :
  evaluate cards = Ok e →
  (hand_rank e = FOUR_OF_A_KIND →
     ∃ a b, kickers e = [a; b]
            ∧ cards_of_rank cards a = 4%nat ∧ cards_of_rank cards b = 1%nat) ∧
  (hand_rank e = FULL_HOUSE →
     ∃ a b, kickers e = [a; b]
            ∧ cards_of_rank cards a = 3%nat ∧ cards_of_rank cards b = 2%nat) ∧
  (hand_rank e = THREE_OF_A_KIND →
     ∃ a k1 k2, kickers e = [a; k1; k2] ∧ cards_of_rank cards a = 3%nat
                ∧ cards_of_rank cards k1 = 1%nat ∧ cards_of_rank cards k2 = 1%nat
                ∧ k1 > k2) ∧
  (hand_rank e = TWO_PAIR →
     ∃ a b c, kickers e = [a; b; c] ∧ cards_of_rank cards a = 2%nat
              ∧ cards_of_rank cards b = 2%nat ∧ a > b ∧ cards_of_rank cards c = 1%nat) ∧
  (hand_rank e = PAIR →
     ∃ a k1 k2 k3, kickers e = [a; k1; k2; k3] ∧ cards_of_rank cards a = 2%nat
                   ∧ cards_of_rank cards k1 = 1%nat ∧ cards_of_rank cards k2 = 1%nat
                   ∧ cards_of_rank cards k3 = 1%nat ∧ k1 > k2 ∧ k2 > k3).
Proof.
  intros He. destruct (evaluate_shapes cards e He) as (H4 & H32 & H3 & H22 & H2 & _).
  done.
Qed.

Lemma evaluate_multiplicities_witness :
  ∃ a b c,
    kickers (mkHandEvaluation TWO_PAIR [14; 3; 5]) = [a; b; c]
    ∧ cards_of_rank [card ACE HEARTS; card THREE CLUBS; card FIVE HEARTS;
                     card ACE DIAMONDS; card THREE SPADES] a = 2%nat
    ∧ cards_of_rank [card ACE HEARTS; card THREE CLUBS; card FIVE HEARTS;
                     card ACE DIAMONDS; card THREE SPADES] b = 2%nat
    ∧ a > b
    ∧ cards_of_rank [card ACE HEARTS; card THREE CLUBS; card FIVE HEARTS;
                     card ACE DIAMONDS; card THREE SPADES] c = 1%nat.
Proof.
  apply (evaluate_multiplicities
           [card ACE HEARTS; card THREE CLUBS; card FIVE HEARTS;
            card ACE DIAMONDS; card THREE SPADES]
           (mkHandEvaluation TWO_PAIR [14; 3; 5])); [by vm_compute|reflexivity].
Defined.

(** X4.  For a hand of five cards the tiebreak list has the length that
    goes with its category (five for high card and flush, four for a pair,
    three for two pair and three of a kind, two for full house and four of
    a kind, one for the straights), so two evaluations of the same category
    are always compared rank by rank and never by length. *)
Theorem tiebreak_length_by_category (cards : list Card) (e : HandEvaluation) :
  length cards = 5%nat → evaluate cards = Ok e →
  length (kickers e) = tiebreak_length (hand_rank e).
Proof.
  intros Hlen He.
  destruct (evaluate_shapes cards e He) as (H4 & H32 & H3 & H22 & H2 & Hfl & Hst).
  destruct (hand_rank e) eqn:Hcat; simpl.
  - rewrite Hfl by auto. by rewrite sorted_reverse_length, length_map.
  - destruct H2 as (a & k1 & k2 & k3 & -> & _); done.
  - destruct H22 as (a & b & c & -> & _); done.
  - destruct H3 as (a & k1 & k2 & -> & _); done.
  - destruct Hst as (m & ->); auto.
  - rewrite Hfl by auto. by rewrite sorted_reverse_length, length_map.
  - destruct H32 as (a & b & -> & _); done.
  - destruct H4 as (a & b & -> & _); done.
  - destruct Hst as (m & ->); auto.
  - destruct Hst as (m & ->); auto.
Qed.

Lemma tiebreak_length_by_category_witness :
  length (kickers (mkHandEvaluation PAIR [13; 14; 9; 2])) = tiebreak_length PAIR.
Proof.
  apply (tiebreak_length_by_category
           [card ACE SPADES; card KING HEARTS; card KING CLUBS; card TWO CLUBS;
            card NINE DIAMONDS]
           (mkHandEvaluation PAIR [13; 14; 9; 2])); [reflexivity|by vm_compute].
Defined.

(** ** Hands of fewer than five cards *)

Lemma count_set_sum (d : list (Z * Z)) (k : Z) :
  foldr Z.add 0 (PyDict.values (PyDict.set d k (PyDict.get d k 0 + 1)))
  = foldr Z.add 0 (PyDict.values d) + 1.
Proof.
  unfold PyDict.values. induction d as [|[k' v'] d IH]; cbn [PyDict.set PyDict.get].
  - simpl. lia.
  - destruct (decide (k' = k)) as [->|Hne]; cbn [map snd foldr]; [lia|].
    rewrite IH. lia.
Qed.

Lemma count_ranks_sum (ranks : list Z) :
  foldr Z.add 0 (PyDict.values (count_ranks ranks)) = Z.of_nat (length ranks).
Proof.
  unfold count_ranks.
  assert (∀ acc, foldr Z.add 0 (PyDict.values
            (foldl (fun rank_counts rank =>
                      PyDict.set rank_counts rank (PyDict.get rank_counts rank 0 + 1))
                   acc ranks))
          = foldr Z.add 0 (PyDict.values acc) + Z.of_nat (length ranks)) as Hgen.
  { induction ranks as [|x ranks IH]; intros acc; cbn [foldl].
    - simpl. lia.
    - rewrite IH, count_set_sum, length_cons. lia. }
  rewrite Hgen. simpl. lia.
Qed.

Lemma sum_perm (l l' : list Z) : l ≡ₚ l' → foldr Z.add 0 l = foldr Z.add 0 l'.
Proof. induction 1; simpl; lia. Qed.

Lemma counts_sum (ranks : list Z) :
  foldr Z.add 0 (sorted_reverse (PyDict.values (count_ranks ranks)))
  = Z.of_nat (length ranks).
Proof.
  rewrite <- count_ranks_sum. apply sum_perm. unfold sorted_reverse.
  apply merge_sort_Permutation.
Qed.

Lemma _is_straight_needs_five (ranks : list Z) :
  (length ranks < 5)%nat → _is_straight ranks = false.
Proof.
  intros Hlt. unfold _is_straight. rewrite bool_decide_true; [done|].
  rewrite sorted_length.
  assert (length (elements (list_to_set ranks : gset Z)) ≤ length ranks)%nat; [|lia].
  apply submseteq_length, NoDup_submseteq; [apply NoDup_elements|].
  intros x Hx%elem_of_elements. by apply elem_of_list_to_set in Hx.
Qed.

(** X5.  [evaluate] does not look at the number of cards: a hand of one to
    four cards that are all of one suit is returned as a flush, with the
    ranks of its cards in descending order as tiebreak. *)
Theorem short_suited_hand_is_a_flush (cards : list Card) (s : Suit) :
  cards ≠ [] → (length cards < 5)%nat → (∀ c, c ∈ cards → suit c = s) →
  evaluate cards
  = Ok (mkHandEvaluation FLUSH
          (sorted_reverse (map (fun card => Rank_value (rank card)) cards))).
Proof.
  intros Hne Hlen Hsuit. unfold evaluate.
  set (ranks := sorted_reverse _).
  assert (length ranks = length cards) as Hrl.
  { unfold ranks. by rewrite sorted_reverse_length, length_map. }
  rewrite _is_straight_needs_five by lia. cbn [andb].
  pose proof (counts_sum ranks) as Hsum.
  rewrite bool_decide_false by (intros E; rewrite E in Hsum; simpl in Hsum; lia).
  rewrite bool_decide_false by (intros E; rewrite E in Hsum; simpl in Hsum; lia).
  rewrite bool_decide_true; [done|].
  assert (list_to_set (map suit cards) =@{gset Suit} {[s]}) as ->; [|apply size_singleton].
  apply set_eq. intros x. rewrite elem_of_list_to_set, elem_of_singleton, list_elem_of_In, in_map_iff.
  split.
  - intros (c & <- & Hc%list_elem_of_In). by apply Hsuit.
  - intros ->. destruct cards as [|c cards]; [done|]. exists c.
    split; [apply Hsuit; by left|by left].
Qed.

Lemma short_suited_hand_is_a_flush_witness :
  evaluate [card SEVEN CLUBS; card KING CLUBS]
  = Ok (mkHandEvaluation FLUSH
          (sorted_reverse (map (fun card => Rank_value (rank card))
                             [card SEVEN CLUBS; card KING CLUBS]))).
Proof.
  apply (short_suited_hand_is_a_flush _ CLUBS); [done|simpl; lia|].
  intros c Hc. repeat (apply elem_of_cons in Hc as [->|Hc]; [reflexivity|]).
  by apply elem_of_nil in Hc.
Defined.

(** ** What an action leaves alone *)

Lemma process_action_changes (g : TexasHoldem) (player : string) (a : PlayerAction)
    (r : result (option GameState.t)) (g' : TexasHoldem) :
  process_action player a g = (r, g') →
  g' = g
  ∨ g' = set_folded_players ({[player]} ∪ folded_players g) g
  ∨ ∃ c b amt cb,
      chips g !! player = Some c ∧ player_bets g !! player = Some b ∧
      current_bet g ≤ cb ∧
      g' = set_current_bet cb
             (set_pot (pot g + Z.min amt c)
                (set_player_bets (<[player := b + Z.min amt c]> (player_bets g))
                   (set_chips (<[player := c - Z.min amt c]> (chips g)) g))).
Proof.
  unfold process_action. run_M.
  destruct (bool_decide (player ∈ folded_players g) || bool_decide (player ∉ active_players g));
    [intros [= _ <-]; by left|].
  destruct (action a).
  - destruct (_get_game_state_run None
                (set_folded_players ({[player]} ∪ folded_players g) g)) as (view & -> & _).
    intros [= _ <-]. right; by left.
  - unfold getitem at 1. destruct (player_bets g !! player) as [b|] eqn:Hb;
      [|intros [= _ <-]; by left].
    cbn beta iota. destruct (chips g !! player) as [c|] eqn:Hc.
    + rewrite (_place_bet_ok g player _ c b) by done. cbn beta iota.
      match goal with |- context [_get_game_state None ?g1] =>
        destruct (_get_game_state_run None g1) as (view & -> & _) end.
      intros [= _ <-]. right; right. exists c, b, (current_bet g - b), (current_bet g).
      split_and!; [done|done|lia|done].
    + rewrite _place_bet_no_stack by done. intros [= _ <-]. by left.
  - unfold getitem at 1. destruct (player_bets g !! player) as [b|] eqn:Hb;
      [|intros [= _ <-]; by left].
    cbn beta iota. case_bool_decide.
    + destruct (chips g !! player) as [c|] eqn:Hc.
      * rewrite (_place_bet_ok g player _ c b) by done. cbn beta iota.
        match goal with |- context [_get_game_state None ?g1] =>
          destruct (_get_game_state_run None g1) as (view & -> & _) end.
        intros [= _ <-]. right; right. exists c, b, (amount a), (b + amount a).
        split_and!; [done|done|lia|done].
      * rewrite _place_bet_no_stack by done. intros [= _ <-]. by left.
    + destruct (_get_game_state_run None g) as (view & -> & _). intros [= _ <-]. by left.
  - unfold getitem at 1. destruct (player_bets g !! player) as [b|] eqn:Hb;
      [|intros [= _ <-]; by left].
    cbn beta iota. case_bool_decide; [intros [= _ <-]; by left|].
    destruct (_get_game_state_run None g) as (view & -> & _). intros [= _ <-]. by left.
Qed.

Lemma process_action_frame (g : TexasHoldem) (player : string) (a : PlayerAction) :
  players (process_action player a g).2 = players g ∧
  active_players (process_action player a g).2 = active_players g ∧
  hole_cards (process_action player a g).2 = hole_cards g ∧
  community_cards (process_action player a g).2 = community_cards g ∧
  deck (process_action player a g).2 = deck g ∧
  dealer_position (process_action player a g).2 = dealer_position g ∧
  folded_players g ⊆ folded_players (process_action player a g).2 ∧
  current_bet g ≤ current_bet (process_action player a g).2 ∧
  (∀ q c, chips g !! q = Some c → 0 ≤ c →
     ∃ c', chips (process_action player a g).2 !! q = Some c' ∧ 0 ≤ c').
Proof.
  destruct (process_action player a g) as [r g'] eqn:Hrun.
  destruct (process_action_changes g player a r g' Hrun)
    as [->|[->|(c & b & amt & cb & Hc & Hb & Hcb & ->)]]; simpl.
  - split_and!; try done. eauto.
  - split_and!; try done; [set_solver|eauto].
  - split_and!; try done. intros q cq Hq Hnn. destruct (decide (q = player)) as [->|Hne].
    + rewrite lookup_insert_eq. eexists. split; [done|lia].
    + rewrite lookup_insert_ne by done. eauto.
Qed.

(** X6.  Whatever the action and whether it is accepted, rejected or
    raises, [process_action] leaves the roster, the cards and the button
    where they were; the folded set only grows; the bet to match never
    goes down; and a stack that was zero or more stays zero or more. *)
Theorem process_action_keeps (g : TexasHoldem) (player : string) (a : PlayerAction) :
  players (process_action player a g).2 = players g ∧
  active_players (process_action player a g).2 = active_players g ∧
  hole_cards (process_action player a g).2 = hole_cards g ∧
  community_cards (process_action player a g).2 = community_cards g ∧
  deck (process_action player a g).2 = deck g ∧
  dealer_position (process_action player a g).2 = dealer_position g ∧
  folded_players g ⊆ folded_players (process_action player a g).2 ∧
  current_bet g ≤ current_bet (process_action player a g).2 ∧
  (∀ q c, chips g !! q = Some c → 0 ≤ c →
     ∃ c', chips (process_action player a g).2 !! q = Some c' ∧ 0 ≤ c').
Proof. apply process_action_frame. Qed.

(** ** Tables reached by playing on *)

Lemma set_chips_same (g : TexasHoldem) : g = set_chips (chips g) g.
Proof. by destruct g. Qed.

Lemma pay_winners_only_chips (winners : list string) (w : Z) (results : list (string * Z))
    (g : TexasHoldem) :
  (pay_winners winners w results g).2 = set_chips (chips (pay_winners winners w results g).2) g.
Proof.
  revert results g; induction winners as [|p ws IH]; intros results g; cbn [pay_winners].
  - apply set_chips_same.
  - run_M. unfold getitem. destruct (chips g !! p) as [c|]; [|apply set_chips_same].
    cbn beta iota. rewrite IH at 1. done.
Qed.

Lemma _determine_winner_only_chips (g : TexasHoldem) :
  (_determine_winner g).2 = set_chips (chips (_determine_winner g).2) g.
Proof.
  unfold _determine_winner. run_M. case_bool_decide.
  - destruct (item0 (not_folded g)) as [winner|]; [|apply set_chips_same]. cbn beta iota.
    unfold getitem. destruct (chips g !! winner); [|apply set_chips_same]. done.
  - destruct (collect_hands g (not_folded g)) as [ph|]; [|apply set_chips_same].
    cbn beta iota.
    destruct (max_hand (PyDict.values ph)) as [best|]; [|apply set_chips_same].
    cbn beta iota.
    destruct (winners_of ph best) as [ws|]; [|apply set_chips_same]. cbn beta iota.
    case_bool_decide; [apply set_chips_same|]. apply pay_winners_only_chips.
Qed.

Lemma deal_only_deck (g : TexasHoldem) : (deal g).2 = set_deck (deck (deal g).2) g.
Proof.
  unfold deal. destruct (deck g) as [cards|] eqn:E; [|by destruct g].
  destruct (last cards); [done|]. by destruct g.
Qed.

(** What [advance_betting_round] can change: the street bets and the bet to
    match (reset), the deck and the community cards (dealing), and the
    stacks (showdown). *)
Lemma advance_changes (g : TexasHoldem) (r : result Advanced) (g' : TexasHoldem) :
  advance_betting_round g = (r, g') →
  g' = set_chips (chips g')
         (set_community_cards (community_cards g')
            (set_deck (deck g')
               (set_current_bet 0
                  (set_player_bets
                     (list_to_map ((fun player => (player, 0)) <$> players g)) g)))).
Proof.
  unfold advance_betting_round. run_M. set (g1 := set_current_bet 0 _).
  assert (∀ (tag : string) (g2 : TexasHoldem) (r2 : result Advanced) (g3 : TexasHoldem),
            match _get_game_state (Some tag) g2 with
            | (Ok v, g4) => (Ok (NextStreet v), g4)
            | (Raise e, g4) => (Raise e, g4)
            end = (r2, g3) → g3 = g2) as Hview.
  { intros tag g2 r2 g3. destruct (_get_game_state_run (Some tag) g2) as (v & -> & _).
    by intros [= _ <-]. }
  assert (∀ g2 : TexasHoldem, g2 = set_deck (deck g2) g1 →
            g2 = set_chips (chips g2)
                   (set_community_cards (community_cards g2) (set_deck (deck g2) g1)))
    as Hdeck.
  { intros g2 ->. done. }
  assert (∀ (g2 : TexasHoldem) cc, g2 = set_deck (deck g2) g1 →
            set_community_cards cc g2
            = set_chips (chips (set_community_cards cc g2))
                (set_community_cards (community_cards (set_community_cards cc g2))
                   (set_deck (deck (set_community_cards cc g2)) g1))) as Hcc.
  { intros g2 cc ->. done. }
  pose proof (deal_only_deck g1) as Hd1.
  case_bool_decide.
  - destruct (deal g1) as [[c1|e] g2]; simpl in Hd1; [|intros [= _ <-]; by apply Hdeck].
    pose proof (deal_only_deck g2) as Hd2.
    destruct (deal g2) as [[c2|e] g3]; simpl in Hd2.
    2:{ intros [= _ <-]. apply Hdeck. rewrite Hd2, Hd1. done. }
    pose proof (deal_only_deck g3) as Hd3.
    destruct (deal g3) as [[c3|e] g4]; simpl in Hd3.
    2:{ intros [= _ <-]. apply Hdeck. rewrite Hd3, Hd2, Hd1. done. }
    intros ->%Hview. apply Hcc. rewrite Hd3, Hd2, Hd1. done.
  - case_bool_decide.
    + destruct (deal g1) as [[c|e] g2]; simpl in Hd1; [|intros [= _ <-]; by apply Hdeck].
      intros ->%Hview. by apply Hcc.
    + case_bool_decide.
      * destruct (deal g1) as [[c|e] g2]; simpl in Hd1; [|intros [= _ <-]; by apply Hdeck].
        intros ->%Hview. by apply Hcc.
      * pose proof (_determine_winner_only_chips g1) as Hw.
        destruct (_determine_winner g1) as [[results|e] g2]; simpl in Hw;
          intros [= _ <-]; rewrite Hw; done.
Qed.

Lemma advance_keeps_folded (g : TexasHoldem) :
  folded_players (advance_betting_round g).2 = folded_players g
  ∧ active_players (advance_betting_round g).2 = active_players g.
Proof.
  destruct (advance_betting_round g) as [r g'] eqn:Hrun.
  apply advance_changes in Hrun. simpl. by rewrite Hrun.
Qed.

Lemma plays_keeps_folded (g g' : TexasHoldem) (player : string) :
  plays g g' → player ∈ folded_players g → player ∈ folded_players g'.
Proof.
  induction 1 as [|g' p a _ IH|g' _ IH]; intros Hf; [done| |].
  - destruct (process_action p a g') as [r g''] eqn:Hrun.
    destruct (process_action_changes g' p a r g'' Hrun)
      as [->|[->|(c & b & amt & cb & _ & _ & _ & ->)]]; simpl; [auto|set_solver|auto].
  - destruct (advance_keeps_folded g') as [-> _]. auto.
Qed.

(** X7.  A fold is final for the hand: once a player is in the folded set,
    they stay in it through every later action and street, and every
    action they attempt, a call, a raise or another fold included, is
    rejected and leaves the table as it was. *)
Theorem folded_player_never_acts_again (g g' : TexasHoldem) (player : string)
    (a : PlayerAction) :
  plays g g' → player ∈ folded_players g →
  player ∈ folded_players g' ∧ process_action player a g' = (Ok None, g').
Proof.
  intros Hplays Hf. pose proof (plays_keeps_folded g g' player Hplays Hf) as Hf'.
  split; [done|]. apply process_action_reject. by left.
Qed.

Lemma folded_player_never_acts_again_witness :
  "B" ∈ folded_players
          (process_action "A" (mkPlayerAction RAISE 30)
             (advance_betting_round heads_up_folded).2).2
  ∧ process_action "B" (mkPlayerAction CALL 0)
      (process_action "A" (mkPlayerAction RAISE 30)
         (advance_betting_round heads_up_folded).2).2
    = (Ok None,
       (process_action "A" (mkPlayerAction RAISE 30)
          (advance_betting_round heads_up_folded).2).2).
Proof.
  apply (folded_player_never_acts_again heads_up_folded).
  - apply plays_action, plays_street, plays_nothing.
  - by_compute.
Defined.

(** ** Calling *)

Lemma process_action_call_view (g : TexasHoldem) (player : string) (c b : Z) :
  player ∉ folded_players g → player ∈ active_players g →
  chips g !! player = Some c → player_bets g !! player = Some b →
  ∃ view g',
    g' = set_pot (pot g + Z.min (current_bet g - b) c)
           (set_player_bets (<[player := b + Z.min (current_bet g - b) c]> (player_bets g))
              (set_chips (<[player := c - Z.min (current_bet g - b) c]> (chips g)) g)) ∧
    _get_game_state None g' = (Ok view, g') ∧
    process_action player (mkPlayerAction CALL 0) g = (Ok (Some view), g').
Proof.
  intros Hf Ha Hc Hb. unfold process_action. run_M.
  rewrite eligible_not_rejected by done. cbn beta iota delta [action amount].
  unfold getitem at 1. rewrite Hb. cbn beta iota.
  rewrite (_place_bet_ok g player _ c b) by done. cbn beta iota.
  match goal with |- context [_get_game_state None ?g1] =>
    destruct (_get_game_state_run None g1) as (view & Hview & _); exists view, g1 end.
  split; [done|]. split; [done|]. change (mbind ?f ?m) with (M_bind _ _ f m) in *.
  by rewrite Hview.
Qed.

(** X8.  A call by an eligible player is always accepted and settles the
    player for the street: afterwards the player's street contribution
    equals the bet to match, or the player's stack is empty.  The bet to
    match is not changed, and calling again changes nothing at all: the
    second call returns the same view and leaves the same table. *)
Theorem call_settles_the_player (g : TexasHoldem) (player : string) (c b : Z) :
  player ∉ folded_players g → player ∈ active_players g →
  chips g !! player = Some c → player_bets g !! player = Some b →
  ∃ view g',
    process_action player (mkPlayerAction CALL 0) g = (Ok (Some view), g') ∧
    (player_bets g' !! player = Some (current_bet g') ∨ chips g' !! player = Some 0) ∧
    current_bet g' = current_bet g ∧
    process_action player (mkPlayerAction CALL 0) g' = (Ok (Some view), g').
Proof.
  intros Hf Ha Hc Hb.
  destruct (process_action_call_view g player c b) as (view & g' & Hg' & Hview & Hrun);
    try done.
  exists view, g'. split; [done|].
  assert (chips g' !! player = Some (c - Z.min (current_bet g - b) c)) as Hc'.
  { rewrite Hg'. simpl. by rewrite lookup_insert_eq. }
  assert (player_bets g' !! player = Some (b + Z.min (current_bet g - b) c)) as Hb'.
  { rewrite Hg'. simpl. by rewrite lookup_insert_eq. }
  assert (current_bet g' = current_bet g) as Hcb by (by rewrite Hg').
  split_and!; [|done|].
  - rewrite Hb', Hc', Hcb. destruct (decide (current_bet g - b ≤ c)).
    + left. f_equal. lia.
    + right. f_equal. lia.
  - destruct (process_action_call_view g' player
                (c - Z.min (current_bet g - b) c) (b + Z.min (current_bet g - b) c))
      as (view2 & g'' & Hg'' & Hview2 & Hrun2);
      [by rewrite Hg'|by rewrite Hg'|exact Hc'|exact Hb'|].
    assert (g'' = g') as Heq.
    { rewrite Hg'', Hcb.
      replace (Z.min (current_bet g - (b + Z.min (current_bet g - b) c))
                 (c - Z.min (current_bet g - b) c)) with 0 by lia.
      rewrite Z.add_0_r, Z.sub_0_r, Z.add_0_r.
      rewrite !insert_id by done. by destruct g'. }
    rewrite Heq in Hview2, Hrun2. rewrite Hrun2. congruence.
Qed.

Lemma call_settles_the_player_witness :
  ∃ view g',
    process_action "B" (mkPlayerAction CALL 0) short_stack = (Ok (Some view), g') ∧
    (player_bets g' !! "B" = Some (current_bet g') ∨ chips g' !! "B" = Some 0) ∧
    current_bet g' = current_bet short_stack ∧
    process_action "B" (mkPlayerAction CALL 0) g' = (Ok (Some view), g').
Proof.
  apply (call_settles_the_player short_stack "B" 7 0).
  - by_compute.
  - by_compute.
  - by vm_compute.
  - by vm_compute.
Defined.

(** ** Where the cards are *)

Lemma submseteq_NoDup_l {A} (l k : list A) : l ⊆+ k → NoDup k → NoDup l.
Proof.
  intros [k' Hk]%submseteq_Permutation Hnd. rewrite Hk in Hnd.
  by apply NoDup_app in Hnd as [? _].
Qed.

Lemma deal_result (g : TexasHoldem) (r : result Card) (g' : TexasHoldem) :
  deal g = (r, g') →
  (∃ cards c, deck g = Some (cards ++ [c]) ∧ r = Ok c ∧ g' = set_deck (Some cards) g)
  ∨ ((∃ e, r = Raise e) ∧ g' = g).
Proof.
  unfold deal. destruct (deck g) as [cards|] eqn:Hd; [|intros [= <- <-]; right; eauto].
  destruct (last cards) as [c|] eqn:Hl; [|intros [= <- <-]; right; eauto].
  intros [= <- <-]. left. apply last_Some in Hl as [cards' ->].
  exists cards', c. by rewrite removelast_last.
Qed.

Lemma deal_cards (g : TexasHoldem) (r : result Card) (g' : TexasHoldem) :
  deal g = (r, g') →
  hole_cards g' = hole_cards g ∧ community_cards g' = community_cards g ∧
  match r with
  | Ok c => cards_left g = cards_left g' ++ [c]
  | Raise _ => cards_left g' = cards_left g
  end.
Proof.
  intros [(cards & c & Hd & -> & ->)|[[e ->] ->]]%deal_result; [|done].
  unfold cards_left. rewrite Hd. done.
Qed.

Lemma two_from_the_top {A} (hole out left : list A) (c1 c2 : A) :
  ([c1; c2] ++ hole) ++ out ++ left ≡ₚ (hole ++ out) ++ (left ++ [c2]) ++ [c1].
Proof.
  rewrite (Permutation_app_comm (left ++ [c2]) [c1]).
  rewrite (Permutation_app_comm left [c2]). simpl.
  do 2 rewrite <- Permutation_middle. by rewrite <- app_assoc.
Qed.

Lemma deal_to_cards (player : string) (g : TexasHoldem) :
  hole_cards g !! player = None →
  cards_out (deal_to player g).2 ++ cards_left (deal_to player g).2
    ⊆+ cards_out g ++ cards_left g
  ∧ ((deal_to player g).1 = Ok tt →
     cards_out (deal_to player g).2 ++ cards_left (deal_to player g).2
       ≡ₚ cards_out g ++ cards_left g)
  ∧ community_cards (deal_to player g).2 = community_cards g
  ∧ (∀ q, q ≠ player → hole_cards (deal_to player g).2 !! q = hole_cards g !! q).
Proof.
  intros Hfresh. unfold deal_to. run_M.
  destruct (deal g) as [[c1|e] g1] eqn:Hd1; apply deal_cards in Hd1 as (Hh1 & Hc1 & Hl1).
  2:{ simpl. unfold cards_out. rewrite Hh1, Hc1, Hl1. split_and!; done. }
  destruct (deal g1) as [[c2|e] g2] eqn:Hd2; apply deal_cards in Hd2 as (Hh2 & Hc2 & Hl2).
  2:{ simpl. unfold cards_out. rewrite Hh2, Hc2, Hl2, Hh1, Hc1, Hl1. split_and!; try done.
      apply submseteq_skips_l, submseteq_inserts_r. done. }
  simpl.
  assert (cards_out (set_hole_cards (<[player := [c1; c2]]> (hole_cards g2)) g2)
            ++ cards_left (set_hole_cards (<[player := [c1; c2]]> (hole_cards g2)) g2)
          ≡ₚ cards_out g ++ cards_left g) as Hperm.
  { unfold cards_out. simpl. rewrite map_to_list_insert by (by rewrite Hh2, Hh1).
    rewrite fmap_cons. cbn [concat snd]. rewrite Hl1, Hl2, Hh2, Hh1, Hc2, Hc1.
    change (cards_left (set_hole_cards _ g2)) with (cards_left g2).
    rewrite <- (app_assoc _ (community_cards g)). apply two_from_the_top. }
  split_and!; [by apply Permutation_submseteq|done|by rewrite Hc2, Hc1|].
  intros q Hq. rewrite lookup_insert_ne by done. by rewrite Hh2, Hh1.
Qed.

Lemma for_each_deal_to_cards (ps : list string) (g : TexasHoldem) :
  NoDup ps → (∀ p, p ∈ ps → hole_cards g !! p = None) →
  cards_out (for_each ps deal_to g).2 ++ cards_left (for_each ps deal_to g).2
    ⊆+ cards_out g ++ cards_left g
  ∧ ((for_each ps deal_to g).1 = Ok tt →
     cards_out (for_each ps deal_to g).2 ++ cards_left (for_each ps deal_to g).2
       ≡ₚ cards_out g ++ cards_left g).
Proof.
  revert g; induction ps as [|p ps IH]; intros g Hnd Hfresh; cbn [for_each].
  - split; done.
  - apply NoDup_cons in Hnd as [Hp Hnd].
    destruct (deal_to_cards p g) as (Hsub & Hperm & _ & Hother); [apply Hfresh; by left|].
    run_M. destruct (deal_to p g) as [[[]|e] g1]; simpl in *; [|done].
    destruct (IH g1 Hnd) as [Hsub' Hperm'].
    { intros q Hq. rewrite Hother by (intros ->; done). apply Hfresh. by right. }
    split.
    + etransitivity; [exact Hsub'|exact Hsub].
    + intros Hok. rewrite Hperm' by done. by apply Hperm.
Qed.

Lemma with_chips_sublist (chips : gmap string Z) (ps active : list string) :
  with_chips chips ps = Ok active → active `sublist_of` ps.
Proof.
  revert active; induction ps as [|p ps IH]; intros active; simpl.
  - by intros [= <-].
  - destruct (getitem chips p) as [c|]; [|done]. simpl.
    destruct (with_chips chips ps) as [rest|]; [|done]. simpl. intros [= <-].
    case_bool_decide; [apply sublist_skip|apply sublist_cons]; by apply IH.
Qed.

Lemma three_from_the_top {A} (left : list A) (c1 c2 c3 : A) :
  [c1; c2; c3] ++ left ≡ₚ ((left ++ [c3]) ++ [c2]) ++ [c1].
Proof.
  rewrite (Permutation_app_comm _ [c1]). simpl. apply perm_skip.
  rewrite (Permutation_app_comm _ [c2]). simpl. apply perm_skip.
  by rewrite (Permutation_app_comm _ [c3]).
Qed.

Lemma advance_cards (g : TexasHoldem) :
  hole_cards (advance_betting_round g).2 = hole_cards g ∧
  community_cards (advance_betting_round g).2 ++ cards_left (advance_betting_round g).2
    ⊆+ community_cards g ++ cards_left g.
Proof.
  unfold advance_betting_round. run_M. set (g1 := set_current_bet 0 _).
  change (hole_cards g) with (hole_cards g1).
  change (community_cards g) with (community_cards g1).
  change (cards_left g) with (cards_left g1).
  assert (∀ (tag : string) (g2 : TexasHoldem),
            (match _get_game_state (Some tag) g2 with
             | (Ok v, g4) => (Ok (NextStreet v), g4)
             | (Raise e, g4) => (Raise e, g4)
             end).2 = g2) as Hview.
  { intros tag g2. by destruct (_get_game_state_run (Some tag) g2) as (v & -> & _). }
  case_bool_decide as Hcc.
  - destruct (deal g1) as [[c1|e] g2] eqn:Hd1; apply deal_cards in Hd1 as (Hh1 & Hc1 & Hl1);
      cbn beta iota; [|cbn [snd]; by rewrite Hh1, Hc1, Hl1].
    destruct (deal g2) as [[c2|e] g3] eqn:Hd2; apply deal_cards in Hd2 as (Hh2 & Hc2 & Hl2);
      cbn beta iota.
    2:{ cbn [snd]. rewrite Hh2, Hh1, Hc2, Hc1, Hl2, Hl1. split; [done|].
        apply submseteq_skips_l, submseteq_inserts_r. done. }
    destruct (deal g3) as [[c3|e] g4] eqn:Hd3; apply deal_cards in Hd3 as (Hh3 & Hc3 & Hl3);
      cbn beta iota.
    2:{ cbn [snd]. rewrite Hh3, Hh2, Hh1, Hc3, Hc2, Hc1, Hl3, Hl1, Hl2. split; [done|].
        apply submseteq_skips_l. rewrite <- app_assoc. apply submseteq_inserts_r. done. }
    rewrite Hview. simpl. rewrite Hh3, Hh2, Hh1. split; [done|].
    change (cards_left (set_community_cards _ g4)) with (cards_left g4).
    replace (community_cards g) with ([] : list Card) by (symmetry; exact Hcc).
    rewrite Hl1, Hl2, Hl3. simpl.
    apply Permutation_submseteq. apply (three_from_the_top _ c1 c2 c3).
  - assert (∀ tag : string,
              hole_cards
                (match deal g1 with
                 | (Ok c, g2) =>
                     match _get_game_state (Some tag)
                             (set_community_cards (community_cards g2 ++ [c]) g2) with
                     | (Ok v, g4) => (Ok (NextStreet v), g4)
                     | (Raise e, g4) => (Raise e, g4)
                     end
                 | (Raise e, g2) => (Raise e, g2)
                 end).2 = hole_cards g1
              ∧ community_cards
                  (match deal g1 with
                   | (Ok c, g2) =>
                       match _get_game_state (Some tag)
                               (set_community_cards (community_cards g2 ++ [c]) g2) with
                       | (Ok v, g4) => (Ok (NextStreet v), g4)
                       | (Raise e, g4) => (Raise e, g4)
                       end
                   | (Raise e, g2) => (Raise e, g2)
                   end).2
                ++ cards_left
                  (match deal g1 with
                   | (Ok c, g2) =>
                       match _get_game_state (Some tag)
                               (set_community_cards (community_cards g2 ++ [c]) g2) with
                       | (Ok v, g4) => (Ok (NextStreet v), g4)
                       | (Raise e, g4) => (Raise e, g4)
                       end
                   | (Raise e, g2) => (Raise e, g2)
                   end).2
                ⊆+ community_cards g1 ++ cards_left g1) as Hone.
    { intros tag.
      destruct (deal g1) as [[c|e] g2] eqn:Hd1; apply deal_cards in Hd1 as (Hh1 & Hc1 & Hl1);
        cbn beta iota; [|cbn [snd]; by rewrite Hh1, Hc1, Hl1].
      rewrite Hview. simpl. split; [done|].
      change (cards_left (set_community_cards _ g2)) with (cards_left g2).
      rewrite Hl1, Hc1. apply Permutation_submseteq. rewrite <- app_assoc.
      apply Permutation_app_head, Permutation_app_comm. }
    case_bool_decide; [apply Hone|]. case_bool_decide; [apply Hone|].
    pose proof (_determine_winner_only_chips g1) as Hw.
    destruct (_determine_winner g1) as [[results|e] g2]; simpl in *; by rewrite Hw.
Qed.

(** A successful [start_hand], part by part. *)
Lemma start_hand_parts (shuffled : list Card) (g : TexasHoldem) :
  (∀ p, p ∈ players g → is_Some (chips g !! p)) →
  (2 * length (players g) ≤ length shuffled)%nat →
  ∃ active g2 g3 view,
    with_chips (chips g) (players g) = Ok active ∧
    for_each active deal_to
      (mkTexasHoldem (players g) (starting_chips g) (small_blind g) (big_blind g)
         (chips g) (Some shuffled) [] ∅ 0 0
         (list_to_map ((fun player => (player, 0)) <$> players g))
         active ∅ (dealer_position g)) = (Ok tt, g2) ∧
    g2 = set_hole_cards (hole_cards g2)
           (set_deck (deck g2)
              (mkTexasHoldem (players g) (starting_chips g) (small_blind g) (big_blind g)
                 (chips g) (Some shuffled) [] ∅ 0 0
                 (list_to_map ((fun player => (player, 0)) <$> players g))
                 active ∅ (dealer_position g))) ∧
    post_blinds g2 = (Ok tt, g3) ∧
    g3 = set_current_bet (current_bet g3)
           (set_pot (pot g3) (set_player_bets (player_bets g3) (set_chips (chips g3) g2))) ∧
    start_hand shuffled g = (Ok view, g3).
Proof.
  intros Hall Hdeck.
  destruct (with_chips_run (chips g) (players g) Hall) as (active & Hactive & Hlen & Hin).
  exists active.
  unfold start_hand. run_M. rewrite (reset_table_run _ _ _ Hactive). cbn beta iota.
  set (g1 := mkTexasHoldem _ _ _ _ _ _ _ _ _ _ _ _ _ _).
  unfold deal_hole_cards. run_M.
  destruct (for_each_deal_to_run (active_players g1) g1 shuffled) as (g2 & Hrun2 & Hh2);
    [done|simpl; lia|].
  change (active_players g1) with active in *.
  rewrite Hrun2. cbn beta iota.
  pose proof (for_each_deal_to_dealt_from active g1) as Hfr.
  rewrite Hrun2 in Hfr. simpl in Hfr. unfold dealt_from in Hfr.
  destruct (post_blinds_run g2) as (g3 & Hrun3 & Hfr3 & _).
  { intros p Hp. rewrite Hfr in Hp. simpl in Hp. destruct (Hin p Hp) as [Hpin (c & Hc & _)].
    rewrite Hfr. simpl. rewrite Hc, lookup_zero_bets by done. eauto. }
  rewrite Hrun3. cbn beta iota.
  destruct (_get_game_state_run (Some "preflop") g3) as (view & -> & _).
  exists g2, g3, view. done.
Qed.

(** X9.  No card is in two places.  When a hand has started on a table of
    distinct players, the hole cards, the community cards and the cards
    left in the deck are together a rearrangement of the shuffled deck; and
    whatever actions and streets follow, successful or not, they stay cards
    of that deck, each at most as often as it was in it.  With a deck of
    distinct cards, all the cards held and left are distinct. *)
Theorem no_card_is_dealt_twice (shuffled : list Card) (g0 g : TexasHoldem) :
  (∀ p, p ∈ players g0 → is_Some (chips g0 !! p)) →
  (2 * length (players g0) ≤ length shuffled)%nat →
  NoDup (players g0) →
  plays (start_hand shuffled g0).2 g →
  cards_out (start_hand shuffled g0).2 ++ cards_left (start_hand shuffled g0).2 ≡ₚ shuffled ∧
  cards_out g ++ cards_left g ⊆+ shuffled ∧
  (NoDup shuffled → NoDup (cards_out g ++ cards_left g)).
Proof.
  intros Hall Hdeck Hnd Hplays.
  assert (cards_out (start_hand shuffled g0).2 ++ cards_left (start_hand shuffled g0).2
          ≡ₚ shuffled) as Hstart.
  { destruct (start_hand_parts shuffled g0 Hall Hdeck)
      as (active & g2 & g3 & view & Hactive & Hrun2 & Hfr2 & _ & Hfr3 & ->).
    cbn [snd].
    assert (cards_out g3 = cards_out g2 ∧ cards_left g3 = cards_left g2) as [-> ->].
    { rewrite Hfr3. done. }
    set (g1 := mkTexasHoldem _ _ _ _ _ _ _ _ _ _ _ _ _ _) in *.
    destruct (for_each_deal_to_cards active g1) as [_ Hperm].
    { eapply sublist_NoDup; [exact Hnd|]. by eapply with_chips_sublist. }
    { intros p _. apply lookup_empty. }
    rewrite Hrun2 in Hperm. simpl in Hperm. rewrite Hperm by done.
    unfold cards_out, cards_left. simpl. rewrite map_to_list_empty. done. }
  assert (cards_out g ++ cards_left g ⊆+ shuffled) as Hsub.
  { rewrite <- Hstart. clear Hstart.
    induction Hplays as [|g' p a _ IH|g' _ IH]; [done| |].
    - destruct (process_action_frame g' p a) as (_ & _ & Hh & Hc & Hd & _).
      unfold cards_out, cards_left. rewrite Hh, Hc, Hd. exact IH.
    - destruct (advance_cards g') as [Hh Hsub]. etransitivity; [|exact IH].
      unfold cards_out. rewrite Hh, <- !app_assoc. by apply submseteq_skips_l. }
  split_and!; [done..|]. intros Hnd'. by eapply submseteq_NoDup_l.
Qed.

Lemma no_card_is_dealt_twice_witness :
  cards_out (start_hand tie_deck three_way).2 ++ cards_left (start_hand tie_deck three_way).2
    ≡ₚ tie_deck ∧
  cards_out three_way_river ++ cards_left three_way_river ⊆+ tie_deck ∧
  (NoDup tie_deck → NoDup (cards_out three_way_river ++ cards_left three_way_river)).
Proof.
  apply (no_card_is_dealt_twice tie_deck three_way three_way_river).
  - intros p Hp. simpl in Hp.
    repeat (apply elem_of_cons in Hp as [->|Hp]; [vm_compute; eauto|]).
    by apply elem_of_nil in Hp.
  - vm_compute. lia.
  - by_compute.
  - change three_way_river with (three_way_play three_way).
    unfold three_way_play, after.
    do 3 apply plays_street. do 3 apply plays_action. apply plays_nothing.
Defined.

(** ** The blinds *)

Lemma next_seat_differs (d n : Z) : 2 ≤ n → (d + 1) `mod` n ≠ (d + 2) `mod` n.
Proof.
  intros Hn Heq. replace (d + 2) with ((d + 1) + 1) in Heq by lia.
  rewrite <- (Zplus_mod_idemp_l (d + 1)) in Heq.
  pose proof (Z.mod_pos_bound (d + 1) n ltac:(lia)) as Hb.
  set (x := (d + 1) `mod` n) in *.
  destruct (decide (x + 1 < n)).
  - rewrite (Z.mod_small (x + 1)) in Heq by lia. lia.
  - replace (x + 1) with n in Heq by lia. rewrite Z.mod_same in Heq by lia. lia.
Qed.

(** ** Who is dealt in, and which cards *)

Lemma with_chips_elem (chips : gmap string Z) (ps active : list string) :
  with_chips chips ps = Ok active →
  ∀ p, p ∈ active ↔ p ∈ ps ∧ ∃ c, chips !! p = Some c ∧ 0 < c.
Proof.
  revert active; induction ps as [|q ps IH]; intros active; simpl.
  - intros [= <-] p. rewrite !elem_of_nil. tauto.
  - unfold getitem. destruct (chips !! q) as [c|] eqn:Hc; [|done]. simpl.
    destruct (with_chips chips ps) as [rest|]; [|done]. simpl. intros [= <-] p.
    specialize (IH rest eq_refl p). case_bool_decide.
    + rewrite !elem_of_cons, IH. split.
      * intros [->|[? ?]]; [split; [by left|exists c; split; [done|lia]]|tauto].
      * intros [[->|?] ?]; tauto.
    + rewrite elem_of_cons, IH. split; [tauto|].
      intros [[->|?] (c' & Hc' & ?)]; [|eauto]. rewrite Hc in Hc'. injection Hc' as <-. lia.
Qed.

Lemma for_each_deal_to_hands (ps : list string) (g : TexasHoldem) (cards : list Card) :
  deck g = Some cards → NoDup ps → (2 * length ps ≤ length cards)%nat →
  ∃ g', for_each ps deal_to g = (Ok tt, g') ∧
    deck g' = Some (take (length cards - 2 * length ps) cards) ∧
    (∀ q, q ∉ ps → hole_cards g' !! q = hole_cards g !! q) ∧
    (∀ i p, ps !! i = Some p →
       ∃ c1 c2, reverse cards !! (2 * i)%nat = Some c1 ∧
                reverse cards !! (2 * i + 1)%nat = Some c2 ∧
                hole_cards g' !! p = Some [c1; c2]).
Proof.
  revert g cards; induction ps as [|p ps IH]; intros g cards Hd Hnd Hlen; cbn [for_each].
  - exists g. split_and!; try done.
    rewrite Hd. simpl. by rewrite Nat.sub_0_r, firstn_all.
  - cbn [length] in Hlen. apply NoDup_cons in Hnd as [Hp Hnd].
    destruct (snoc_two cards) as (cards' & c2 & c1 & ->); [lia|].
    assert (∃ g1, deal_to p g = (Ok tt, g1) ∧ deck g1 = Some cards'
                  ∧ hole_cards g1 = <[p := [c1; c2]]> (hole_cards g)) as (g1 & Hrun1 & Hd1 & Hh1).
    { unfold deal_to. run_M. rewrite (deal_run g _ c1 Hd). cbn beta iota.
      rewrite (deal_run _ cards' c2) by done. cbn beta iota. eexists. split; [done|]. done. }
    run_M. rewrite Hrun1. cbn beta iota.
    rewrite !length_app in Hlen. simpl in Hlen.
    destruct (IH g1 cards' Hd1 Hnd) as (g' & Hrun & Hdk & Hother & Hhands); [lia|].
    rewrite Hrun. exists g'. split; [done|]. split_and!.
    + rewrite Hdk. f_equal. rewrite !length_app. cbn [length].
      replace (length cards' + 1 + 1 - 2 * S (length ps))%nat
        with (length cards' - 2 * length ps)%nat by lia.
      rewrite <- app_assoc. rewrite take_app_le by lia. done.
    + intros q Hq. apply not_elem_of_cons in Hq as [Hne Hq].
      rewrite Hother by done. rewrite Hh1. by rewrite lookup_insert_ne.
    + intros i q Hi. rewrite !reverse_app. simpl. destruct i as [|i].
      * injection Hi as <-. exists c1, c2. split_and!; try done.
        rewrite Hother by done. rewrite Hh1. by rewrite lookup_insert_eq.
      * simpl in Hi. destruct (Hhands i q Hi) as (d1 & d2 & H1 & H2 & Hh).
        exists d1, d2. split_and!; try done.
        -- replace (S i + (S i + 0))%nat with (S (S (2 * i))) by lia. done.
        -- replace (S i + (S i + 0) + 1)%nat with (S (S (2 * i + 1))) by lia. done.
Qed.

(** X10.  A new hand deals in exactly the players of the roster that hold
    chips, in roster order; the others get no cards.  Cards come off the end
    of the shuffled deck two at a time: the player [i] places into that list
    holds the cards [2 i] and [2 i + 1] places from the end, both dealt before
    the next player gets any.  Nobody is folded yet and the board is empty. *)
Theorem hole_cards_come_off_the_end_of_the_deck (shuffled : list Card) (g : TexasHoldem) :
  (∀ p, p ∈ players g → is_Some (chips g !! p)) →
  (2 * length (players g) ≤ length shuffled)%nat →
  NoDup (players g) →
  ∃ view g',
    start_hand shuffled g = (Ok view, g') ∧
    active_players g' `sublist_of` players g ∧
    (∀ p, p ∈ active_players g' ↔ p ∈ players g ∧ ∃ c, chips g !! p = Some c ∧ 0 < c) ∧
    (∀ q, q ∉ active_players g' → hole_cards g' !! q = None) ∧
    (∀ i p, active_players g' !! i = Some p →
       ∃ c1 c2, reverse shuffled !! (2 * i)%nat = Some c1 ∧
                reverse shuffled !! (2 * i + 1)%nat = Some c2 ∧
                hole_cards g' !! p = Some [c1; c2]) ∧
    deck g' = Some (take (length shuffled - 2 * length (active_players g')) shuffled) ∧
    folded_players g' = ∅ ∧ community_cards g' = [] ∧
    GameState.active_players view = active_players g'.
Proof.
  intros Hall Hdeck Hnd.
  destruct (start_hand_parts shuffled g Hall Hdeck)
    as (active & g2 & g3 & view & Hactive & Hrun2 & Hg2 & Hpost & Hg3 & Hstart).
  pose proof (with_chips_sublist _ _ _ Hactive) as Hsub.
  set (g1 := mkTexasHoldem _ _ _ _ _ _ _ _ _ _ _ _ _ _) in *.
  destruct (for_each_deal_to_hands active g1 shuffled) as (g2' & Hrun2' & Hdk & Hother & Hhands).
  { done. }
  { eapply sublist_NoDup; done. }
  { apply sublist_length in Hsub. lia. }
  rewrite Hrun2 in Hrun2'. injection Hrun2' as <-.
  assert (hole_cards g3 = hole_cards g2 ∧ deck g3 = deck g2 ∧ active_players g3 = active
          ∧ folded_players g3 = ∅ ∧ community_cards g3 = []) as (Hh & Hd & Ha & Hf & Hc).
  { rewrite Hg3. cbn. rewrite Hg2. cbn. done. }
  exists view, g3. rewrite Hh, Hd, Ha, Hf, Hc. split_and!; try done.
  - by apply with_chips_elem.
  - destruct (start_hand_run shuffled g Hall Hdeck) as (view' & g' & Hrun' & _ & _ & Hv & _).
    rewrite Hstart in Hrun'. injection Hrun' as <- <-. by rewrite Hv.
Qed.

Lemma hole_cards_come_off_the_end_of_the_deck_witness :
  ∃ view g',
    start_hand tie_deck three_way = (Ok view, g') ∧
    active_players g' `sublist_of` players three_way ∧
    (∀ p, p ∈ active_players g' ↔
          p ∈ players three_way ∧ ∃ c, chips three_way !! p = Some c ∧ 0 < c) ∧
    (∀ q, q ∉ active_players g' → hole_cards g' !! q = None) ∧
    (∀ i p, active_players g' !! i = Some p →
       ∃ c1 c2, reverse tie_deck !! (2 * i)%nat = Some c1 ∧
                reverse tie_deck !! (2 * i + 1)%nat = Some c2 ∧
                hole_cards g' !! p = Some [c1; c2]) ∧
    deck g' = Some (take (length tie_deck - 2 * length (active_players g')) tie_deck) ∧
    folded_players g' = ∅ ∧ community_cards g' = [] ∧
    GameState.active_players view = active_players g'.
Proof.
  apply (hole_cards_come_off_the_end_of_the_deck tie_deck three_way).
  - intros p Hp. simpl in Hp.
    repeat (apply elem_of_cons in Hp as [->|Hp]; [vm_compute; eauto|]).
    by apply elem_of_nil in Hp.
  - vm_compute. lia.
  - by_compute.
Defined.

Lemma start_hand_blinds (shuffled : list Card) (g : TexasHoldem) :
  (∀ p, p ∈ players g → is_Some (chips g !! p)) →
  (2 * length (players g) ≤ length shuffled)%nat →
  NoDup (players g) →
  ∃ view g' active,
    start_hand shuffled g = (Ok view, g') ∧ active_players g' = active ∧
    with_chips (chips g) (players g) = Ok active ∧
    ((length active < 2)%nat →
       chips g' = chips g ∧ pot g' = 0 ∧ current_bet g' = 0 ∧
       ∀ q, q ∈ players g → player_bets g' !! q = Some 0) ∧
    ((2 ≤ length active)%nat →
       ∃ sb bb cs cb,
         active !! Z.to_nat ((dealer_position g + 1) `mod` Z.of_nat (length active)) = Some sb ∧
         active !! Z.to_nat ((dealer_position g + 2) `mod` Z.of_nat (length active)) = Some bb ∧
         sb ≠ bb ∧
         chips g !! sb = Some cs ∧ chips g !! bb = Some cb ∧
         chips g' = <[bb := cb - Z.min (big_blind g) cb]>
                      (<[sb := cs - Z.min (small_blind g) cs]> (chips g)) ∧
         player_bets g' !! sb = Some (Z.min (small_blind g) cs) ∧
         player_bets g' !! bb = Some (Z.min (big_blind g) cb) ∧
         (∀ q, q ∈ players g → q ≠ sb → q ≠ bb → player_bets g' !! q = Some 0) ∧
         pot g' = Z.min (small_blind g) cs + Z.min (big_blind g) cb ∧
         current_bet g' = big_blind g).
Proof.
  intros Hall Hdeck Hnd.
  destruct (start_hand_parts shuffled g Hall Hdeck)
    as (active & g2 & g3 & view & Hactive & Hrun2 & Hg2 & Hpost & Hg3 & Hstart).
  pose proof (with_chips_sublist _ _ _ Hactive) as Hsub.
  pose proof (with_chips_elem _ _ _ Hactive) as Hin.
  set (g1 := mkTexasHoldem _ _ _ _ _ _ _ _ _ _ _ _ _ _) in *.
  assert (chips g2 = chips g ∧ active_players g2 = active ∧ pot g2 = 0 ∧ current_bet g2 = 0
          ∧ player_bets g2 = list_to_map ((fun player => (player, 0)) <$> players g)
          ∧ dealer_position g2 = dealer_position g ∧ small_blind g2 = small_blind g
          ∧ big_blind g2 = big_blind g) as (Hc2 & Ha2 & Hp2 & Hb2 & Hpb2 & Hdl2 & Hsb2 & Hbb2).
  { rewrite Hg2. cbn. done. }
  exists view, g3, active. split; [done|]. split; [rewrite Hg3; cbn; done|].
  split; [done|]. split.
  - intros Hlt. revert Hpost. unfold post_blinds. run_M.
    rewrite bool_decide_false by (rewrite Ha2; lia). intros [= <-].
    rewrite Hc2, Hp2, Hb2, Hpb2. split_and!; try done.
    intros q Hq. by apply lookup_zero_bets.
  - intros Hge.
    destruct (post_blinds_two g2) as (sb & bb & cs & bs & cb & b' & Hsb & Hbb & Hcs & Hbs & Hcb & Hb' & Hrun).
    { by rewrite Ha2. }
    { intros p Hp. rewrite Ha2 in Hp. apply Hin in Hp as [Hp (c & Hc & _)].
      rewrite Hc2, Hpb2. split; [eauto|]. rewrite lookup_zero_bets by done. eauto. }
    rewrite Hpost in Hrun. injection Hrun as ->.
    rewrite Ha2, Hdl2 in Hsb, Hbb. unfold getindex in Hsb, Hbb.
    destruct (active !! _) as [sb'|] eqn:Hsbi in Hsb; [|done]. injection Hsb as ->.
    destruct (active !! _) as [bb'|] eqn:Hbbi in Hbb; [|done]. injection Hbb as ->.
    assert (sb ≠ bb) as Hne.
    { intros ->. assert (NoDup active) as Hnda by (eapply sublist_NoDup; done).
      pose proof (NoDup_lookup _ _ _ _ Hnda Hsbi Hbbi) as Heq.
      apply (next_seat_differs (dealer_position g) (Z.of_nat (length active))); [lia|].
      apply Z2Nat.inj; [apply Z.mod_pos_bound; lia..|done]. }
    assert (sb ∈ players g ∧ bb ∈ players g) as [Hsbp Hbbp].
    { split; [apply (Hin sb)|apply (Hin bb)]; eapply list_elem_of_lookup_2; done. }
    rewrite Hc2 in Hcs, Hcb. rewrite lookup_insert_ne in Hcb by done.
    rewrite Hpb2 in Hbs, Hb'. rewrite lookup_insert_ne in Hb' by done.
    rewrite lookup_zero_bets in Hbs, Hb' by done.
    injection Hbs as <-. injection Hb' as <-.
    exists sb, bb, cs, cb. cbn. rewrite Hc2, Hp2, Hpb2, Hsb2, Hbb2.
    split_and!; try done.
    + rewrite lookup_insert_ne by done. by rewrite lookup_insert_eq.
    + by rewrite lookup_insert_eq.
    + intros q Hq H1 H2. rewrite !lookup_insert_ne by done. by apply lookup_zero_bets.
Qed.

(** X11.  The blinds of a new hand, for any number of players.  With two or
    more funded players the small blind is posted by the funded player one
    seat after the button and the big blind by the one two seats after it,
    seats counted among the funded players only and wrapping round; the two
    are different players; each posts the blind or, if smaller, the whole
    stack; everyone else has bet nothing; the pot holds exactly the two
    posts and the bet to match is the full big blind even when the big blind
    player could not cover it.  With fewer than two funded players no blind
    is posted at all. *)
Theorem blinds_follow_the_button (shuffled : list Card) (g : TexasHoldem) :
  (∀ p, p ∈ players g → is_Some (chips g !! p)) →
  (2 * length (players g) ≤ length shuffled)%nat →
  NoDup (players g) →
  ∃ view g' active,
    start_hand shuffled g = (Ok view, g') ∧ active_players g' = active ∧
    with_chips (chips g) (players g) = Ok active ∧
    ((length active < 2)%nat →
       chips g' = chips g ∧ pot g' = 0 ∧ current_bet g' = 0 ∧
       ∀ q, q ∈ players g → player_bets g' !! q = Some 0) ∧
    ((2 ≤ length active)%nat →
       ∃ sb bb cs cb,
         active !! Z.to_nat ((dealer_position g + 1) `mod` Z.of_nat (length active)) = Some sb ∧
         active !! Z.to_nat ((dealer_position g + 2) `mod` Z.of_nat (length active)) = Some bb ∧
         sb ≠ bb ∧
         chips g !! sb = Some cs ∧ chips g !! bb = Some cb ∧
         chips g' = <[bb := cb - Z.min (big_blind g) cb]>
                      (<[sb := cs - Z.min (small_blind g) cs]> (chips g)) ∧
         player_bets g' !! sb = Some (Z.min (small_blind g) cs) ∧
         player_bets g' !! bb = Some (Z.min (big_blind g) cb) ∧
         (∀ q, q ∈ players g → q ≠ sb → q ≠ bb → player_bets g' !! q = Some 0) ∧
         pot g' = Z.min (small_blind g) cs + Z.min (big_blind g) cb ∧
         current_bet g' = big_blind g).
Proof. apply start_hand_blinds. Qed.

Lemma blinds_follow_the_button_witness :
  ∃ view g' active,
    start_hand tie_deck three_way = (Ok view, g') ∧ active_players g' = active ∧
    with_chips (chips three_way) (players three_way) = Ok active ∧
    ((length active < 2)%nat →
       chips g' = chips three_way ∧ pot g' = 0 ∧ current_bet g' = 0 ∧
       ∀ q, q ∈ players three_way → player_bets g' !! q = Some 0) ∧
    ((2 ≤ length active)%nat →
       ∃ sb bb cs cb,
         active !! Z.to_nat ((dealer_position three_way + 1) `mod` Z.of_nat (length active))
           = Some sb ∧
         active !! Z.to_nat ((dealer_position three_way + 2) `mod` Z.of_nat (length active))
           = Some bb ∧
         sb ≠ bb ∧
         chips three_way !! sb = Some cs ∧ chips three_way !! bb = Some cb ∧
         chips g' = <[bb := cb - Z.min (big_blind three_way) cb]>
                      (<[sb := cs - Z.min (small_blind three_way) cs]> (chips three_way)) ∧
         player_bets g' !! sb = Some (Z.min (small_blind three_way) cs) ∧
         player_bets g' !! bb = Some (Z.min (big_blind three_way) cb) ∧
         (∀ q, q ∈ players three_way → q ≠ sb → q ≠ bb → player_bets g' !! q = Some 0) ∧
         pot g' = Z.min (small_blind three_way) cs + Z.min (big_blind three_way) cb ∧
         current_bet g' = big_blind three_way).
Proof.
  apply (blinds_follow_the_button tie_deck three_way).
  - intros p Hp. simpl in Hp.
    repeat (apply elem_of_cons in Hp as [->|Hp]; [vm_compute; eauto|]).
    by apply elem_of_nil in Hp.
  - vm_compute. lia.
  - by_compute.
Defined.

(** ** The streets *)

Lemma snoc_three {A} (l : list A) :
  (3 ≤ length l)%nat → ∃ l' x y z, l = ((l' ++ [x]) ++ [y]) ++ [z].
Proof.
  intros H. destruct l as [|z l _] using rev_ind; [simpl in H; lia|].
  rewrite length_app in H. simpl in H.
  destruct (snoc_two l) as (l' & x & y & ->); [lia|]. eauto.
Qed.

Lemma take_all_but {A} (l tl : list A) : take (length (l ++ tl) - length tl) (l ++ tl) = l.
Proof.
  rewrite length_app. replace (length l + length tl - length tl)%nat with (length l) by lia.
  by rewrite take_app_length.
Qed.

Lemma advance_street_run (g : TexasHoldem) (cards : list Card) :
  deck g = Some cards →
  deals_street g →
  ((street_size g ≤ length cards)%nat →
     ∃ view g',
       advance_betting_round g = (Ok (NextStreet view), g') ∧
       community_cards g' = community_cards g ++ take (street_size g) (reverse cards) ∧
       deck g' = Some (take (length cards - street_size g) cards) ∧
       player_bets g' = list_to_map ((fun player => (player, 0)) <$> players g) ∧
       current_bet g' = 0 ∧
       pot g' = pot g ∧ chips g' = chips g ∧ hole_cards g' = hole_cards g ∧
       folded_players g' = folded_players g ∧ active_players g' = active_players g ∧
       GameState.betting_round view = street_name g ∧
       GameState.community_cards view = community_cards g' ∧
       GameState.current_bet view = 0 ∧ GameState.pot_size view = pot g) ∧
  ((length cards < street_size g)%nat →
     ∃ g',
       advance_betting_round g = (Raise IndexError, g') ∧
       community_cards g' = community_cards g ∧ deck g' = Some [] ∧
       current_bet g' = 0).
Proof.
  intros Hd Hs. unfold street_size, street_name, advance_betting_round. run_M.
  set (g1 := set_current_bet 0 _).
  assert (deck g1 = Some cards) as Hd1 by done.
  change (community_cards g1) with (community_cards g).
  assert (∀ g2 c, deck g2 = Some [c] → deal g2 = (Ok c, set_deck (Some []) g2)) as Hone.
  { intros g2 c H. by apply (deal_run g2 [] c). }
  assert (∀ g2, deck g2 = Some [] → deal g2 = (Raise IndexError, g2)) as Hnone.
  { intros g2 H. unfold deal. by rewrite H. }
  destruct Hs as [Hcc|[Hcc|Hcc]].
  - rewrite !bool_decide_true by done. split.
    + intros Hk. destruct (snoc_three cards Hk) as (cards' & c3 & c2 & c1 & ->).
      rewrite (deal_run g1 _ c1 Hd1). cbn beta iota.
      rewrite (deal_run _ _ c2) by done. cbn beta iota.
      rewrite (deal_run _ _ c3) by done. cbn beta iota.
      unfold _get_game_state. run_M. eexists _, _. split; [reflexivity|]. cbn.
      rewrite Hcc, !reverse_app. cbn. split_and!; try done.
      f_equal. rewrite <- !app_assoc. symmetry. apply (take_all_but cards' [c3; c2; c1]).
    + intros Hk. destruct cards as [|a [|b [|c cards]]]; [| | |simpl in Hk; lia].
      * rewrite (Hnone g1) by done. by eexists.
      * rewrite (Hone g1 a) by done. cbn beta iota. rewrite Hnone by done. by eexists.
      * rewrite (deal_run g1 [a] b) by done. cbn beta iota.
        rewrite (Hone _ a) by done. cbn beta iota. rewrite Hnone by done. by eexists.
  - assert (community_cards g ≠ []) as Hne by (intros E; by rewrite E in Hcc).
    rewrite !(bool_decide_false (community_cards g = [])) by done.
    rewrite !bool_decide_true by done. split.
    + intros Hk. destruct cards as [|c cards _] using rev_ind; [simpl in Hk; lia|].
      rewrite (deal_run g1 _ c Hd1). cbn beta iota.
      unfold _get_game_state. run_M. eexists _, _. split; [reflexivity|]. cbn.
      rewrite reverse_app. cbn. split_and!; try done.
      f_equal. symmetry. apply (take_all_but cards [c]).
    + intros Hk. destruct cards as [|c cards]; [|simpl in Hk; lia].
      rewrite (Hnone g1) by done. by eexists.
  - assert (community_cards g ≠ []) as Hne by (intros E; by rewrite E in Hcc).
    rewrite !(bool_decide_false (community_cards g = [])) by done.
    rewrite !(bool_decide_false (length (community_cards g) = 3%nat)) by lia.
    rewrite !bool_decide_true by done. split.
    + intros Hk. destruct cards as [|c cards _] using rev_ind; [simpl in Hk; lia|].
      rewrite (deal_run g1 _ c Hd1). cbn beta iota.
      unfold _get_game_state. run_M. eexists _, _. split; [reflexivity|]. cbn.
      rewrite reverse_app. cbn. split_and!; try done.
      f_equal. symmetry. apply (take_all_but cards [c]).
    + intros Hk. destruct cards as [|c cards]; [|simpl in Hk; lia].
      rewrite (Hnone g1) by done. by eexists.
Qed.

(** X12.  Advancing a board of zero, three or four cards deals the next
    street straight off the end of the deck: three cards for the flop, one
    for the turn and one for the river, in the order they are popped, with
    no card burned in between.  Every player's bet of the round and the bet
    to match go back to zero; pot, stacks, hole cards and folds stay as they
    are, and the view returned names the street.  When the deck holds fewer
    cards than the street needs the call raises IndexError; the cards popped
    up to then are gone from the deck and the board is unchanged. *)
Theorem street_is_dealt_without_a_burn_card (g : TexasHoldem) (cards : list Card) :
  deck g = Some cards →
  deals_street g →
  ((street_size g ≤ length cards)%nat →
     ∃ view g',
       advance_betting_round g = (Ok (NextStreet view), g') ∧
       community_cards g' = community_cards g ++ take (street_size g) (reverse cards) ∧
       deck g' = Some (take (length cards - street_size g) cards) ∧
       player_bets g' = list_to_map ((fun player => (player, 0)) <$> players g) ∧
       current_bet g' = 0 ∧
       pot g' = pot g ∧ chips g' = chips g ∧ hole_cards g' = hole_cards g ∧
       folded_players g' = folded_players g ∧ active_players g' = active_players g ∧
       GameState.betting_round view = street_name g ∧
       GameState.community_cards view = community_cards g' ∧
       GameState.current_bet view = 0 ∧ GameState.pot_size view = pot g) ∧
  ((length cards < street_size g)%nat →
     ∃ g',
       advance_betting_round g = (Raise IndexError, g') ∧
       community_cards g' = community_cards g ∧ deck g' = Some [] ∧
       current_bet g' = 0).
Proof. apply advance_street_run. Qed.

Lemma street_is_dealt_without_a_burn_card_witness :
  ((street_size heads_up_preflop ≤ length (cards_left heads_up_preflop))%nat →
     ∃ view g',
       advance_betting_round heads_up_preflop = (Ok (NextStreet view), g') ∧
       community_cards g' = community_cards heads_up_preflop
                            ++ take (street_size heads_up_preflop)
                                 (reverse (cards_left heads_up_preflop)) ∧
       deck g' = Some (take (length (cards_left heads_up_preflop)
                             - street_size heads_up_preflop)
                         (cards_left heads_up_preflop)) ∧
       player_bets g'
         = list_to_map ((fun player => (player, 0)) <$> players heads_up_preflop) ∧
       current_bet g' = 0 ∧
       pot g' = pot heads_up_preflop ∧ chips g' = chips heads_up_preflop ∧
       hole_cards g' = hole_cards heads_up_preflop ∧
       folded_players g' = folded_players heads_up_preflop ∧
       active_players g' = active_players heads_up_preflop ∧
       GameState.betting_round view = street_name heads_up_preflop ∧
       GameState.community_cards view = community_cards g' ∧
       GameState.current_bet view = 0 ∧ GameState.pot_size view = pot heads_up_preflop) ∧
  ((length (cards_left heads_up_preflop) < street_size heads_up_preflop)%nat →
     ∃ g',
       advance_betting_round heads_up_preflop = (Raise IndexError, g') ∧
       community_cards g' = community_cards heads_up_preflop ∧ deck g' = Some [] ∧
       current_bet g' = 0).
Proof.
  apply (street_is_dealt_without_a_burn_card heads_up_preflop (cards_left heads_up_preflop)).
  - reflexivity.
  - left. reflexivity.
Defined.

(** ** The showdown *)

Lemma PyDict_set_fresh {V} (d : list (string * V)) (k : string) (v : V) :
  k ∉ map fst d → PyDict.set d k v = d ++ [(k, v)].
Proof.
  induction d as [|[k' v'] d IH]; [done|]. cbn [map fst PyDict.set].
  intros [Hne Hk]%not_elem_of_cons. rewrite decide_False by done. by rewrite IH.
Qed.

Lemma collect_hands_items (g : TexasHoldem) (active : list string)
    (acc : list (string * option HandEvaluation)) :
  NoDup (map fst acc ++ active) →
  (∀ p, p ∈ active →
     ∃ hole, hole_cards g !! p = Some hole ∧ (5 ≤ length (hole ++ community_cards g))%nat) →
  ∃ items, foldl (collect_step g) (Ok acc) active = Ok (acc ++ items) ∧
    map fst items = active ∧
    (∀ p h, (p, h) ∈ items → showdown_hand g p = Ok h ∧ is_Some h).
Proof.
  revert acc; induction active as [|p ps IH]; intros acc Hnd Hwf; cbn [foldl].
  - exists []. rewrite app_nil_r. split_and!; [done..|]. by intros ? ? ?%elem_of_nil.
  - destruct (Hwf p) as (hole & Hhole & Hlen); [by left|].
    destruct (_get_best_hand_some _ Hlen) as [best Hbest].
    assert (p ∉ map fst acc) as Hfresh.
    { apply NoDup_app in Hnd as (_ & Hdis & _). intros Hp. apply (Hdis p Hp). by left. }
    assert (collect_step g (Ok acc) p = Ok (acc ++ [(p, Some best)])) as ->.
    { unfold collect_step, getitem. simpl. rewrite Hhole. simpl. rewrite Hbest. simpl.
      by rewrite PyDict_set_fresh. }
    destruct (IH (acc ++ [(p, Some best)])) as (items & -> & Hkeys & Hitems).
    { rewrite map_app, <- app_assoc. done. }
    { intros q Hq. apply Hwf. by right. }
    exists ((p, Some best) :: items). rewrite <- app_assoc. split_and!; [done| |].
    + simpl. by rewrite Hkeys.
    + intros q h [[= -> ->]|Hin]%elem_of_cons; [|by apply Hitems].
      split; [|done]. unfold showdown_hand, getitem. rewrite Hhole. simpl. done.
Qed.

Lemma pay_winners_chips (winners : list string) (w : Z) (results : list (string * Z))
    (g : TexasHoldem) :
  NoDup winners → (∀ p, p ∈ winners → is_Some (chips g !! p)) →
  ∀ q, chips (pay_winners winners w results g).2 !! q
       = if decide (q ∈ winners) then (fun c => c + w) <$> chips g !! q else chips g !! q.
Proof.
  revert results g; induction winners as [|p ws IH]; intros results g Hnd Hall q.
  - rewrite decide_False by apply not_elem_of_nil. done.
  - apply NoDup_cons in Hnd as [Hp Hnd]. cbn [pay_winners]. run_M.
    destruct (Hall p) as [c Hc]; [by left|]. unfold getitem. rewrite Hc. cbn beta iota.
    rewrite IH; [|done|].
    2:{ intros r Hr. cbn. rewrite lookup_insert_is_Some. destruct (decide (p = r)); [by left|].
        right. split; [done|]. apply Hall. by right. }
    cbn. destruct (decide (q = p)) as [->|Hne].
    + rewrite decide_False by done. rewrite decide_True by (by left).
      rewrite lookup_insert_eq, Hc. done.
    + rewrite lookup_insert_ne by done.
      destruct (decide (q ∈ ws)) as [Hq|Hq].
      * rewrite decide_True by (by right). done.
      * rewrite decide_False; [done|]. by intros [?|?]%elem_of_cons.
Qed.

Lemma showdown_run (g : TexasHoldem) :
  NoDup (active_players g) →
  (2 ≤ length (not_folded g))%nat →
  (∀ p, p ∈ not_folded g →
     is_Some (chips g !! p) ∧
     ∃ hole, hole_cards g !! p = Some hole ∧ (5 ≤ length (hole ++ community_cards g))%nat) →
  ∃ winners g',
    _determine_winner g
      = (Ok (map (fun p => (p, pot g `div` Z.of_nat (length winners))) winners), g') ∧
    winners ≠ [] ∧ winners `sublist_of` not_folded g ∧
    (∀ p, p ∈ winners ↔
          p ∈ not_folded g ∧
          ∃ h, showdown_hand g p = Ok (Some h) ∧
               ∀ q hq, q ∈ not_folded g → showdown_hand g q = Ok (Some hq) →
                       he_le hq h = true) ∧
    g' = set_chips (chips g') g ∧
    (∀ p, p ∈ winners →
       ∃ c, chips g !! p = Some c ∧
            chips g' !! p = Some (c + pot g `div` Z.of_nat (length winners))) ∧
    (∀ p, p ∉ winners → chips g' !! p = chips g !! p).
Proof.
  intros Hnd Htwo Hwf.
  assert (NoDup (not_folded g)) as Hndf by (by apply NoDup_filter).
  destruct (collect_hands_items g (not_folded g) []) as (ph & Hph & Hkeys & Hitems).
  { done. }
  { intros p Hp. by destruct (Hwf p Hp). }
  simpl in Hph.
  assert (all_evaluated ph) as Hall by (intros p h Hin; by destruct (Hitems p h Hin)).
  assert (∀ p h, (p, Some h) ∈ ph ↔ p ∈ not_folded g ∧ showdown_hand g p = Ok (Some h))
    as Hmem.
  { intros p h. split.
    - intros Hin. split; [|by destruct (Hitems _ _ Hin)].
      rewrite <- Hkeys. apply list_elem_of_In, in_map_iff. exists (p, Some h).
      split; [done|by apply list_elem_of_In].
    - intros [Hp Hs]. rewrite <- Hkeys in Hp.
      apply list_elem_of_In, in_map_iff in Hp as ([p' h'] & Heq & Hin). simpl in Heq. subst p'.
      apply list_elem_of_In in Hin. destruct (Hitems _ _ Hin) as [Hs' _].
      rewrite Hs in Hs'. injection Hs' as <-. done. }
  assert (PyDict.values ph ≠ []) as Hvals.
  { intros E. apply (f_equal length) in E. unfold PyDict.values in E.
    rewrite length_map, <- (length_map fst), Hkeys in E. simpl in E. lia. }
  destruct (max_hand_run (PyDict.values ph) Hvals) as (m & Hmax & Hm & Hub).
  { intros h ([p h'] & <- & He)%list_elem_of_In%in_map_iff.
    eapply Hall. by apply list_elem_of_In. }
  destruct (winners_of_run ph m Hall) as (ws & Hws & Hwin).
  apply list_elem_of_In, in_map_iff in Hm as ([pm hm] & Hh & Hpm). simpl in Hh. subst hm.
  apply list_elem_of_In in Hpm.
  assert (pm ∈ ws) as Hpmw.
  { apply Hwin. exists m. split; [done|]. rewrite he_ge_le. apply he_le_refl. }
  assert (ws ≠ []) as Hne by (destruct ws; [by apply elem_of_nil in Hpmw|done]).
  assert (ws `sublist_of` not_folded g) as Hsub.
  { rewrite <- Hkeys. by eapply winners_of_sublist. }
  assert (NoDup ws) as Hndw by (eapply sublist_NoDup; done).
  assert (∀ p, p ∈ ws → is_Some (chips g !! p)) as Hstack.
  { intros p (h & Hin & _)%Hwin. apply Hmem in Hin as [Hp _]. by destruct (Hwf p Hp). }
  set (w := pot g `div` Z.of_nat (length ws)).
  destruct (pay_winners_run ws w [] g Hstack) as (g' & Hpay & Hfr & _).
  rewrite pay_results in Hpay by done. simpl in Hpay.
  assert (_determine_winner g = (Ok (map (fun p => (p, w)) ws), g')) as Hrun.
  { unfold _determine_winner. run_M. rewrite bool_decide_false by lia.
    unfold collect_hands. rewrite Hph. cbn beta iota. rewrite Hmax. cbn beta iota. rewrite Hws. cbn beta iota.
    rewrite bool_decide_false by (destruct ws; done). exact Hpay. }
  exists ws, g'. split_and!; try done.
  - intros p. rewrite Hwin. split.
    + intros (h & Hin & Hge). apply Hmem in Hin as [Hp Hs]. split; [done|].
      exists h. split; [done|]. intros q hq Hq Hsq.
      apply (he_le_trans _ m); [|by rewrite <- he_ge_le].
      apply Hub. apply list_elem_of_In, in_map_iff. exists (q, Some hq).
      split; [done|]. apply list_elem_of_In, Hmem. done.
    + intros (Hp & h & Hs & Hbest). exists h. split; [by apply Hmem|].
      rewrite he_ge_le. apply Hmem in Hpm as [Hq Hsq]. by apply (Hbest pm).
  - intros p Hp. destruct (Hstack p Hp) as [c Hc]. exists c. split; [done|].
    pose proof (pay_winners_chips ws w [] g Hndw Hstack p) as Hch.
    rewrite Hpay in Hch. simpl in Hch. rewrite Hch, decide_True by done. by rewrite Hc.
  - intros p Hp.
    pose proof (pay_winners_chips ws w [] g Hndw Hstack p) as Hch.
    rewrite Hpay in Hch. simpl in Hch. by rewrite Hch, decide_False.
Qed.

(** X13.  A showdown between two or more players who have not folded.  When
    every one of them has a stack entry, hole cards and at least five cards
    to choose from, [_determine_winner] returns; the winners are exactly the
    players left whose best hand no other player left beats, listed in seat
    order; each is credited the pot divided by the number of winners, rounded
    down, and the result reports that share for each; no other stack changes
    and nothing but the stacks changes, so the pot keeps its amount. *)
Theorem showdown_pays_the_best_hands (g : TexasHoldem) :
  NoDup (active_players g) →
  (2 ≤ length (not_folded g))%nat →
  (∀ p, p ∈ not_folded g →
     is_Some (chips g !! p) ∧
     ∃ hole, hole_cards g !! p = Some hole ∧ (5 ≤ length (hole ++ community_cards g))%nat) →
  ∃ winners g',
    _determine_winner g
      = (Ok (map (fun p => (p, pot g `div` Z.of_nat (length winners))) winners), g') ∧
    winners ≠ [] ∧ winners `sublist_of` not_folded g ∧
    (∀ p, p ∈ winners ↔
          p ∈ not_folded g ∧
          ∃ h, showdown_hand g p = Ok (Some h) ∧
               ∀ q hq, q ∈ not_folded g → showdown_hand g q = Ok (Some hq) →
                       he_le hq h = true) ∧
    g' = set_chips (chips g') g ∧
    (∀ p, p ∈ winners →
       ∃ c, chips g !! p = Some c ∧
            chips g' !! p = Some (c + pot g `div` Z.of_nat (length winners))) ∧
    (∀ p, p ∉ winners → chips g' !! p = chips g !! p).
Proof. apply showdown_run. Qed.

Lemma showdown_pays_the_best_hands_witness :
  ∃ winners g',
    _determine_winner three_way_river
      = (Ok (map (fun p => (p, pot three_way_river `div` Z.of_nat (length winners))) winners),
         g') ∧
    winners ≠ [] ∧ winners `sublist_of` not_folded three_way_river ∧
    (∀ p, p ∈ winners ↔
          p ∈ not_folded three_way_river ∧
          ∃ h, showdown_hand three_way_river p = Ok (Some h) ∧
               ∀ q hq, q ∈ not_folded three_way_river →
                       showdown_hand three_way_river q = Ok (Some hq) →
                       he_le hq h = true) ∧
    g' = set_chips (chips g') three_way_river ∧
    (∀ p, p ∈ winners →
       ∃ c, chips three_way_river !! p = Some c ∧
            chips g' !! p
            = Some (c + pot three_way_river `div` Z.of_nat (length winners))) ∧
    (∀ p, p ∉ winners → chips g' !! p = chips three_way_river !! p).
Proof.
  apply (showdown_pays_the_best_hands three_way_river).
  - by_compute.
  - vm_compute. lia.
  - intros p Hp. vm_compute in Hp.
    repeat (apply elem_of_cons in Hp as [->|Hp];
            [split; [vm_compute; eauto|
                     eexists; split; [vm_compute; reflexivity|vm_compute; lia]]|]).
    by apply elem_of_nil in Hp.
Defined.

(** ** Between hands *)

Lemma with_chips_funded (chips : gmap string Z) (ps : list string) :
  (∀ p, p ∈ ps → ∃ c, chips !! p = Some c ∧ 0 < c) → with_chips chips ps = Ok ps.
Proof.
  induction ps as [|p ps IH]; intros Hall; simpl; [done|].
  destruct (Hall p) as (c & Hc & Hpos); [by left|].
  unfold getitem. rewrite Hc. simpl. rewrite IH by (intros q Hq; apply Hall; by right).
  simpl. rewrite bool_decide_true by lia. done.
Qed.

(** X14.  [next_hand] on a roster whose players all have a stack entry moves
    the button one seat on, counted modulo the size of the roster as it was
    before anyone is removed, and then drops every player without chips from
    the roster; the order of the others is kept and nothing else on the table
    changes.  The roster it leaves is dealt in as a whole by the following
    hand.  On an empty roster the call raises ZeroDivisionError and changes
    nothing. *)
Theorem next_hand_drops_busted_players (g : TexasHoldem) :
  (∀ p, p ∈ players g → is_Some (chips g !! p)) →
  (players g = [] → next_hand g = (Raise ZeroDivisionError, g)) ∧
  (players g ≠ [] →
   ∃ g',
     next_hand g = (Ok tt, g') ∧
     g' = set_players (players g') (set_dealer_position (dealer_position g') g) ∧
     dealer_position g' = (dealer_position g + 1) `mod` Z.of_nat (length (players g)) ∧
     0 ≤ dealer_position g' < Z.of_nat (length (players g)) ∧
     players g' `sublist_of` players g ∧
     (∀ p, p ∈ players g' ↔ p ∈ players g ∧ ∃ c, chips g !! p = Some c ∧ 0 < c) ∧
     with_chips (chips g') (players g') = Ok (players g')).
Proof.
  intros Hall. split.
  - intros Hnil. unfold next_hand. run_M. by rewrite bool_decide_true.
  - intros Hne. unfold next_hand. run_M. rewrite bool_decide_false by done. cbn beta iota.
    destruct (with_chips_run (chips g) (players g) Hall) as (active & Hactive & _).
    cbn [chips players set_dealer_position]. rewrite Hactive. cbn beta iota.
    pose proof (with_chips_elem _ _ _ Hactive) as Hin.
    eexists. split; [reflexivity|]. cbn. split_and!; try done.
    + apply Z.mod_pos_bound. destruct (players g); [done|simpl; lia].
    + apply Z.mod_pos_bound. destruct (players g); [done|simpl; lia].
    + by eapply with_chips_sublist.
    + apply with_chips_funded. intros p Hp. by apply Hin.
Qed.

Lemma next_hand_drops_busted_players_witness :
  (players three_way_river = [] →
   next_hand three_way_river = (Raise ZeroDivisionError, three_way_river)) ∧
  (players three_way_river ≠ [] →
   ∃ g',
     next_hand three_way_river = (Ok tt, g') ∧
     g' = set_players (players g')
            (set_dealer_position (dealer_position g') three_way_river) ∧
     dealer_position g'
     = (dealer_position three_way_river + 1) `mod` Z.of_nat (length (players three_way_river)) ∧
     0 ≤ dealer_position g' < Z.of_nat (length (players three_way_river)) ∧
     players g' `sublist_of` players three_way_river ∧
     (∀ p, p ∈ players g' ↔
           p ∈ players three_way_river ∧ ∃ c, chips three_way_river !! p = Some c ∧ 0 < c) ∧
     with_chips (chips g') (players g') = Ok (players g')).
Proof.
  apply (next_hand_drops_busted_players three_way_river).
  intros p Hp. vm_compute in Hp.
  repeat (apply elem_of_cons in Hp as [->|Hp]; [vm_compute; eauto|]).
  by apply elem_of_nil in Hp.
Defined.

(** * The orchestrator *)

Ltac run_H :=
  unfold mbind, H_bind, H_ret, H_get, H_modify, H_raise, on_game; cbn beta iota.

(** ** Validation of a raise *)

(** X15.  A raise as the orchestrator passes it on.  The amount an agent
    asks for is first replaced by the bet to match when it is zero or
    negative and then cut down to the player's stack.  For an eligible player
    the engine always accepts the result, and when the raise takes effect the
    chips that leave the stack, the growth of the pot and of the player's
    contribution all equal the validated amount, and the new bet to match is
    exactly the player's contribution: a bet to match that nobody has put in,
    as the engine alone allows, cannot come about this way.  A validated
    raise that does not exceed the bet to match changes nothing. *)
Theorem validated_raise_is_covered_by_the_stack (g : TexasHoldem) (player : string)
    (a : PlayerAction) (c b : Z) :
  action a = RAISE →
  player ∉ folded_players g → player ∈ active_players g →
  chips g !! player = Some c → player_bets g !! player = Some b →
  0 ≤ c → 0 ≤ current_bet g →
  ∃ amt view g',
    attempt player a g = (Ok (mkPlayerAction RAISE amt, Some view), g') ∧
    amt = Z.min (if bool_decide (amount a ≤ 0) then current_bet g else amount a) c ∧
    0 ≤ amt ≤ c ∧
    (b + amt > current_bet g →
       chips g' !! player = Some (c - amt) ∧ player_bets g' !! player = Some (b + amt) ∧
       pot g' = pot g + amt ∧ current_bet g' = b + amt ∧
       GameState.current_bet view = b + amt) ∧
    (b + amt ≤ current_bet g → g' = g).
Proof.
  intros Ha Hf Hact Hc Hb Hc0 Hcb0. destruct a as [act x]. simpl in Ha. subst act.
  set (amt := Z.min (if bool_decide (x ≤ 0) then current_bet g else x) c).
  assert (0 ≤ amt ≤ c) as Hamt.
  { subst amt. cbn [amount]. case_bool_decide; lia. }
  assert (validate player (mkPlayerAction RAISE x) g = (Ok (mkPlayerAction RAISE amt), g)) as Hv.
  { unfold validate. cbn [action amount]. run_M. unfold getitem. by rewrite Hc. }
  unfold attempt. run_M. rewrite Hv. cbn beta iota.
  unfold process_action. run_M.
  rewrite eligible_not_rejected by done. cbn beta iota delta [action amount].
  unfold getitem at 1. rewrite Hb. cbn beta iota.
  case_bool_decide as Hgt.
  - rewrite (_place_bet_ok g player amt c b) by done. cbn beta iota.
    replace (Z.min amt c) with amt by lia.
    match goal with |- context [_get_game_state None ?g1] =>
      destruct (_get_game_state_run None g1) as (view & -> & _ & _ & _ & Hvb & _) end.
    exists amt, view. eexists. split; [reflexivity|]. split; [done|]. split; [done|]. split.
    + intros _. cbn. rewrite !lookup_insert_eq. rewrite Hvb. done.
    + intros Hle. lia.
  - destruct (_get_game_state_run None g) as (view & -> & _).
    exists amt, view, g. split; [reflexivity|]. split; [done|]. split; [done|]. split.
    + intros Hgt'. lia.
    + done.
Qed.

Lemma validated_raise_is_covered_by_the_stack_witness :
  ∃ amt view g',
    attempt "B" (mkPlayerAction RAISE 500) heads_up_preflop
      = (Ok (mkPlayerAction RAISE amt, Some view), g') ∧
    amt = Z.min (if bool_decide (amount (mkPlayerAction RAISE 500) ≤ 0)
                 then current_bet heads_up_preflop
                 else amount (mkPlayerAction RAISE 500)) 95 ∧
    0 ≤ amt ≤ 95 ∧
    (5 + amt > current_bet heads_up_preflop →
       chips g' !! "B" = Some (95 - amt) ∧ player_bets g' !! "B" = Some (5 + amt) ∧
       pot g' = pot heads_up_preflop + amt ∧ current_bet g' = 5 + amt ∧
       GameState.current_bet view = 5 + amt) ∧
    (5 + amt ≤ current_bet heads_up_preflop → g' = heads_up_preflop).
Proof.
  apply (validated_raise_is_covered_by_the_stack heads_up_preflop "B"
           (mkPlayerAction RAISE 500) 95 5).
  - reflexivity.
  - by_compute.
  - by_compute.
  - by vm_compute.
  - by vm_compute.
  - lia.
  - vm_compute. discriminate.
Defined.

(** ** The betting loop *)

Lemma players_to_act_run (g : TexasHoldem) (acted : gset string) (active : list string) :
  (∀ p, p ∈ active → is_Some (chips g !! p) ∧ is_Some (player_bets g !! p)) →
  ∃ to_act, players_to_act g acted active = Ok to_act ∧
    to_act `sublist_of` active ∧
    ∀ p, p ∈ to_act ↔
         p ∈ active ∧ ∃ c, chips g !! p = Some c ∧ 0 < c ∧
           if decide (current_bet g = 0) then p ∉ acted
           else ∃ b, player_bets g !! p = Some b ∧ b < current_bet g.
Proof.
  induction active as [|q active IH]; intros Hwf; cbn [players_to_act].
  - exists []. split_and!; [done..|]. intros p. rewrite elem_of_nil. tauto.
  - destruct (Hwf q) as [[c Hc] [b Hb]]; [by left|].
    destruct IH as (rest & -> & Hsub & Hin); [intros p Hp; apply Hwf; by right|].
    unfold getitem. rewrite Hc, Hb. cbn.
    assert (∀ add : bool,
              (add = true ↔ 0 < c ∧ if decide (current_bet g = 0) then q ∉ acted
                                     else b < current_bet g) →
              ∃ to_act, Ok (if add then q :: rest else rest) = Ok to_act ∧
                to_act `sublist_of` q :: active ∧
                ∀ p, p ∈ to_act ↔
                     p ∈ q :: active ∧ ∃ c, chips g !! p = Some c ∧ 0 < c ∧
                       if decide (current_bet g = 0) then p ∉ acted
                       else ∃ b, player_bets g !! p = Some b ∧ b < current_bet g) as Hadd.
    { intros add Hiff. eexists. split; [done|]. destruct add.
      - split; [by apply sublist_skip|]. intros p. rewrite !elem_of_cons, Hin.
        destruct (proj1 Hiff eq_refl) as [Hpos Hq]. split.
        + intros [->|[? ?]]; [|tauto]. split; [by left|]. exists c. split_and!; [done..|].
          destruct (decide (current_bet g = 0)); eauto.
        + intros [[->|?] ?]; tauto.
      - split; [by apply sublist_cons|]. intros p. rewrite elem_of_cons, Hin.
        split; [tauto|]. intros [[->|?] (c' & Hc' & Hpos & Hq)]; [|eauto].
        exfalso. rewrite Hc in Hc'. injection Hc' as <-.
        assert (false = true) as Habs; [|done]. apply Hiff. split; [done|].
        destruct (decide (current_bet g = 0)); [done|].
        destruct Hq as (b' & Hb' & ?). rewrite Hb in Hb'. by injection Hb' as <-. }
    case_bool_decide as Hpos.
    + case_bool_decide as Hz; cbn.
      * apply Hadd. rewrite bool_decide_eq_true, decide_True by done. split; [|tauto].
        intros ?. split; [lia|done].
      * apply Hadd. rewrite bool_decide_eq_true, decide_False by done. split; [|tauto].
        intros ?. split; [lia|done].
    + cbn. apply (Hadd false). split; [done|]. intros [? _]. lia.
Qed.

Lemma take_turn_check_owing (agents : nat → Response) (betting_round player : string)
    (h : Hand) (hole : list Card) (b x : Z) :
  player ∉ folded_players (game h) →
  hole_cards (game h) !! player = Some hole →
  player_bets (game h) !! player = Some b → b < current_bet (game h) →
  agents (length (calls h)) = Decides (mkPlayerAction CHECK x) →
  take_turn agents betting_round player h
  = (Ok tt,
     mkHand (game h) (game_state h)
       (hand_actions h ++ [mkActionLog player CHECK x betting_round None])
       ({[player]} ∪ players_who_acted h)
       (calls h ++ [(player, game_state h, hole)])).
Proof.
  intros Hf Hh Hb Hlt Hag. unfold take_turn.
  rewrite bool_decide_false by done. unfold getitem. rewrite Hh, Hag.
  cbn [game set_calls]. unfold attempt, validate. cbn [action]. run_M.
  rewrite process_action_reject; [done|]. right; right. split; [done|]. eauto.
Qed.

Lemma checks_change_nothing (agents : nat → Response) (betting_round : string)
    (g : TexasHoldem) (to_act : list string) (h : Hand) :
  (∀ n, ∃ x, agents n = Decides (mkPlayerAction CHECK x)) →
  game h = g →
  (∀ p, p ∈ to_act →
     p ∉ folded_players g ∧ is_Some (hole_cards g !! p) ∧
     ∃ b, player_bets g !! p = Some b ∧ b < current_bet g) →
  ∃ h', H_for_each to_act (take_turn agents betting_round) h = (Ok tt, h') ∧
    game h' = g ∧ game_state h' = game_state h ∧
    length (calls h') = (length (calls h) + length to_act)%nat.
Proof.
  intros Hag. revert h; induction to_act as [|p ps IH]; intros h Hg Hall; cbn [H_for_each].
  - exists h. run_H. split_and!; try done; simpl; lia.
  - destruct (Hall p) as (Hf & [hole Hh] & b & Hb & Hlt); [by left|]. subst g.
    destruct (Hag (length (calls h))) as [x Hx].
    run_H. rewrite (take_turn_check_owing _ _ _ _ hole b x) by done.
    match goal with |- context [H_for_each ps _ ?h1] => destruct (IH h1) as (h' & -> & ? & ? & Hlen) end.
    { done. }
    { intros q Hq. apply Hall. by right. }
    exists h'. split_and!; try done. rewrite Hlen. cbn. rewrite length_app. simpl. lia.
Qed.

Lemma betting_stalls_on_checks (agents : nat → Response) (betting_round : string)
    (g : TexasHoldem) :
  (∀ n, ∃ x, agents n = Decides (mkPlayerAction CHECK x)) →
  current_bet g ≠ 0 →
  (2 ≤ length (not_folded g))%nat →
  (∀ p, p ∈ not_folded g →
     is_Some (chips g !! p) ∧ is_Some (player_bets g !! p) ∧ is_Some (hole_cards g !! p)) →
  (∃ p c b, p ∈ not_folded g ∧ chips g !! p = Some c ∧ 0 < c ∧
            player_bets g !! p = Some b ∧ b < current_bet g) →
  ∀ passes h, game h = g →
    ∃ h', betting agents betting_round passes h = (Ok false, h') ∧
      game h' = g ∧ game_state h' = game_state h ∧
      (length (calls h) + passes ≤ length (calls h'))%nat.
Proof.
  intros Hag Hcb Htwo Hwf (p0 & c0 & b0 & Hp0 & Hc0 & Hpos0 & Hb0 & Hlt0).
  induction passes as [|passes IH]; intros h Hg; cbn [betting].
  - exists h. run_H. split_and!; try done. lia.
  - rewrite Hg. rewrite bool_decide_false by lia.
    destruct (players_to_act_run g (players_who_acted h) (not_folded g)) as (to_act & -> & _ & Hin).
    { intros p Hp. destruct (Hwf p Hp) as (? & ? & _). done. }
    assert (p0 ∈ to_act) as Hp0in.
    { apply Hin. split; [done|]. exists c0. split_and!; [done..|].
      rewrite decide_False by done. eauto. }
    rewrite bool_decide_false by (intros E; rewrite E in Hp0in; by apply elem_of_nil in Hp0in).
    run_H.
    destruct (checks_change_nothing agents betting_round g to_act h Hag Hg)
      as (h1 & -> & Hg1 & Hgs1 & Hlen1).
    { intros p (Hp & c & _ & _ & Hrest)%Hin. rewrite decide_False in Hrest by done.
      destruct (Hwf p Hp) as (_ & _ & Hh). split_and!; [|done..].
      apply list_elem_of_filter in Hp as [? _]. done. }
    destruct (IH h1 Hg1) as (h' & -> & ? & ? & Hlen).
    exists h'. split_and!; try done; [congruence|].
    assert (1 ≤ length to_act)%nat by (destruct to_act; [by apply elem_of_nil in Hp0in|simpl; lia]).
    lia.
Qed.

(** X16.  A betting loop in which somebody with chips owes part of the bet
    to match, and whose agents answer every question with a check, is never
    left.  The engine rejects each such check and leaves the table as it was,
    the orchestrator counts the player as having acted and asks again on the
    next pass: however many passes are run, the loop has not ended, the table
    and the view handed to the agents are unchanged, and at least one more
    decision has been requested per pass. *)
Theorem checking_while_owing_never_ends (agents : nat → Response) (betting_round : string)
    (h : Hand) :
  (∀ n, ∃ x, agents n = Decides (mkPlayerAction CHECK x)) →
  current_bet (game h) ≠ 0 →
  (2 ≤ length (not_folded (game h)))%nat →
  (∀ p, p ∈ not_folded (game h) →
     is_Some (chips (game h) !! p) ∧ is_Some (player_bets (game h) !! p) ∧
     is_Some (hole_cards (game h) !! p)) →
  (∃ p c b, p ∈ not_folded (game h) ∧ chips (game h) !! p = Some c ∧ 0 < c ∧
            player_bets (game h) !! p = Some b ∧ b < current_bet (game h)) →
  ∀ passes,
    ∃ h', betting agents betting_round passes h = (Ok false, h') ∧
      game h' = game h ∧ game_state h' = game_state h ∧
      (length (calls h) + passes ≤ length (calls h'))%nat.
Proof.
  intros Hag Hcb Htwo Hwf Howes passes.
  by apply (betting_stalls_on_checks agents betting_round (game h)).
Qed.

Lemma checking_while_owing_never_ends_witness :
  ∃ h', betting (always (Decides (mkPlayerAction CHECK 0))) "preflop" 7 heads_up_hand
        = (Ok false, h') ∧
    game h' = game heads_up_hand ∧ game_state h' = game_state heads_up_hand ∧
    (length (calls heads_up_hand) + 7 ≤ length (calls h'))%nat.
Proof.
  apply (checking_while_owing_never_ends (always (Decides (mkPlayerAction CHECK 0)))
           "preflop" heads_up_hand).
  - intros n. by exists 0.
  - vm_compute. discriminate.
  - vm_compute. lia.
  - intros p Hp. vm_compute in Hp.
    repeat (apply elem_of_cons in Hp as [->|Hp]; [vm_compute; split_and!; eauto|]).
    by apply elem_of_nil in Hp.
  - exists "B", 95, 5. split_and!; [by_compute|by vm_compute|lia|by vm_compute|by vm_compute].
Defined.

Lemma take_turn_check_accepted (agents : nat → Response) (betting_round player : string)
    (h : Hand) (hole : list Card) (b x : Z) :
  player ∉ folded_players (game h) → player ∈ active_players (game h) →
  hole_cards (game h) !! player = Some hole →
  player_bets (game h) !! player = Some b → current_bet (game h) ≤ b →
  agents (length (calls h)) = Decides (mkPlayerAction CHECK x) →
  ∃ view,
    take_turn agents betting_round player h
    = (Ok tt,
       mkHand (game h) view
         (hand_actions h ++ [mkActionLog player CHECK x betting_round None])
         ({[player]} ∪ players_who_acted h)
         (calls h ++ [(player, game_state h, hole)])).
Proof.
  intros Hf Ha Hh Hb Hle Hag. unfold take_turn.
  rewrite bool_decide_false by done. unfold getitem. rewrite Hh, Hag.
  cbn [game set_calls]. unfold attempt, validate. cbn [action]. run_M.
  unfold process_action. run_M. rewrite eligible_not_rejected by done.
  cbn beta iota delta [action]. unfold getitem. rewrite Hb. cbn beta iota.
  rewrite bool_decide_false by lia.
  destruct (_get_game_state_run None (game h)) as (view & -> & _). cbn.
  by exists view.
Qed.

Lemma accepted_checks_change_nothing (agents : nat → Response) (betting_round : string)
    (g : TexasHoldem) (to_act : list string) (h : Hand) :
  (∀ n, ∃ x, agents n = Decides (mkPlayerAction CHECK x)) →
  game h = g →
  (∀ p, p ∈ to_act →
     p ∉ folded_players g ∧ p ∈ active_players g ∧ is_Some (hole_cards g !! p) ∧
     ∃ b, player_bets g !! p = Some b ∧ current_bet g ≤ b) →
  ∃ h', H_for_each to_act (take_turn agents betting_round) h = (Ok tt, h') ∧
    game h' = g ∧
    players_who_acted h' = list_to_set to_act ∪ players_who_acted h ∧
    length (calls h') = (length (calls h) + length to_act)%nat.
Proof.
  intros Hag. revert h; induction to_act as [|p ps IH]; intros h Hg Hall; cbn [H_for_each].
  - exists h. run_H. split_and!; try done; try (simpl; lia); set_solver.
  - destruct (Hall p) as (Hf & Ha & [hole Hh] & b & Hb & Hle); [by left|]. subst g.
    destruct (Hag (length (calls h))) as [x Hx].
    destruct (take_turn_check_accepted agents betting_round p h hole b x) as [view Hturn];
      [done..|].
    run_H. rewrite Hturn.
    match goal with |- context [H_for_each ps _ ?h1] =>
      destruct (IH h1) as (h' & -> & ? & Hacted & Hlen) end.
    { done. }
    { intros q Hq. apply Hall. by right. }
    exists h'. split_and!; try done.
    + rewrite Hacted. cbn. set_solver.
    + rewrite Hlen. cbn. rewrite length_app. simpl. lia.
Qed.

Lemma size_below_roster (acted : gset string) (l : list string) (p0 : string) :
  NoDup l → p0 ∈ l → acted ⊆ list_to_set l ∖ {[p0]} → (size acted < length l)%nat.
Proof.
  intros Hnd Hp0 Hsub. apply subseteq_size in Hsub.
  rewrite size_difference in Hsub by set_solver.
  rewrite size_singleton, size_list_to_set in Hsub by done.
  destruct l; [by apply elem_of_nil in Hp0|]. simpl in *. lia.
Qed.

Lemma betting_spins_on_checks (agents : nat → Response) (betting_round : string)
    (g : TexasHoldem) (p0 : string) (c0 : Z) :
  (∀ n, ∃ x, agents n = Decides (mkPlayerAction CHECK x)) →
  current_bet g = 0 →
  NoDup (active_players g) →
  (2 ≤ length (not_folded g))%nat →
  (∀ p, p ∈ not_folded g →
     is_Some (chips g !! p) ∧ is_Some (hole_cards g !! p) ∧
     ∃ b, player_bets g !! p = Some b ∧ 0 ≤ b) →
  p0 ∈ not_folded g → chips g !! p0 = Some c0 → c0 ≤ 0 →
  ∀ passes h, game h = g → players_who_acted h ⊆ list_to_set (not_folded g) ∖ {[p0]} →
    ∃ h', betting agents betting_round passes h = (Ok false, h') ∧ game h' = g ∧
      players_who_acted h' ⊆ list_to_set (not_folded g) ∖ {[p0]}.
Proof.
  intros Hag Hcb Hnd Htwo Hwf Hp0 Hc0 Hle0.
  assert (NoDup (not_folded g)) as Hndf by (by apply NoDup_filter).
  induction passes as [|passes IH]; intros h Hg Hacted; cbn [betting].
  - exists h. done.
  - rewrite Hg. rewrite bool_decide_false by lia.
    destruct (players_to_act_run g (players_who_acted h) (not_folded g))
      as (to_act & -> & Hsub & Hin).
    { intros p Hp. destruct (Hwf p Hp) as (? & _ & b & -> & _). eauto. }
    assert (p0 ∉ to_act) as Hp0out.
    { intros (_ & c & Hc & Hpos & _)%Hin. rewrite Hc0 in Hc. injection Hc as <-. lia. }
    assert (∃ h', (H_for_each to_act (take_turn agents betting_round)
                   ≫= λ _ : (), betting agents betting_round passes) h = (Ok false, h')
                  ∧ game h' = g
                  ∧ players_who_acted h' ⊆ list_to_set (not_folded g) ∖ {[p0]}) as Hnext.
    { run_H.
      destruct (accepted_checks_change_nothing agents betting_round g to_act h Hag Hg)
        as (h1 & -> & Hg1 & Hacted1 & _).
      { intros p (Hp & _)%Hin. destruct (Hwf p Hp) as (_ & Hh & b & Hb & Hb0).
        apply list_elem_of_filter in Hp as [Hf Ha]. split_and!; try done.
        exists b. split; [done|lia]. }
      apply IH; [done|]. rewrite Hacted1.
      assert (∀ p, p ∈ to_act → p ∈ not_folded g) by (intros p (? & _)%Hin; done).
      set_solver. }
    rewrite (bool_decide_true (current_bet g = 0)) by done.
    rewrite (bool_decide_false (length (not_folded g) ≤ size (players_who_acted h))%nat).
    2:{ pose proof (size_below_roster _ _ _ Hndf Hp0 Hacted). lia. }
    by destruct (bool_decide (to_act = [])).
Qed.

(** X17.  A betting loop that starts with nothing to match, at least two
    players left and one of them without chips (all-in), and whose agents
    answer every question with a check, is never left.  The player without
    chips is never asked and so never counts as having acted, the others
    check and nothing is bet, and the test that ends a checked round, that as
    many players have acted as are left, cannot come true: however many
    passes are run, the loop has not ended and the table is unchanged. *)
Theorem checked_round_with_an_all_in_player_never_ends (agents : nat → Response)
    (betting_round : string) (h : Hand) (p0 : string) (c0 : Z) :
  (∀ n, ∃ x, agents n = Decides (mkPlayerAction CHECK x)) →
  current_bet (game h) = 0 →
  players_who_acted h = ∅ →
  NoDup (active_players (game h)) →
  (2 ≤ length (not_folded (game h)))%nat →
  (∀ p, p ∈ not_folded (game h) →
     is_Some (chips (game h) !! p) ∧ is_Some (hole_cards (game h) !! p) ∧
     ∃ b, player_bets (game h) !! p = Some b ∧ 0 ≤ b) →
  p0 ∈ not_folded (game h) → chips (game h) !! p0 = Some c0 → c0 ≤ 0 →
  ∀ passes,
    ∃ h', betting agents betting_round passes h = (Ok false, h') ∧ game h' = game h ∧
      p0 ∉ players_who_acted h'.
Proof.
  intros Hag Hcb Hacted Hnd Htwo Hwf Hp0 Hc0 Hle0 passes.
  destruct (betting_spins_on_checks agents betting_round (game h) p0 c0
              Hag Hcb Hnd Htwo Hwf Hp0 Hc0 Hle0 passes h eq_refl) as (h' & Hrun & Hg & Hsub).
  { rewrite Hacted. set_solver. }
  exists h'. split_and!; [done..|]. set_solver.
Qed.

Lemma checked_round_with_an_all_in_player_never_ends_witness :
  ∃ h', betting (always (Decides (mkPlayerAction CHECK 0))) "flop" 7 all_in_flop
        = (Ok false, h') ∧
    game h' = game all_in_flop ∧ "A" ∉ players_who_acted h'.
Proof.
  apply (checked_round_with_an_all_in_player_never_ends
           (always (Decides (mkPlayerAction CHECK 0))) "flop" all_in_flop "A" 0).
  - intros n. by exists 0.
  - reflexivity.
  - reflexivity.
  - by_compute.
  - vm_compute. lia.
  - intros p Hp. vm_compute in Hp.
    repeat (apply elem_of_cons in Hp as [->|Hp];
            [split_and!; [vm_compute; eauto|vm_compute; eauto|
                          eexists; split; [vm_compute; reflexivity|lia]]|]).
    by apply elem_of_nil in Hp.
  - by_compute.
  - by vm_compute.
  - lia.
Defined.

(** ** A round in which everybody gives up *)

Lemma process_action_fold (g : TexasHoldem) (player : string) (a : PlayerAction) :
  action a = FOLD → player ∉ folded_players g → player ∈ active_players g →
  ∃ view,
    process_action player a g
    = (Ok (Some view), set_folded_players ({[player]} ∪ folded_players g) g).
Proof.
  intros Ha Hf Hact. unfold process_action. run_M.
  rewrite eligible_not_rejected by done. rewrite Ha. cbn beta iota.
  match goal with |- context [_get_game_state None ?g1] =>
    destruct (_get_game_state_run None g1) as (view & -> & _) end.
  by exists view.
Qed.

Lemma take_turn_gives_up (agents : nat → Response) (betting_round player : string)
    (h : Hand) :
  gives_up (agents (length (calls h))) →
  player ∉ folded_players (game h) → player ∈ active_players (game h) →
  is_Some (hole_cards (game h) !! player) →
  ∃ h', take_turn agents betting_round player h = (Ok tt, h') ∧
    game h' = set_folded_players ({[player]} ∪ folded_players (game h)) (game h) ∧
    length (calls h') = S (length (calls h)).
Proof.
  intros Hgu Hf Ha [hole Hh]. unfold take_turn.
  rewrite bool_decide_false by done. unfold getitem. rewrite Hh.
  destruct (agents (length (calls h))) as [a| |]; cbn [game set_calls game_state
    hand_actions players_who_acted calls].
  - simpl in Hgu. unfold attempt, validate. rewrite Hgu. run_M.
    destruct (process_action_fold (game h) player a Hgu Hf Ha) as [view ->].
    eexists. split; [reflexivity|]. cbn. rewrite length_app. simpl. split; [done|lia].
  - unfold forced_fold.
    destruct (process_action_fold (game h) player (mkPlayerAction FOLD 0) eq_refl Hf Ha)
      as [view ->].
    eexists. split; [reflexivity|]. cbn. rewrite length_app. simpl. split; [done|lia].
  - unfold forced_fold.
    destruct (process_action_fold (game h) player (mkPlayerAction FOLD 0) eq_refl Hf Ha)
      as [view ->].
    eexists. split; [reflexivity|]. cbn. rewrite length_app. simpl. split; [done|lia].
Qed.

Lemma everybody_gives_up (agents : nat → Response) (betting_round : string)
    (to_act : list string) (h : Hand) :
  (∀ n, gives_up (agents n)) →
  NoDup to_act →
  (∀ p, p ∈ to_act →
     p ∉ folded_players (game h) ∧ p ∈ active_players (game h) ∧
     is_Some (hole_cards (game h) !! p)) →
  ∃ h', H_for_each to_act (take_turn agents betting_round) h = (Ok tt, h') ∧
    game h' = set_folded_players (folded_players (game h')) (game h) ∧
    (∀ p, p ∈ folded_players (game h') ↔ p ∈ to_act ∨ p ∈ folded_players (game h)) ∧
    length (calls h') = (length (calls h) + length to_act)%nat.
Proof.
  intros Hag. revert h; induction to_act as [|p ps IH]; intros h Hnd Hall; cbn [H_for_each].
  - exists h. run_H. split_and!; try done; try (simpl; lia); [by destruct (game h)|].
    intros p. rewrite elem_of_nil. tauto.
  - apply NoDup_cons in Hnd as [Hp Hnd].
    destruct (Hall p) as (Hf & Ha & Hh); [by left|].
    destruct (take_turn_gives_up agents betting_round p h (Hag _) Hf Ha Hh)
      as (h1 & Hturn & Hg1 & Hlen1).
    run_H. rewrite Hturn.
    destruct (IH h1 Hnd) as (h' & -> & Hg' & Hfolded & Hlen).
    { intros q Hq. destruct (Hall q) as (Hqf & Hqa & Hqh); [by right|].
      rewrite Hg1. cbn. split_and!; try done.
      rewrite elem_of_union, elem_of_singleton. intros [->|?]; done. }
    exists h'. split_and!; [done| | |].
    + rewrite Hg', Hg1. done.
    + intros q. rewrite Hfolded, Hg1. cbn.
      rewrite elem_of_cons, elem_of_union, elem_of_singleton. tauto.
    + rewrite Hlen, Hlen1. simpl. lia.
Qed.

Lemma showdown_with_nobody_left (g : TexasHoldem) :
  not_folded g = [] → _determine_winner g = (Raise ValueError, g).
Proof. intros Hnf. unfold _determine_winner. run_M. by rewrite Hnf. Qed.

Lemma sublist_full {A} (l1 l2 : list A) :
  l1 `sublist_of` l2 → NoDup l2 → (∀ x, x ∈ l2 → x ∈ l1) → l1 = l2.
Proof.
  induction 1 as [|x l1 l2 Hsub IH|x l1 l2 Hsub IH]; intros Hnd Hall.
  - done.
  - apply NoDup_cons in Hnd as [Hx Hnd]. f_equal. apply IH; [done|].
    intros y Hy. assert (y ∈ x :: l1) as Hin by (apply Hall; by right).
    apply elem_of_cons in Hin as [->|?]; done.
  - apply NoDup_cons in Hnd as [Hx Hnd]. exfalso. apply Hx.
    eapply elem_of_sublist; [|exact Hsub]. apply Hall. by left.
Qed.

Lemma filter_none {A} (P : A → Prop) `{∀ x, Decision (P x)} (l : list A) :
  (∀ x, x ∈ l → ¬ P x) → filter P l = [].
Proof.
  intros Hall. destruct (filter P l) as [|x rest] eqn:E; [done|].
  assert (x ∈ filter P l) as [? ?]%list_elem_of_filter by (rewrite E; by left).
  by destruct (Hall x).
Qed.

(** X18.  A betting loop that starts with nothing to match and two or more
    funded players left, none of whom has acted, asks every one of them in
    the same pass, also those after a player who has just folded.  When each
    answer is a fold, a timeout or a failure of the agent, every player ends
    up folded: the loop is left on the second pass with nobody in the hand,
    stacks and pot as they were, the hand counts as complete, and the
    showdown that follows raises ValueError without paying the pot to
    anyone. *)
Theorem round_where_everybody_gives_up_has_no_winner (agents : nat → Response)
    (betting_round : string) (h : Hand) (passes : nat) :
  (∀ n, gives_up (agents n)) →
  current_bet (game h) = 0 →
  players_who_acted h = ∅ →
  NoDup (active_players (game h)) →
  (2 ≤ length (not_folded (game h)))%nat →
  (∀ p, p ∈ not_folded (game h) →
     (∃ c, chips (game h) !! p = Some c ∧ 0 < c) ∧
     is_Some (player_bets (game h) !! p) ∧ is_Some (hole_cards (game h) !! p)) →
  (2 ≤ passes)%nat →
  ∃ h', betting agents betting_round passes h = (Ok true, h') ∧
    game h' = set_folded_players (folded_players (game h')) (game h) ∧
    not_folded (game h') = [] ∧
    is_hand_complete (game h') = true ∧
    _determine_winner (game h') = (Raise ValueError, game h') ∧
    length (calls h') = (length (calls h) + length (not_folded (game h)))%nat.
Proof.
  intros Hag Hcb Hacted Hnd Htwo Hwf Hpasses.
  destruct passes as [|[|passes]]; [lia..|]. cbn [betting].
  rewrite bool_decide_false by lia.
  destruct (players_to_act_run (game h) (players_who_acted h) (not_folded (game h)))
    as (to_act & -> & Hsub & Hin).
  { intros p Hp. destruct (Hwf p Hp) as ((c & -> & _) & ? & _). eauto. }
  assert (NoDup (not_folded (game h))) as Hndf by (by apply NoDup_filter).
  assert (to_act = not_folded (game h)) as ->.
  { apply sublist_full; [done..|]. intros p Hp. apply Hin. split; [done|].
    destruct (Hwf p Hp) as ((c & Hc & Hpos) & _). exists c. split_and!; [done..|].
    rewrite decide_True by done. rewrite Hacted. set_solver. }
  rewrite bool_decide_false by (destruct (not_folded (game h)); [simpl in Htwo; lia|done]).
  run_H.
  destruct (everybody_gives_up agents betting_round (not_folded (game h)) h Hag Hndf)
    as (h1 & -> & Hg1 & Hfolded & Hlen).
  { intros p Hp. destruct (Hwf p Hp) as (_ & _ & Hh).
    apply list_elem_of_filter in Hp as [? ?]. done. }
  assert (not_folded (game h1) = []) as Hnone.
  { unfold not_folded. rewrite Hg1. cbn [active_players folded_players set_folded_players].
    apply filter_none. intros p Hp Hnf. apply Hnf, Hfolded.
    destruct (decide (p ∈ folded_players (game h))) as [?|Hpf]; [by right|left].
    by apply list_elem_of_filter. }
  cbn [betting]. rewrite Hnone. simpl.
  exists h1. split_and!; try done.
  - unfold is_hand_complete. rewrite Hnone. done.
  - by apply showdown_with_nobody_left.
Qed.

Lemma round_where_everybody_gives_up_has_no_winner_witness :
  ∃ h', betting (always TimesOut) "flop" 2 three_way_flop = (Ok true, h') ∧
    game h' = set_folded_players (folded_players (game h')) (game three_way_flop) ∧
    not_folded (game h') = [] ∧
    is_hand_complete (game h') = true ∧
    _determine_winner (game h') = (Raise ValueError, game h') ∧
    length (calls h')
    = (length (calls three_way_flop) + length (not_folded (game three_way_flop)))%nat.
Proof.
  apply (round_where_everybody_gives_up_has_no_winner (always TimesOut) "flop"
           three_way_flop 2).
  - intros n. exact I.
  - reflexivity.
  - reflexivity.
  - by_compute.
  - vm_compute. lia.
  - intros p Hp. vm_compute in Hp.
    repeat (apply elem_of_cons in Hp as [->|Hp];
            [split_and!; [eexists; split; [vm_compute; reflexivity|lia]
                         |vm_compute; eauto|vm_compute; eauto]|]).
    by apply elem_of_nil in Hp.
  - lia.
Defined.

(** ** A round in which everybody calls *)

Lemma take_turn_call (agents : nat → Response) (betting_round player : string)
    (h : Hand) (hole : list Card) (c b x : Z) :
  player ∉ folded_players (game h) → player ∈ active_players (game h) →
  hole_cards (game h) !! player = Some hole →
  chips (game h) !! player = Some c → player_bets (game h) !! player = Some b →
  agents (length (calls h)) = Decides (mkPlayerAction CALL x) →
  ∃ view,
    take_turn agents betting_round player h
    = (Ok tt,
       mkHand
         (set_pot (pot (game h) + Z.min (current_bet (game h) - b) c)
            (set_player_bets
               (<[player := b + Z.min (current_bet (game h) - b) c]> (player_bets (game h)))
               (set_chips (<[player := c - Z.min (current_bet (game h) - b) c]>
                             (chips (game h))) (game h))))
         view
         (hand_actions h ++ [mkActionLog player CALL x betting_round None])
         ({[player]} ∪ players_who_acted h)
         (calls h ++ [(player, game_state h, hole)])) ∧
    GameState.pot_size view = pot (game h) + Z.min (current_bet (game h) - b) c ∧
    GameState.community_cards view = community_cards (game h).
Proof.
  intros Hf Ha Hh Hc Hb Hag. unfold take_turn.
  rewrite bool_decide_false by done. unfold getitem. rewrite Hh, Hag.
  cbn [game set_calls]. unfold attempt, validate. cbn [action]. run_M.
  change (process_action player (mkPlayerAction CALL x) (game h))
    with (process_action player (mkPlayerAction CALL 0) (game h)).
  destruct (process_action_call_view (game h) player c b Hf Ha Hc Hb)
    as (view & g' & Hg' & Hview & ->).
  destruct (_get_game_state_run None g') as (view' & Hview' & _ & _ & Hpot & _ & Hcc & _).
  rewrite Hview in Hview'. injection Hview' as <-.
  cbn. exists view. rewrite Hpot, Hcc, Hg'. done.
Qed.

Lemma everybody_calls (agents : nat → Response) (betting_round : string)
    (to_act : list string) (g : TexasHoldem) (h : Hand) :
  (∀ n, ∃ x, agents n = Decides (mkPlayerAction CALL x)) →
  NoDup to_act →
  active_players (game h) = active_players g → folded_players (game h) = folded_players g →
  current_bet (game h) = current_bet g → hole_cards (game h) = hole_cards g →
  (∀ p, p ∈ to_act →
     p ∉ folded_players g ∧ p ∈ active_players g ∧ is_Some (hole_cards g !! p) ∧
     ∃ c b, chips (game h) !! p = Some c ∧ 0 ≤ c ∧
            player_bets (game h) !! p = Some b ∧ b ≤ current_bet g) →
  ∃ h', H_for_each to_act (take_turn agents betting_round) h = (Ok tt, h') ∧
    game h' = set_pot (pot (game h'))
                (set_player_bets (player_bets (game h'))
                   (set_chips (chips (game h')) (game h))) ∧
    pot (game h) ≤ pot (game h') ∧
    on_table (game h') = on_table (game h) ∧
    (GameState.pot_size (game_state h) = pot (game h) ∧
     GameState.community_cards (game_state h) = community_cards (game h) →
     GameState.pot_size (game_state h') = pot (game h') ∧
     GameState.community_cards (game_state h') = community_cards (game h')) ∧
    players_who_acted h' = list_to_set to_act ∪ players_who_acted h ∧
    (∀ p, p ∉ to_act →
       chips (game h') !! p = chips (game h) !! p ∧
       player_bets (game h') !! p = player_bets (game h) !! p) ∧
    (∀ p, p ∈ to_act →
       ∃ c b c' b', chips (game h) !! p = Some c ∧ player_bets (game h) !! p = Some b ∧
                    chips (game h') !! p = Some c' ∧ player_bets (game h') !! p = Some b' ∧
                    c' + b' = c + b ∧
                    0 ≤ c' ∧ b' ≤ current_bet g ∧ (b' = current_bet g ∨ c' = 0)).
Proof.
  intros Hag. revert h; induction to_act as [|p ps IH];
    intros h Hnd Hact Hfold Hcb Hhole Hall; cbn [H_for_each].
  - exists h. run_H. split_and!; try done; [by destruct (game h)|set_solver|].
    by intros ? ?%elem_of_nil.
  - apply NoDup_cons in Hnd as [Hp Hnd].
    destruct (Hall p) as (Hf & Ha & [hole Hh] & c & b & Hc & Hc0 & Hb & Hble); [by left|].
    destruct (Hag (length (calls h))) as [x Hx].
    destruct (take_turn_call agents betting_round p h hole c b x)
      as (view & Hturn & Hvpot & Hvcc);
      [by rewrite Hfold|by rewrite Hact|by rewrite Hhole|done..|].
    run_H. rewrite Hturn. rewrite Hcb in *.
    set (m := Z.min (current_bet g - b) c) in *.
    assert (0 ≤ m) as Hm by (subst m; lia).
    match goal with |- context [H_for_each ps _ ?x] => set (h1 := x) end.
    destruct (IH h1 Hnd)
      as (h' & -> & Hg' & Hpot' & Hon' & Hview' & Hacted' & Hrest & Hdone); [done..| |].
    { intros q Hq. destruct (Hall q) as (? & ? & ? & cq & bq & Hcq & ? & Hbq & ?); [by right|].
      split_and!; [done..|]. exists cq, bq. subst h1. cbn.
      rewrite !lookup_insert_ne by (intros ->; done). done. }
    exists h'. split_and!; try done.
    + subst h1. cbn in Hpot'. lia.
    + rewrite Hon'. subst h1. cbn. unfold on_table. cbn.
      rewrite (stacks_insert _ p c) by done. lia.
    + intros _. apply Hview'. subst h1. cbn. done.
    + rewrite Hacted'. subst h1. cbn. set_solver.
    + intros q [Hne Hq]%not_elem_of_cons. destruct (Hrest q Hq) as [-> ->].
      subst h1. cbn. rewrite !lookup_insert_ne by done. done.
    + intros q [->|Hq]%elem_of_cons.
      * destruct (Hrest p Hp) as [-> ->]. subst h1. cbn. rewrite !lookup_insert_eq.
        exists c, b. eexists _, _. split_and!; [done..| | | |]; subst m; lia.
      * destruct (Hdone q Hq) as (cq & bq & cq' & bq' & Hcq & Hbq & Hrestq).
        exists cq, bq, cq', bq'. subst h1. cbn in Hcq, Hbq.
        rewrite !lookup_insert_ne in Hcq, Hbq by (intros ->; done). done.
Qed.

Lemma nobody_to_act (g : TexasHoldem) (acted : gset string) (active to_act : list string) :
  players_to_act g acted active = Ok to_act →
  (∀ p, p ∈ active → is_Some (chips g !! p) ∧ is_Some (player_bets g !! p)) →
  (∀ p c, p ∈ active → chips g !! p = Some c → 0 < c →
     if decide (current_bet g = 0) then p ∈ acted
     else ∃ b, player_bets g !! p = Some b ∧ current_bet g ≤ b) →
  to_act = [].
Proof.
  intros Hrun Hwf Hnone.
  destruct (players_to_act_run g acted active Hwf) as (to_act' & Hrun' & _ & Hin).
  rewrite Hrun in Hrun'. injection Hrun' as <-.
  destruct to_act as [|p rest]; [done|]. exfalso.
  destruct (proj1 (Hin p)) as (Hp & c & Hc & Hpos & Hq); [by left|].
  specialize (Hnone p c Hp Hc Hpos). destruct (decide (current_bet g = 0)); [done|].
  destruct Hq as (b & Hb & Hlt), Hnone as (b' & Hb' & Hle).
  rewrite Hb in Hb'. injection Hb' as <-. lia.
Qed.

Lemma betting_everybody_calls (agents : nat → Response) (betting_round : string)
    (h : Hand) (passes : nat) :
  (∀ n, ∃ x, agents n = Decides (mkPlayerAction CALL x)) →
  players_who_acted h = ∅ →
  NoDup (active_players (game h)) →
  (2 ≤ length (not_folded (game h)))%nat →
  (∀ p, p ∈ not_folded (game h) →
     is_Some (hole_cards (game h) !! p) ∧
     ∃ c b, chips (game h) !! p = Some c ∧ 0 < c ∧
            player_bets (game h) !! p = Some b ∧ b ≤ current_bet (game h)) →
  (2 ≤ passes)%nat →
  ∃ h', betting agents betting_round passes h = (Ok true, h') ∧
    game h' = set_pot (pot (game h'))
                (set_player_bets (player_bets (game h'))
                   (set_chips (chips (game h')) (game h))) ∧
    pot (game h) ≤ pot (game h') ∧
    on_table (game h') = on_table (game h) ∧
    (GameState.pot_size (game_state h) = pot (game h) ∧
     GameState.community_cards (game_state h) = community_cards (game h) →
     GameState.pot_size (game_state h') = pot (game h') ∧
     GameState.community_cards (game_state h') = community_cards (game h')) ∧
    (∀ p, p ∈ not_folded (game h) →
       ∃ c b c' b', chips (game h) !! p = Some c ∧ player_bets (game h) !! p = Some b ∧
                    chips (game h') !! p = Some c' ∧ player_bets (game h') !! p = Some b' ∧
                    c' + b' = c + b ∧
                    0 ≤ c' ∧ b' ≤ current_bet (game h) ∧
                    (b' = current_bet (game h) ∨ c' = 0)) ∧
    (∀ p, p ∉ not_folded (game h) → chips (game h') !! p = chips (game h) !! p).
Proof.
  intros Hag Hacted Hnd Htwo Hwf Hpasses.
  destruct passes as [|[|passes]]; [lia..|].
  assert (NoDup (not_folded (game h))) as Hndf by (by apply NoDup_filter).
  assert (∀ p, p ∈ not_folded (game h) →
            is_Some (chips (game h) !! p) ∧ is_Some (player_bets (game h) !! p)) as Hwf2.
  { intros p Hp. destruct (Hwf p Hp) as (_ & c & b & -> & _ & -> & _). eauto. }
  destruct (players_to_act_run (game h) (players_who_acted h) (not_folded (game h)) Hwf2)
    as (to_act & Hrun & Hsub & Hin).
  assert (∀ p, p ∈ not_folded (game h) → p ∉ to_act →
            current_bet (game h) ≠ 0 ∧
            ∃ c, chips (game h) !! p = Some c ∧ 0 < c ∧
                 player_bets (game h) !! p = Some (current_bet (game h))) as Hsettled.
  { intros p Hp Hout. destruct (Hwf p Hp) as (_ & c & b & Hc & Hpos & Hb & Hle).
    destruct (decide (current_bet (game h) = 0)) as [Hz|Hnz].
    - exfalso. apply Hout, Hin. split; [done|]. exists c. split_and!; [done..|].
      rewrite Hacted. set_solver.
    - split; [done|]. exists c. split_and!; [done..|].
      destruct (decide (b = current_bet (game h))) as [->|Hne]; [done|].
      exfalso. apply Hout, Hin. split; [done|]. exists c. split_and!; [done..|].
      exists b. split; [done|lia]. }
  cbn [betting]. rewrite bool_decide_false by lia. rewrite Hrun.
  destruct (decide (to_act = [])) as [->|Hne].
  - (* everybody has matched the bet already *)
    destruct (not_folded (game h)) as [|p0 rest] eqn:Hnf; [simpl in Htwo; lia|].
    destruct (Hsettled p0) as [Hnz _]; [by left|apply not_elem_of_nil|].
    rewrite bool_decide_true by done. rewrite bool_decide_false by done.
    exists h. split_and!; try done; [by destruct (game h)|]. intros p Hp.
    destruct (Hsettled p Hp) as (_ & c & Hc & Hpos & Hb); [apply not_elem_of_nil|].
    exists c, (current_bet (game h)), c, (current_bet (game h)).
    split_and!; [done..|lia|lia|by left].
  - rewrite bool_decide_false by done. run_H.
    destruct (everybody_calls agents betting_round to_act (game h) h Hag)
      as (h1 & -> & Hg1 & Hpot1 & Hon1 & Hview1 & Hacted1 & Hrest & Hdone); [|done..| |].
    { eapply sublist_NoDup; done. }
    { intros p (Hp & _)%Hin. destruct (Hwf p Hp) as (Hh & c & b & Hc & Hpos & Hb & Hle).
      apply list_elem_of_filter in Hp as [? ?].
      split_and!; [done..|]. exists c, b. split_and!; [done|lia|done..]. }
    assert (not_folded (game h1) = not_folded (game h)) as Hnf1.
    { rewrite Hg1. done. }
    assert (current_bet (game h1) = current_bet (game h)) as Hcb1 by (by rewrite Hg1).
    assert (∀ p, p ∈ not_folded (game h) →
              ∃ c b c' b', chips (game h) !! p = Some c ∧ player_bets (game h) !! p = Some b ∧
                chips (game h1) !! p = Some c' ∧ player_bets (game h1) !! p = Some b' ∧
                c' + b' = c + b ∧
                0 ≤ c' ∧ b' ≤ current_bet (game h) ∧
                (b' = current_bet (game h) ∨ c' = 0)) as Hall1.
    { intros p Hp. destruct (decide (p ∈ to_act)) as [Hpin|Hpout].
      - by apply Hdone.
      - destruct (Hrest p Hpout) as [-> ->].
        destruct (Hsettled p Hp Hpout) as (_ & c & Hc & Hpos & Hb).
        exists c, (current_bet (game h)), c, (current_bet (game h)).
        split_and!; [done..|lia|lia|by left]. }
    cbn [betting]. rewrite Hnf1. rewrite bool_decide_false by lia.
    destruct (players_to_act (game h1) (players_who_acted h1) (not_folded (game h)))
      as [to_act2|e] eqn:Hrun2.
    2:{ destruct (players_to_act_run (game h1) (players_who_acted h1) (not_folded (game h)))
          as (? & Hrun2' & _).
        { intros p Hp. destruct (Hall1 p Hp) as (c & b & c' & b' & _ & _ & -> & -> & _). eauto. }
        rewrite Hrun2 in Hrun2'. done. }
    assert (to_act2 = []) as ->.
    { eapply nobody_to_act; [exact Hrun2| |].
      - intros p Hp. destruct (Hall1 p Hp) as (c & b & c' & b' & _ & _ & -> & -> & _). eauto.
      - intros p c Hp Hc Hpos. rewrite Hcb1.
        destruct (decide (current_bet (game h) = 0)) as [Hz|Hnz].
        + rewrite Hacted1. destruct (decide (p ∈ to_act)) as [?|Hpout]; [set_solver|].
          by destruct (Hsettled p Hp Hpout).
        + destruct (Hall1 p Hp) as (c0 & b0 & c' & b' & _ & _ & Hc' & Hb' & _ & _ & _ & Hor).
          rewrite Hc in Hc'. injection Hc' as <-. exists b'. split; [done|].
          destruct Hor as [->|?]; lia. }
    rewrite bool_decide_true by done. rewrite Hcb1.
    assert (current_bet (game h) = 0 →
            (length (not_folded (game h)) ≤ size (players_who_acted h1))%nat) as Hsz.
    { intros Hz.
      assert (to_act = not_folded (game h)) as Heq.
      { apply sublist_full; [done..|]. intros p Hp.
        destruct (decide (p ∈ to_act)) as [?|Hpout]; [done|].
        by destruct (Hsettled p Hp Hpout). }
      rewrite Hacted1, Hacted, Heq, union_empty_r_L, size_list_to_set by done. lia. }
    assert (∀ p, p ∉ not_folded (game h) → chips (game h1) !! p = chips (game h) !! p)
      as Hout1.
    { intros p Hp. apply Hrest. intros (? & _)%Hin. done. }
    exists h1.
    destruct (bool_decide (current_bet (game h) = 0)) eqn:Hz.
    + apply bool_decide_eq_true in Hz. rewrite bool_decide_true by auto.
      split_and!; done.
    + split_and!; done.
Qed.

(** X19.  A betting loop with two or more funded players left, none of whom
    has put in more than the bet to match, and whose agents answer every
    question with a call, is left within two passes.  Nobody has folded, the
    bet to match is as it was, the chips on the table are the same, and every
    player left has either matched the bet or run out of chips. *)
Theorem round_where_everybody_calls_ends (agents : nat → Response)
    (betting_round : string) (h : Hand) (passes : nat) :
  (∀ n, ∃ x, agents n = Decides (mkPlayerAction CALL x)) →
  players_who_acted h = ∅ →
  NoDup (active_players (game h)) →
  (2 ≤ length (not_folded (game h)))%nat →
  (∀ p, p ∈ not_folded (game h) →
     is_Some (hole_cards (game h) !! p) ∧
     ∃ c b, chips (game h) !! p = Some c ∧ 0 < c ∧
            player_bets (game h) !! p = Some b ∧ b ≤ current_bet (game h)) →
  (2 ≤ passes)%nat →
  ∃ h', betting agents betting_round passes h = (Ok true, h') ∧
    not_folded (game h') = not_folded (game h) ∧
    current_bet (game h') = current_bet (game h) ∧
    on_table (game h') = on_table (game h) ∧
    (∀ p, p ∈ not_folded (game h) →
       ∃ c' b', chips (game h') !! p = Some c' ∧ player_bets (game h') !! p = Some b' ∧
                0 ≤ c' ∧ (b' = current_bet (game h) ∨ c' = 0)).
Proof.
  intros Hag Hacted Hnd Htwo Hwf Hpasses.
  destruct (betting_everybody_calls agents betting_round h passes Hag Hacted Hnd Htwo Hwf
              Hpasses) as (h' & Hrun & Hg' & _ & Hon & _ & Hall & _).
  exists h'. split_and!; [done| | |done|].
  - rewrite Hg'. done.
  - rewrite Hg'. done.
  - intros p Hp. destruct (Hall p Hp) as (c & b & c' & b' & _ & _ & ? & ? & _ & ? & _ & ?).
    eauto 10.
Qed.

Lemma round_where_everybody_calls_ends_witness :
  ∃ h', betting (always (Decides (mkPlayerAction CALL 0))) "preflop" 2 heads_up_hand
        = (Ok true, h') ∧
    not_folded (game h') = not_folded (game heads_up_hand) ∧
    current_bet (game h') = current_bet (game heads_up_hand) ∧
    on_table (game h') = on_table (game heads_up_hand) ∧
    (∀ p, p ∈ not_folded (game heads_up_hand) →
       ∃ c' b', chips (game h') !! p = Some c' ∧ player_bets (game h') !! p = Some b' ∧
                0 ≤ c' ∧ (b' = current_bet (game heads_up_hand) ∨ c' = 0)).
Proof.
  apply (round_where_everybody_calls_ends (always (Decides (mkPlayerAction CALL 0)))
           "preflop" heads_up_hand 2).
  - intros n. by exists 0.
  - reflexivity.
  - by_compute.
  - vm_compute. lia.
  - intros p Hp. vm_compute in Hp.
    apply elem_of_cons in Hp as [->|Hp].
    { split; [vm_compute; eauto|]. exists 90, 10.
      split_and!; [by vm_compute|lia|by vm_compute|vm_compute; discriminate]. }
    apply elem_of_cons in Hp as [->|Hp].
    { split; [vm_compute; eauto|]. exists 95, 5.
      split_and!; [by vm_compute|lia|by vm_compute|vm_compute; discriminate]. }
    by apply elem_of_nil in Hp.
  - lia.
Defined.

(** ** A whole hand in which everybody calls *)

Lemma start_hand_view (shuffled : list Card) (g g' : TexasHoldem) (view : GameState.t) :
  start_hand shuffled g = (Ok view, g') →
  GameState.pot_size view = pot g' ∧
  GameState.community_cards view = community_cards g'.
Proof.
  unfold start_hand. run_M.
  destruct (reset_table shuffled g) as [[[]|?] ga]; [|done]. cbn beta iota.
  destruct (deal_hole_cards ga) as [[[]|?] gb]; [|done]. cbn beta iota.
  destruct (post_blinds gb) as [[[]|?] gc]; [|done]. cbn beta iota.
  destruct (_get_game_state_run (Some "preflop") gc) as (v & -> & _ & _ & Hpot & _ & Hcc & _).
  by intros [= <- <-].
Qed.

Lemma start_hand_everybody_in (shuffled : list Card) (g : TexasHoldem) :
  NoDup (players g) →
  (2 ≤ length (players g))%nat →
  (2 * length (players g) ≤ length shuffled)%nat →
  0 ≤ small_blind g ≤ big_blind g →
  (∀ p, p ∈ players g → ∃ c, chips g !! p = Some c ∧ big_blind g < c) →
  ∃ view g1,
    start_hand shuffled g = (Ok view, g1) ∧
    players g1 = players g ∧ active_players g1 = players g ∧
    folded_players g1 = ∅ ∧ community_cards g1 = [] ∧
    dealer_position g1 = dealer_position g ∧
    deck g1 = Some (take (length shuffled - 2 * length (players g)) shuffled) ∧
    current_bet g1 = big_blind g ∧ 0 ≤ pot g1 ∧
    on_table g1 = stacks (chips g) ∧
    GameState.pot_size view = pot g1 ∧ GameState.community_cards view = [] ∧
    (∀ p, p ∈ players g →
       is_Some (hole_cards g1 !! p) ∧
       ∃ c0 c b, chips g !! p = Some c0 ∧ chips g1 !! p = Some c ∧
                 player_bets g1 !! p = Some b ∧ c + b = c0 ∧ 0 ≤ b ≤ big_blind g) ∧
    (∀ p, p ∉ players g → chips g1 !! p = chips g !! p).
Proof.
  intros Hnd Htwo Hdeck Hblinds Hfunded.
  assert (∀ p, p ∈ players g → is_Some (chips g !! p)) as Hall.
  { intros p Hp. destruct (Hfunded p Hp) as (c & -> & _). eauto. }
  assert (with_chips (chips g) (players g) = Ok (players g)) as Hactive.
  { apply with_chips_funded. intros p Hp. destruct (Hfunded p Hp) as (c & Hc & ?).
    exists c. split; [done|lia]. }
  destruct (start_hand_parts shuffled g Hall Hdeck)
    as (active & g2 & g3 & view & Hactive' & Hrun2 & Hg2 & Hpost & Hg3 & Hstart).
  rewrite Hactive in Hactive'. injection Hactive' as <-.
  set (ga := mkTexasHoldem _ _ _ _ _ _ _ _ _ _ _ _ _ _) in *.
  destruct (for_each_deal_to_hands (players g) ga shuffled eq_refl Hnd Hdeck)
    as (g2' & Hrun2' & Hdk & _ & _).
  rewrite Hrun2 in Hrun2'. injection Hrun2' as <-.
  destruct (start_hand_run shuffled g Hall Hdeck)
    as (view1 & g1 & Hstart1 & Hon & _ & _ & _ & _ & _ & Hhole & _).
  rewrite Hstart in Hstart1. injection Hstart1 as <- <-.
  destruct (start_hand_view shuffled g g3 view Hstart) as [Hvpot Hvcc].
  destruct (start_hand_blinds shuffled g Hall Hdeck Hnd)
    as (view2 & g4 & active2 & Hstart2 & Hact2 & Hactive2 & _ & Hbig).
  rewrite Hstart in Hstart2. injection Hstart2 as <- <-.
  rewrite Hactive in Hactive2. injection Hactive2 as <-.
  destruct (Hbig Htwo)
    as (sb & bb & cs & cb & Hsbi & Hbbi & Hne & Hcs & Hcb & Hchips & Hbsb & Hbbb & Hbother
        & Hpot & Hcbet).
  assert (sb ∈ players g ∧ bb ∈ players g) as [Hsbp Hbbp].
  { split; eapply list_elem_of_lookup_2; done. }
  destruct (Hfunded sb Hsbp) as (cs' & Hcs' & Hcsbig).
  rewrite Hcs in Hcs'. injection Hcs' as <-.
  destruct (Hfunded bb Hbbp) as (cb' & Hcb' & Hcbbig).
  rewrite Hcb in Hcb'. injection Hcb' as <-.
  assert (players g3 = players g ∧ folded_players g3 = ∅ ∧ community_cards g3 = []
          ∧ dealer_position g3 = dealer_position g ∧ deck g3 = deck g2)
    as (Hp3 & Hf3 & Hc3 & Hd3 & Hdk3).
  { rewrite Hg3. cbn. rewrite Hg2. cbn. done. }
  exists view, g3. split_and!; try done.
  - by rewrite Hdk3.
  - rewrite Hpot. lia.
  - by rewrite Hvcc.
  - intros p Hp. split; [apply Hhole; by rewrite Hact2|].
    destruct (Hfunded p Hp) as (c0 & Hc0 & Hbig0). exists c0.
    destruct (decide (p = bb)) as [->|Hnbb].
    { rewrite Hcb in Hc0. injection Hc0 as <-.
      eexists _, _. rewrite Hchips, lookup_insert_eq. split_and!; [done|done|exact Hbbb|lia..]. }
    destruct (decide (p = sb)) as [->|Hnsb].
    { rewrite Hcs in Hc0. injection Hc0 as <-.
      eexists _, _. rewrite Hchips, lookup_insert_ne, lookup_insert_eq by done.
      split_and!; [done|done|exact Hbsb|lia..]. }
    exists c0, 0. rewrite Hchips, !lookup_insert_ne by done.
    split_and!; [done|done|by apply Hbother|lia..].
  - intros p Hp. rewrite Hchips, !lookup_insert_ne; [done|by intros ->..].
Qed.

Lemma betting_keeps_everybody_in (agents : nat → Response) (betting_round : string)
    (passes : nat) (g0 : TexasHoldem) (h : Hand) :
  (∀ n, ∃ x, agents n = Decides (mkPlayerAction CALL x)) →
  NoDup (players g0) → (2 ≤ length (players g0))%nat → (2 ≤ passes)%nat →
  players_who_acted h = ∅ →
  everybody_in g0 h →
  (∀ p, p ∈ players g0 →
     ∃ c b, chips (game h) !! p = Some c ∧ player_bets (game h) !! p = Some b ∧
            b ≤ current_bet (game h) ∧ current_bet (game h) < c + b) →
  ∃ h', betting agents betting_round passes h = (Ok true, h') ∧
    everybody_in g0 h' ∧
    community_cards (game h') = community_cards (game h) ∧
    deck (game h') = deck (game h) ∧
    (∀ p, p ∈ players g0 →
       ∃ c b, chips (game h) !! p = Some c ∧ player_bets (game h) !! p = Some b ∧
              chips (game h') !! p = Some (c + b - current_bet (game h))) ∧
    (∀ p, p ∉ players g0 → chips (game h') !! p = chips (game h) !! p).
Proof.
  intros Hag Hnd Htwo Hpasses Hacted
    (Hp & Ha & Hf & Hd & Hpot & Hon & Hvpot & Hvcc & Hin) Hbets.
  assert (not_folded (game h) = players g0) as Hnf.
  { rewrite not_folded_all by done. done. }
  destruct (betting_everybody_calls agents betting_round h passes Hag Hacted)
    as (h' & Hrun & Hg' & Hpot' & Hon' & Hview' & Hall' & Hout');
    [by rewrite Ha|by rewrite Hnf| |done|].
  { rewrite Hnf. intros p Hpin. destruct (Hin p Hpin) as (Hh & c & Hc & Hpos).
    destruct (Hbets p Hpin) as (c' & b & Hc' & Hb & Hle & _).
    rewrite Hc in Hc'. injection Hc' as <-. split; [done|]. exists c, b. done. }
  exists h'. split; [done|].
  assert (players (game h') = players (game h) ∧
          active_players (game h') = active_players (game h) ∧
          folded_players (game h') = folded_players (game h) ∧
          dealer_position (game h') = dealer_position (game h) ∧
          hole_cards (game h') = hole_cards (game h) ∧
          community_cards (game h') = community_cards (game h) ∧
          deck (game h') = deck (game h)) as (Hp' & Ha' & Hf' & Hd' & Hh' & Hcc' & Hdk').
  { rewrite Hg'. done. }
  assert (∀ p, p ∈ players g0 →
            ∃ c b, chips (game h) !! p = Some c ∧ player_bets (game h) !! p = Some b ∧
                   chips (game h') !! p = Some (c + b - current_bet (game h)) ∧
                   0 < c + b - current_bet (game h)) as Hchips.
  { intros p Hpin. destruct (Hbets p Hpin) as (c & b & Hc & Hb & Hle & Hlt).
    destruct (Hall' p)
      as (c0 & b0 & c' & b' & Hc0 & Hb0 & Hc' & Hb' & Hsum & Hc'0 & Hb'le & Hor);
      [by rewrite Hnf|].
    rewrite Hc in Hc0. injection Hc0 as <-. rewrite Hb in Hb0. injection Hb0 as <-.
    exists c, b. split_and!; [done..| |lia]. rewrite Hc'. f_equal. lia. }
  split_and!; [|done..| |].
  - unfold everybody_in. rewrite Hp', Ha', Hf', Hd', Hon'.
    split_and!; try done; [lia|by apply Hview'..|].
    intros p Hpin. rewrite Hh'. destruct (Hin p Hpin) as (Hh & _). split; [done|].
    destruct (Hchips p Hpin) as (c & b & _ & _ & Hc' & Hpos). eauto.
  - intros p Hpin. destruct (Hchips p Hpin) as (c & b & ? & ? & ? & _). eauto.
  - intros p Hpout. apply Hout'. by rewrite Hnf.
Qed.

Lemma next_street_run (g0 : TexasHoldem) (h : Hand) (cards : list Card) :
  everybody_in g0 h →
  deck (game h) = Some cards → deals_street (game h) →
  (street_size (game h) ≤ length cards)%nat →
  ∃ h1, next_street h = (Ok tt, h1) ∧
    everybody_in g0 h1 ∧
    community_cards (game h1)
    = community_cards (game h) ++ take (street_size (game h)) (reverse cards) ∧
    deck (game h1) = Some (take (length cards - street_size (game h)) cards) ∧
    current_bet (game h1) = 0 ∧
    (∀ p, p ∈ players g0 → player_bets (game h1) !! p = Some 0) ∧
    chips (game h1) = chips (game h).
Proof.
  intros (Hp & Ha & Hf & Hd & Hpot & Hon & Hvpot & Hvcc & Hin) Hdk Hs Hlen.
  destruct (advance_street_run (game h) cards Hdk Hs) as [Hok _].
  destruct (Hok Hlen)
    as (view & g' & Hrun & Hcc' & Hdk' & Hbets' & Hcb' & Hpot' & Hchips' & Hhole' & Hf' & Ha'
        & _ & Hvcc' & _ & Hvpot').
  assert (players g' = players (game h) ∧ dealer_position g' = dealer_position (game h))
    as [Hp' Hd'].
  { pose proof (advance_changes (game h) _ _ Hrun) as ->. done. }
  unfold next_street. run_H. rewrite Hrun. cbn.
  eexists. split; [reflexivity|]. cbn. split_and!; try done.
  - unfold everybody_in. cbn. rewrite Hp', Ha', Hf', Hd', Hpot', Hhole', Hchips'.
    split_and!; try done.
    unfold on_table in *. by rewrite Hchips', Hpot'.
  - intros p Hpin. rewrite Hbets'. apply lookup_zero_bets. by rewrite Hp.
Qed.

Lemma everybody_in_not_complete (g0 : TexasHoldem) (h : Hand) :
  (2 ≤ length (players g0))%nat → everybody_in g0 h → is_hand_complete (game h) = false.
Proof.
  intros Htwo (_ & Ha & Hf & _). unfold is_hand_complete.
  rewrite not_folded_all, Ha by done. apply bool_decide_false. lia.
Qed.

Lemma play_round_street (agents : nat → Response) (passes : nat) (g0 : TexasHoldem)
    (h : Hand) (cards : list Card) (betting_round : string) (rest : list string) :
  (∀ n, ∃ x, agents n = Decides (mkPlayerAction CALL x)) →
  NoDup (players g0) → (2 ≤ length (players g0))%nat → (2 ≤ passes)%nat →
  betting_round ≠ "preflop" →
  everybody_in g0 h →
  deck (game h) = Some cards → deals_street (game h) →
  (street_size (game h) ≤ length cards)%nat →
  ∃ h1,
    play_rounds agents passes (betting_round :: rest) h = play_rounds agents passes rest h1 ∧
    everybody_in g0 h1 ∧
    community_cards (game h1)
    = community_cards (game h) ++ take (street_size (game h)) (reverse cards) ∧
    deck (game h1) = Some (take (length cards - street_size (game h)) cards) ∧
    (∀ p, chips (game h1) !! p = chips (game h) !! p).
Proof.
  intros Hag Hnd Htwo Hpasses Hround Hin Hdk Hs Hlen.
  destruct (next_street_run g0 h cards Hin Hdk Hs Hlen)
    as (h1 & Hnext & Hin1 & Hcc1 & Hdk1 & Hcb1 & Hbets1 & Hchips1).
  destruct (betting_keeps_everybody_in agents betting_round passes g0
              (set_players_who_acted ∅ h1) Hag Hnd Htwo Hpasses)
    as (h2 & Hbet & Hin2 & Hcc2 & Hdk2 & Hchips2 & Hout2); [reflexivity|exact Hin1| |].
  { intros p Hp. cbn. pose proof (Hbets1 p Hp) as Hb.
    destruct Hin1 as (_ & _ & _ & _ & _ & _ & _ & _ & Hall).
    destruct (Hall p Hp) as (_ & c & Hc & Hpos). exists c, 0. rewrite Hcb1.
    split_and!; [done..|lia|lia]. }
  exists h2. cbn in Hcc2, Hdk2, Hchips2, Hout2. rewrite Hcc2, Hdk2. split_and!; [|done..|].
  - cbn [play_rounds]. rewrite (everybody_in_not_complete g0 h) by done.
    run_H. rewrite bool_decide_true by done. rewrite Hnext. cbn beta iota.
    rewrite Hbet. done.
  - intros p. rewrite <- Hchips1. destruct (decide (p ∈ players g0)) as [Hp|Hp].
    + destruct (Hchips2 p Hp) as (c & b & Hc & Hb & ->).
      rewrite (Hbets1 p Hp) in Hb. injection Hb as <-. rewrite Hc, Hcb1. f_equal. lia.
    + by apply Hout2.
Qed.

Lemma play_rounds_everybody_calls (agents : nat → Response) (passes : nat)
    (g0 : TexasHoldem) (h : Hand) (cards : list Card) :
  (∀ n, ∃ x, agents n = Decides (mkPlayerAction CALL x)) →
  NoDup (players g0) → (2 ≤ length (players g0))%nat → (2 ≤ passes)%nat →
  everybody_in g0 h →
  community_cards (game h) = [] → deck (game h) = Some cards → (5 ≤ length cards)%nat →
  (∀ p, p ∈ players g0 →
     ∃ c b, chips (game h) !! p = Some c ∧ player_bets (game h) !! p = Some b ∧
            b ≤ current_bet (game h) ∧ current_bet (game h) < c + b) →
  ∃ h', play_rounds agents passes ["preflop"; "flop"; "turn"; "river"] h = (Ok true, h') ∧
    everybody_in g0 h' ∧
    length (community_cards (game h')) = 5%nat ∧
    (∀ p, p ∈ players g0 →
       ∃ c b, chips (game h) !! p = Some c ∧ player_bets (game h) !! p = Some b ∧
              chips (game h') !! p = Some (c + b - current_bet (game h))) ∧
    (∀ p, p ∉ players g0 → chips (game h') !! p = chips (game h) !! p).
Proof.
  intros Hag Hnd Htwo Hpasses Hin Hcc Hdk Hlen Hbets.
  (* preflop *)
  destruct (betting_keeps_everybody_in agents "preflop" passes g0
              (set_players_who_acted ∅ h) Hag Hnd Htwo Hpasses)
    as (h0 & Hbet0 & Hin0 & Hcc0 & Hdk0 & Hchips0 & Hout0);
    [reflexivity|exact Hin|exact Hbets|].
  cbn in Hcc0, Hdk0, Hchips0, Hout0. rewrite Hcc in Hcc0. rewrite Hdk in Hdk0.
  assert (play_rounds agents passes ["preflop"; "flop"; "turn"; "river"] h
          = play_rounds agents passes ["flop"; "turn"; "river"] h0) as ->.
  { cbn [play_rounds]. rewrite (everybody_in_not_complete g0 h) by done.
    run_H. rewrite bool_decide_false by (intros Hne; by apply Hne). cbn beta iota.
    rewrite Hbet0. done. }
  (* flop *)
  destruct (play_round_street agents passes g0 h0 cards "flop" ["turn"; "river"]
              Hag Hnd Htwo Hpasses) as (h1 & -> & Hin1 & Hcc1 & Hdk1 & Hchips1);
    [done..| | |].
  { by left. }
  { unfold street_size. rewrite bool_decide_true by done. lia. }
  assert (street_size (game h0) = 3%nat) as Hs0.
  { unfold street_size. by rewrite bool_decide_true. }
  rewrite Hs0, Hcc0 in Hcc1. rewrite Hs0 in Hdk1. cbn [app] in Hcc1.
  assert (length (community_cards (game h1)) = 3%nat) as Hl1.
  { rewrite Hcc1, length_take, length_reverse. lia. }
  assert (community_cards (game h1) ≠ []) as Hne1.
  { intros E. rewrite E in Hl1. done. }
  (* turn *)
  destruct (play_round_street agents passes g0 h1 (take (length cards - 3) cards)
              "turn" ["river"] Hag Hnd Htwo Hpasses)
    as (h2 & -> & Hin2 & Hcc2 & Hdk2 & Hchips2);
    [done|done|exact Hdk1| | |].
  { right; by left. }
  { unfold street_size. rewrite bool_decide_false by done. rewrite length_take. lia. }
  assert (street_size (game h1) = 1%nat) as Hs1.
  { unfold street_size. by rewrite bool_decide_false. }
  rewrite Hs1 in Hcc2, Hdk2.
  assert (length (community_cards (game h2)) = 4%nat) as Hl2.
  { rewrite Hcc2, length_app, Hl1, length_take, length_reverse, length_take. lia. }
  assert (community_cards (game h2) ≠ []) as Hne2.
  { intros E. rewrite E in Hl2. done. }
  (* river *)
  destruct (play_round_street agents passes g0 h2
              (take (length (take (length cards - 3) cards) - 1)
                 (take (length cards - 3) cards))
              "river" [] Hag Hnd Htwo Hpasses)
    as (h3 & -> & Hin3 & Hcc3 & Hdk3 & Hchips3);
    [done|done|exact Hdk2| | |].
  { right; by right. }
  { unfold street_size. rewrite bool_decide_false by done. rewrite !length_take. lia. }
  assert (street_size (game h2) = 1%nat) as Hs2.
  { unfold street_size. by rewrite bool_decide_false. }
  rewrite Hs2 in Hcc3.
  exists h3. split_and!; [done..| | |].
  - rewrite Hcc3, length_app, Hl2, length_take, length_reverse, !length_take. lia.
  - intros p Hp. rewrite Hchips3, Hchips2, Hchips1. by apply Hchips0.
  - intros p Hp. rewrite Hchips3, Hchips2, Hchips1. by apply Hout0.
Qed.

Lemma next_hand_everybody_funded (g : TexasHoldem) :
  players g ≠ [] →
  (∀ p, p ∈ players g → ∃ c, chips g !! p = Some c ∧ 0 < c) →
  next_hand g
  = (Ok tt,
     set_players (players g)
       (set_dealer_position
          ((dealer_position g + 1) `mod` Z.of_nat (length (players g))) g)).
Proof.
  intros Hne Hall. unfold next_hand. run_M. rewrite bool_decide_false by done.
  cbn beta iota. cbn [chips players set_dealer_position].
  by rewrite with_chips_funded.
Qed.

Lemma stacks_shift (m m' : gmap string Z) (ps : list string) (k : Z) :
  NoDup ps →
  (∀ p, p ∈ ps → ∃ c, m !! p = Some c ∧ m' !! p = Some (c - k)) →
  (∀ p, p ∉ ps → m' !! p = m !! p) →
  stacks m' = stacks m - Z.of_nat (length ps) * k.
Proof.
  revert m; induction ps as [|p ps IH]; intros m Hnd Hin Hout.
  - assert (m' = m) as -> by (apply map_eq; intros p; apply Hout, not_elem_of_nil).
    simpl. lia.
  - apply NoDup_cons in Hnd as [Hp Hnd].
    destruct (Hin p) as (c & Hc & Hc'); [by left|].
    rewrite (IH (<[p := c - k]> m) Hnd).
    + rewrite (stacks_insert _ _ c) by done. cbn [length]. lia.
    + intros q Hq. destruct (Hin q) as (cq & Hcq & Hcq'); [by right|].
      exists cq. rewrite lookup_insert_ne by (intros ->; done). done.
    + intros q Hq. destruct (decide (q = p)) as [->|Hne].
      * by rewrite lookup_insert_eq.
      * rewrite lookup_insert_ne by done. apply Hout.
        by intros [?|?]%elem_of_cons.
Qed.

(** X20.  A whole hand in which every agent answers every question with a
    call, on a table of two or more players who all hold more than the big
    blind, with a small blind between zero and the big blind and a deck of
    two cards per player and five more.  [_play_single_hand] returns a
    result: the blinds are posted, every betting loop is left within two
    passes, flop, turn and river are dealt, nobody folds or runs out of
    chips, and the showdown is reached with a board of five cards.  The pot
    reported is the big blind times the number of players; the winners are
    players of the table and there is at least one; each is reported with the
    pot divided by the number of winners, rounded down; afterwards every
    player holds the stack the hand began with less the big blind, winners
    plus their share, so the stacks add up to what they were less the
    remainder of that division; the roster is unchanged and the button has
    moved one seat on. *)
Theorem hand_where_everybody_calls_is_played_out (agents : nat → Response) (passes : nat)
    (shuffled : list Card) (g : TexasHoldem) :
  (∀ n, ∃ x, agents n = Decides (mkPlayerAction CALL x)) →
  NoDup (players g) →
  (2 ≤ length (players g))%nat →
  (2 * length (players g) + 5 ≤ length shuffled)%nat →
  0 ≤ small_blind g ≤ big_blind g →
  (∀ p, p ∈ players g → ∃ c, chips g !! p = Some c ∧ big_blind g < c) →
  (2 ≤ passes)%nat →
  ∃ result g',
    _play_single_hand agents passes shuffled g = (Ok (Some result), g') ∧
    result_winners result ≠ [] ∧
    (∀ p, p ∈ result_winners result → p ∈ players g) ∧
    result_pot_size result = Z.of_nat (length (players g)) * big_blind g ∧
    result_winnings result
    = map (fun p => (p, result_pot_size result
                        `div` Z.of_nat (length (result_winners result))))
        (result_winners result) ∧
    length (result_community_cards result) = 5%nat ∧
    players g' = players g ∧
    dealer_position g' = (dealer_position g + 1) `mod` Z.of_nat (length (players g)) ∧
    (∀ p c0, p ∈ players g → chips g !! p = Some c0 →
       chips g' !! p
       = Some (c0 - big_blind g
               + if decide (p ∈ result_winners result)
                 then result_pot_size result `div` Z.of_nat (length (result_winners result))
                 else 0)) ∧
    stacks (chips g')
    = stacks (chips g)
      - result_pot_size result `mod` Z.of_nat (length (result_winners result)).
Proof.
  intros Hag Hnd Htwo Hdeck Hblinds Hfunded Hpasses.
  destruct (start_hand_everybody_in shuffled g Hnd Htwo) as
    (view & g1 & Hstart & Hp1 & Ha1 & Hf1 & Hcc1 & Hd1 & Hdk1 & Hcb1 & Hpot1 & Hon1
     & Hvpot & Hvcc & Hall1 & Hout1); [lia|done..|].
  set (h0 := mkHand g1 view [] ∅ []).
  assert (everybody_in g h0) as Hin0.
  { unfold everybody_in. cbn. split_and!; try done; [by rewrite Hcc1|].
    intros p Hp. destruct (Hall1 p Hp) as (Hh & c0 & c & b & Hc0 & Hc & Hb & Hsum & Hb0).
    split; [done|]. exists c. split; [done|].
    destruct (Hfunded p Hp) as (c0' & Hc0' & Hbig). rewrite Hc0 in Hc0'. injection Hc0' as <-.
    lia. }
  destruct (play_rounds_everybody_calls agents passes g h0
              (take (length shuffled - 2 * length (players g)) shuffled)
              Hag Hnd Htwo Hpasses Hin0) as (h' & Hplay & Hin' & Hboard & Hchips' & Hout');
    [done..| | |].
  { rewrite length_take. lia. }
  { intros p Hp. cbn. destruct (Hall1 p Hp) as (_ & c0 & c & b & Hc0 & Hc & Hb & Hsum & Hb0).
    destruct (Hfunded p Hp) as (c0' & Hc0' & Hbig). rewrite Hc0 in Hc0'. injection Hc0' as <-.
    exists c, b. rewrite Hcb1. split_and!; [done..|lia|lia]. }
  cbn in Hchips', Hout'.
  destruct Hin' as (Hp' & Ha' & Hf' & Hd' & Hpot' & Hon' & Hvpot' & Hvcc' & Hall').
  assert (not_folded (game h') = players g) as Hnf'.
  { rewrite not_folded_all by done. done. }
  assert (∀ p c0, p ∈ players g → chips g !! p = Some c0 →
            chips (game h') !! p = Some (c0 - big_blind g)) as Hdown.
  { intros p c0 Hp Hc0. destruct (Hchips' p Hp) as (c & b & Hc & Hb & ->).
    destruct (Hall1 p Hp) as (_ & c0' & c' & b' & Hc0' & Hc' & Hb' & Hsum & _).
    rewrite Hc0 in Hc0'. injection Hc0' as <-. rewrite Hc in Hc'. injection Hc' as <-.
    rewrite Hb in Hb'. injection Hb' as <-. rewrite Hcb1. f_equal. lia. }
  assert (pot (game h') = Z.of_nat (length (players g)) * big_blind g) as Hpot.
  { assert (stacks (chips (game h'))
            = stacks (chips g) - Z.of_nat (length (players g)) * big_blind g) as Hst.
    { apply stacks_shift; [done| |].
      - intros p Hp. destruct (Hfunded p Hp) as (c0 & Hc0 & _). exists c0.
        split; [done|]. by apply Hdown.
      - intros p Hp. rewrite Hout' by done. by apply Hout1. }
    unfold on_table in Hon'. lia. }
  destruct (showdown_run (game h'))
    as (ws & g2 & Hshow & Hwne & Hwsub & _ & Hg2 & Hpaid & Hother).
  { by rewrite Ha'. }
  { by rewrite Hnf'. }
  { rewrite Hnf'. intros p Hp. destruct (Hall' p Hp) as ([hole Hh] & c & Hc & _).
    split; [by rewrite Hc|]. exists hole. split; [done|]. rewrite length_app. lia. }
  set (w := Z.of_nat (length ws)) in *.
  assert (0 < w) as Hw by (subst w; destruct ws; [done|simpl; lia]).
  destruct (_determine_winner_returns _ _ _ Hshow) as (_ & _ & _ & Hstacks).
  rewrite length_map in Hstacks. fold w in Hstacks.
  assert (players g2 = players g ∧ dealer_position g2 = dealer_position g) as [Hp2 Hd2].
  { rewrite Hg2. cbn. done. }
  assert (0 ≤ pot (game h') `div` w) as Hshare by (apply Z.div_pos; lia).
  assert (∀ p c0, p ∈ players g → chips g !! p = Some c0 →
            chips g2 !! p
            = Some (c0 - big_blind g + if decide (p ∈ ws) then pot (game h') `div` w else 0))
    as Hchips2.
  { intros p c0 Hp Hc0. pose proof (Hdown p c0 Hp Hc0) as Hc.
    destruct (decide (p ∈ ws)) as [Hin|Hout].
    - destruct (Hpaid p Hin) as (c' & Hc' & ->). rewrite Hc in Hc'. by injection Hc' as <-.
    - rewrite (Hother p Hout), Hc. f_equal. lia. }
  assert (∀ p, p ∈ players g2 → ∃ c, chips g2 !! p = Some c ∧ 0 < c) as Hfunded2.
  { intros p Hp. rewrite Hp2 in Hp. destruct (Hfunded p Hp) as (c0 & Hc0 & Hbig).
    rewrite (Hchips2 p c0 Hp Hc0). eexists. split; [done|].
    destruct (decide (p ∈ ws)); lia. }
  assert (next_hand g2
          = (Ok tt,
             set_players (players g)
               (set_dealer_position
                  ((dealer_position g + 1) `mod` Z.of_nat (length (players g))) g2)))
    as Hnext.
  { rewrite next_hand_everybody_funded; [by rewrite Hp2, Hd2| |exact Hfunded2].
    rewrite Hp2. destruct (players g); [simpl in Htwo; lia|done]. }
  unfold _play_single_hand. rewrite Hstart. fold h0.
  unfold finish_hand. run_H. rewrite Hplay. cbn beta iota.
  rewrite Hshow. cbn beta iota. cbn [game set_game]. rewrite Hnext. cbn.
  eexists _, _. split; [reflexivity|]. cbn.
  rewrite map_map. cbn. rewrite map_id, Hvpot', Hvcc'. fold w.
  split_and!; try done.
  - intros p Hp. rewrite <- Hnf'. eapply elem_of_sublist; done.
  - rewrite Hstacks. unfold on_table in Hon'. rewrite Z.mod_eq by lia. lia.
Qed.

Lemma hand_where_everybody_calls_is_played_out_witness :
  ∃ result g',
    _play_single_hand (always (Decides (mkPlayerAction CALL 0))) 2 tie_deck three_way
    = (Ok (Some result), g') ∧
    result_winners result ≠ [] ∧
    (∀ p, p ∈ result_winners result → p ∈ players three_way) ∧
    result_pot_size result = Z.of_nat (length (players three_way)) * big_blind three_way ∧
    result_winnings result
    = map (fun p => (p, result_pot_size result
                        `div` Z.of_nat (length (result_winners result))))
        (result_winners result) ∧
    length (result_community_cards result) = 5%nat ∧
    players g' = players three_way ∧
    dealer_position g'
    = (dealer_position three_way + 1) `mod` Z.of_nat (length (players three_way)) ∧
    (∀ p c0, p ∈ players three_way → chips three_way !! p = Some c0 →
       chips g' !! p
       = Some (c0 - big_blind three_way
               + if decide (p ∈ result_winners result)
                 then result_pot_size result `div` Z.of_nat (length (result_winners result))
                 else 0)) ∧
    stacks (chips g')
    = stacks (chips three_way)
      - result_pot_size result `mod` Z.of_nat (length (result_winners result)).
Proof.
  apply (hand_where_everybody_calls_is_played_out
           (always (Decides (mkPlayerAction CALL 0))) 2 tie_deck three_way).
  - intros n. by exists 0.
  - by_compute.
  - vm_compute. lia.
  - vm_compute. lia.
  - vm_compute. split; discriminate.
  - intros p Hp. vm_compute in Hp.
    repeat (apply elem_of_cons in Hp as [->|Hp];
            [exists 100; split; [by vm_compute|vm_compute; reflexivity]|]).
    by apply elem_of_nil in Hp.
  - lia.
Defined.

(** ** Betting with any agents *)

Lemma played_from_refl (g : TexasHoldem) : played_from g g.
Proof. unfold played_from. split_and!; done. Qed.

Lemma played_from_trans (g1 g2 g3 : TexasHoldem) :
  played_from g1 g2 → played_from g2 g3 → played_from g1 g3.
Proof.
  intros (? & ? & ? & ? & ? & ? & ? & ? & Hc & Hb) (? & ? & ? & ? & ? & ? & ? & ? & Hc' & Hb').
  unfold played_from. split_and!; try congruence; [set_solver| |].
  - intros p. by rewrite Hc', Hc.
  - intros p. by rewrite Hb', Hb.
Qed.

Lemma seated_played_from (g g' : TexasHoldem) : played_from g g' → seated g → seated g'.
Proof.
  intros (_ & Ha & Hh & _ & _ & _ & _ & _ & Hc & Hb) Hs p Hp. rewrite Ha in Hp.
  rewrite Hc, Hb, Hh. by apply Hs.
Qed.

Lemma process_action_played (g : TexasHoldem) (player : string) (a : PlayerAction) :
  played_from g (process_action player a g).2.
Proof.
  pose proof (process_action_on_table g player a) as Hon.
  destruct (process_action player a g) as [r g'] eqn:Hrun. cbn [snd] in *.
  destruct (process_action_changes g player a r g' Hrun)
    as [->|[->|(c & b & amt & cb & Hc & Hb & Hcb & ->)]].
  - apply played_from_refl.
  - unfold played_from. cbn. split_and!; try done. set_solver.
  - unfold played_from. cbn. split_and!; try done.
    + intros p. rewrite lookup_insert_is_Some. split.
      * intros [<-|[_ ?]]; [by rewrite Hc|done].
      * intros Hp. destruct (decide (player = p)); [by left|by right].
    + intros p. rewrite lookup_insert_is_Some. split.
      * intros [<-|[_ ?]]; [by rewrite Hb|done].
      * intros Hp. destruct (decide (player = p)); [by left|by right].
Qed.

Lemma process_action_outcome (g : TexasHoldem) (player : string) (a : PlayerAction)
    (r : result (option GameState.t)) (g' : TexasHoldem) :
  process_action player a g = (r, g') →
  (r = Ok None ∧ g' = g) ∨ (∃ e, r = Raise e ∧ g' = g) ∨
  (∃ view, r = Ok (Some view) ∧ shows view g').
Proof.
  assert (∀ g1 r1 g2,
            (let (r0, g3) := _get_game_state None g1 in
             match r0 with
             | Ok view => (Ok (Some view), g3)
             | Raise e => (Raise e, g3)
             end) = (r1, g2) →
            ∃ view, r1 = Ok (Some view) ∧ shows view g2) as Hview.
  { intros g1 r1 g2. destruct (_get_game_state_run None g1)
      as (view & -> & _ & _ & Hpot & _ & Hcc & _).
    intros [= <- <-]. exists view. split; [done|]. by split. }
  unfold process_action. run_M.
  destruct (bool_decide (player ∈ folded_players g) || bool_decide (player ∉ active_players g));
    [intros [= <- <-]; by left|].
  destruct (action a).
  - intros ?%Hview. by right; right.
  - unfold getitem at 1. destruct (player_bets g !! player) as [b|] eqn:Hb;
      [|intros [= <- <-]; right; left; eauto].
    cbn beta iota. destruct (chips g !! player) as [c|] eqn:Hc.
    + rewrite (_place_bet_ok g player _ c b) by done. cbn beta iota.
      intros ?%Hview. by right; right.
    + rewrite _place_bet_no_stack by done. intros [= <- <-]. right; left; eauto.
  - unfold getitem at 1. destruct (player_bets g !! player) as [b|] eqn:Hb;
      [|intros [= <- <-]; right; left; eauto].
    cbn beta iota. case_bool_decide.
    + destruct (chips g !! player) as [c|] eqn:Hc.
      * rewrite (_place_bet_ok g player _ c b) by done. cbn beta iota.
        intros ?%Hview. by right; right.
      * rewrite _place_bet_no_stack by done. intros [= <- <-]. right; left; eauto.
    + intros ?%Hview. by right; right.
  - unfold getitem at 1. destruct (player_bets g !! player) as [b|] eqn:Hb;
      [|intros [= <- <-]; right; left; eauto].
    cbn beta iota. case_bool_decide; [intros [= <- <-]; by left|].
    intros ?%Hview. by right; right.
Qed.

Lemma validate_keeps (player : string) (a : PlayerAction) (g : TexasHoldem) :
  (validate player a g).2 = g.
Proof.
  unfold validate. destruct (action a); try done. run_M.
  unfold getitem. by destruct (chips g !! player).
Qed.

Lemma lookup_zero_bets_inv (ps : list string) (p : string) (b : Z) :
  (list_to_map ((fun player => (player, 0)) <$> ps) : gmap string Z) !! p = Some b → b = 0.
Proof.
  induction ps as [|q ps IH]; [done|]. cbn [fmap list_fmap list_to_map foldr].
  destruct (decide (q = p)) as [->|Hne].
  - rewrite lookup_insert_eq. by intros [= <-].
  - rewrite lookup_insert_ne by done. exact IH.
Qed.

Lemma process_action_shape (g : TexasHoldem) (player : string) (a : PlayerAction)
    (r : result (option GameState.t)) (g' : TexasHoldem) :
  process_action player a g = (r, g') →
  g' = g
  ∨ g' = set_folded_players ({[player]} ∪ folded_players g) g
  ∨ ∃ c b amt cb,
      chips g !! player = Some c ∧ player_bets g !! player = Some b ∧
      (amt = current_bet g - b ∧ cb = current_bet g ∨
       cb = b + amt ∧ current_bet g < cb) ∧
      g' = set_current_bet cb
             (set_pot (pot g + Z.min amt c)
                (set_player_bets (<[player := b + Z.min amt c]> (player_bets g))
                   (set_chips (<[player := c - Z.min amt c]> (chips g)) g))).
Proof.
  unfold process_action. run_M.
  destruct (bool_decide (player ∈ folded_players g) || bool_decide (player ∉ active_players g));
    [intros [= _ <-]; by left|].
  destruct (action a).
  - destruct (_get_game_state_run None
                (set_folded_players ({[player]} ∪ folded_players g) g)) as (view & -> & _).
    intros [= _ <-]. right; by left.
  - unfold getitem at 1. destruct (player_bets g !! player) as [b|] eqn:Hb;
      [|intros [= _ <-]; by left].
    cbn beta iota. destruct (chips g !! player) as [c|] eqn:Hc.
    + rewrite (_place_bet_ok g player _ c b) by done. cbn beta iota.
      match goal with |- context [_get_game_state None ?g1] =>
        destruct (_get_game_state_run None g1) as (view & -> & _) end.
      intros [= _ <-]. right; right. exists c, b, (current_bet g - b), (current_bet g).
      split_and!; [done|done|by left|done].
    + rewrite _place_bet_no_stack by done. intros [= _ <-]. by left.
  - unfold getitem at 1. destruct (player_bets g !! player) as [b|] eqn:Hb;
      [|intros [= _ <-]; by left].
    cbn beta iota. case_bool_decide.
    + destruct (chips g !! player) as [c|] eqn:Hc.
      * rewrite (_place_bet_ok g player _ c b) by done. cbn beta iota.
        match goal with |- context [_get_game_state None ?g1] =>
          destruct (_get_game_state_run None g1) as (view & -> & _) end.
        intros [= _ <-]. right; right. exists c, b, (amount a), (b + amount a).
        split_and!; [done|done|right; split; [done|lia]|done].
      * rewrite _place_bet_no_stack by done. intros [= _ <-]. by left.
    + destruct (_get_game_state_run None g) as (view & -> & _). intros [= _ <-]. by left.
  - unfold getitem at 1. destruct (player_bets g !! player) as [b|] eqn:Hb;
      [|intros [= _ <-]; by left].
    cbn beta iota. case_bool_decide; [intros [= _ <-]; by left|].
    destruct (_get_game_state_run None g) as (view & -> & _). intros [= _ <-]. by left.
Qed.

Lemma process_action_solvent (g : TexasHoldem) (player : string) (a : PlayerAction) :
  solvent g → solvent (process_action player a g).2.
Proof.
  intros (Hpot & Hcb & Hchips & Hbets).
  destruct (process_action player a g) as [r g'] eqn:Hrun. cbn [snd].
  destruct (process_action_shape g player a r g' Hrun)
    as [->|[->|(c & b & amt & cb & Hc & Hb & Hamt & ->)]]; [done|done|].
  pose proof (Hchips _ _ Hc) as Hc0. pose proof (Hbets _ _ Hb) as Hb0.
  assert (0 ≤ Z.min amt c ∧ b + Z.min amt c ≤ cb ∧ current_bet g ≤ cb) as (Hm & Hle & Hup).
  { destruct Hamt as [[-> ->]|[-> ?]]; lia. }
  unfold solvent. cbn. split_and!; [lia|lia| |].
  - intros p x. destruct (decide (p = player)) as [->|Hne].
    + rewrite lookup_insert_eq. intros [= <-]. lia.
    + rewrite lookup_insert_ne by done. apply Hchips.
  - intros p x. destruct (decide (p = player)) as [->|Hne].
    + rewrite lookup_insert_eq. intros [= <-]. lia.
    + rewrite lookup_insert_ne by done. intros Hx%Hbets. lia.
Qed.

Lemma take_turn_solvent (agents : nat → Response) (betting_round player : string)
    (h : Hand) :
  solvent (game h) → solvent (game (take_turn agents betting_round player h).2).
Proof.
  intros Hsol. unfold take_turn. case_bool_decide; [done|].
  destruct (getitem (hole_cards (game h)) player) as [hole|e]; [|done].
  destruct (agents (length (calls h))) as [a| |]; cbn [game set_calls game_state
    hand_actions players_who_acted calls].
  - unfold attempt. run_M.
    pose proof (validate_keeps player a (game h)) as Hv.
    destruct (validate player a (game h)) as [[a'|e] g1]; cbn [snd] in Hv; subst g1;
      cbn beta iota.
    + pose proof (process_action_solvent (game h) player a' Hsol) as Hsol1.
      destruct (process_action player a' (game h)) as [[o|e] g1]; cbn [snd] in Hsol1;
        cbn beta iota.
      * done.
      * pose proof (process_action_solvent g1 player (mkPlayerAction FOLD 0) Hsol1) as Hsol2.
        unfold forced_fold.
        by destruct (process_action player (mkPlayerAction FOLD 0) g1) as [[o|e'] g2].
    + pose proof (process_action_solvent (game h) player (mkPlayerAction FOLD 0) Hsol)
        as Hsol2.
      unfold forced_fold.
      by destruct (process_action player (mkPlayerAction FOLD 0) (game h)) as [[o|e'] g2].
  - pose proof (process_action_solvent (game h) player (mkPlayerAction FOLD 0) Hsol) as Hsol2.
    unfold forced_fold.
    by destruct (process_action player (mkPlayerAction FOLD 0) (game h)) as [[o|e'] g2].
  - pose proof (process_action_solvent (game h) player (mkPlayerAction FOLD 0) Hsol) as Hsol2.
    unfold forced_fold.
    by destruct (process_action player (mkPlayerAction FOLD 0) (game h)) as [[o|e'] g2].
Qed.

Lemma take_turns_solvent (agents : nat → Response) (betting_round : string)
    (to_act : list string) (h : Hand) :
  solvent (game h) →
  solvent (game (H_for_each to_act (take_turn agents betting_round) h).2).
Proof.
  revert h; induction to_act as [|p ps IH]; intros h Hsol; cbn [H_for_each]; [done|].
  run_H. pose proof (take_turn_solvent agents betting_round p h Hsol) as Hsol1.
  destruct (take_turn agents betting_round p h) as [[[]|e] h1]; cbn [snd] in Hsol1; [|done].
  by apply IH.
Qed.

Lemma betting_solvent (agents : nat → Response) (betting_round : string) (passes : nat)
    (h : Hand) :
  solvent (game h) → solvent (game (betting agents betting_round passes h).2).
Proof.
  revert h; induction passes as [|passes IH]; intros h Hsol; cbn [betting]; [done|].
  case_bool_decide; [done|].
  destruct (players_to_act (game h) (players_who_acted h) (not_folded (game h)))
    as [to_act|e]; [|done].
  assert (solvent (game ((H_for_each to_act (take_turn agents betting_round)
                          ≫= λ _ : (), betting agents betting_round passes) h).2)) as Hnext.
  { run_H. pose proof (take_turns_solvent agents betting_round to_act h Hsol) as Hsol1.
    destruct (H_for_each to_act (take_turn agents betting_round) h) as [[[]|e] h1];
      cbn [snd] in Hsol1; [|done].
    by apply IH. }
  repeat case_bool_decide; done.
Qed.

Lemma forced_fold_run (player : string) (g : TexasHoldem) :
  ∃ o g', forced_fold player g = (Ok o, g') ∧ played_from g g' ∧
    pot g' = pot g.
Proof.
  pose proof (process_action_played g player (mkPlayerAction FOLD 0)) as Hpl.
  unfold forced_fold in *. unfold process_action in *. revert Hpl. run_M.
  destruct (bool_decide (player ∈ folded_players g) || bool_decide (player ∉ active_players g)).
  - intros Hpl. by exists None, g.
  - cbn [action].
    destruct (_get_game_state_run None
                (set_folded_players ({[player]} ∪ folded_players g) g)) as (view & -> & _).
    intros Hpl. eexists _, _. split; [done|]. split; [exact Hpl|done].
Qed.

Lemma take_turn_safe (agents : nat → Response) (betting_round player : string) (h : Hand) :
  is_Some (hole_cards (game h) !! player) →
  ∃ h', take_turn agents betting_round player h = (Ok tt, h') ∧
    played_from (game h) (game h') ∧
    (shows (game_state h) (game h) → shows (game_state h') (game h')).
Proof.
  intros [hole Hh]. unfold take_turn. case_bool_decide as Hf.
  { exists h. split_and!; [done|apply played_from_refl|done]. }
  unfold getitem. rewrite Hh.
  destruct (agents (length (calls h))) as [a| |]; cbn [game set_calls game_state
    hand_actions players_who_acted calls].
  - unfold attempt. run_M.
    pose proof (validate_keeps player a (game h)) as Hv.
    destruct (validate player a (game h)) as [[a'|e] g1]; cbn [snd] in Hv; subst g1.
    + cbn beta iota. pose proof (process_action_played (game h) player a') as Hpl.
      destruct (process_action player a' (game h)) as [r g'] eqn:Hrun. cbn [snd] in Hpl.
      destruct (process_action_outcome _ _ _ _ _ Hrun)
        as [[-> ->]|[(e & -> & ->)|(view & -> & Hshows)]]; cbn beta iota.
      * eexists. split; [reflexivity|]. cbn. split; [apply played_from_refl|done].
      * destruct (forced_fold_run player (game h)) as (o & g'' & -> & Hpl' & Hpot).
        eexists. split; [reflexivity|]. cbn. split; [done|].
        intros [Hvp Hvc]. split; [by rewrite Hpot|].
        destruct Hpl' as (_ & _ & _ & -> & _). done.
      * eexists. split; [reflexivity|]. cbn. split; [done|]. done.
    + cbn beta iota.
      destruct (forced_fold_run player (game h)) as (o & g'' & -> & Hpl' & Hpot).
      eexists. split; [reflexivity|]. cbn. split; [done|].
      intros [Hvp Hvc]. split; [by rewrite Hpot|].
      destruct Hpl' as (_ & _ & _ & -> & _). done.
  - destruct (forced_fold_run player (game h)) as (o & g'' & -> & Hpl' & Hpot).
    eexists. split; [reflexivity|]. cbn. split; [done|].
    intros [Hvp Hvc]. split; [by rewrite Hpot|].
    destruct Hpl' as (_ & _ & _ & -> & _). done.
  - destruct (forced_fold_run player (game h)) as (o & g'' & -> & Hpl' & Hpot).
    eexists. split; [reflexivity|]. cbn. split; [done|].
    intros [Hvp Hvc]. split; [by rewrite Hpot|].
    destruct Hpl' as (_ & _ & _ & -> & _). done.
Qed.

Lemma take_turns_safe (agents : nat → Response) (betting_round : string)
    (to_act : list string) (h : Hand) :
  (∀ p, p ∈ to_act → is_Some (hole_cards (game h) !! p)) →
  ∃ h', H_for_each to_act (take_turn agents betting_round) h = (Ok tt, h') ∧
    played_from (game h) (game h') ∧
    (shows (game_state h) (game h) → shows (game_state h') (game h')).
Proof.
  revert h; induction to_act as [|p ps IH]; intros h Hall; cbn [H_for_each].
  - exists h. split_and!; [done|apply played_from_refl|done].
  - destruct (take_turn_safe agents betting_round p h) as (h1 & Hturn & Hpl1 & Hsh1);
      [apply Hall; by left|].
    run_H. rewrite Hturn.
    destruct (IH h1) as (h' & -> & Hpl' & Hsh').
    { intros q Hq. destruct Hpl1 as (_ & _ & -> & _). apply Hall. by right. }
    exists h'. split_and!; [done|by eapply played_from_trans|auto].
Qed.

Lemma betting_safe (agents : nat → Response) (betting_round : string) (passes : nat)
    (h : Hand) :
  seated (game h) →
  ∃ left h', betting agents betting_round passes h = (Ok left, h') ∧
    played_from (game h) (game h') ∧
    (shows (game_state h) (game h) → shows (game_state h') (game h')) ∧
    (left = true →
     (length (not_folded (game h')) ≤ 1)%nat ∨
     players_to_act (game h') (players_who_acted h') (not_folded (game h')) = Ok []).
Proof.
  revert h; induction passes as [|passes IH]; intros h Hs; cbn [betting].
  - exists false, h. split_and!; [done|apply played_from_refl|done..].
  - case_bool_decide as Hone.
    { exists true, h. split_and!; [done|apply played_from_refl|done|]. by left. }
    destruct (players_to_act_run (game h) (players_who_acted h) (not_folded (game h)))
      as (to_act & Hrun & Hsub & Hin).
    { intros p [_ Hp]%list_elem_of_filter. destruct (Hs p Hp) as (? & ? & _). done. }
    rewrite Hrun.
    assert (∃ left h',
              (H_for_each to_act (take_turn agents betting_round)
               ≫= λ _ : (), betting agents betting_round passes) h = (Ok left, h') ∧
              played_from (game h) (game h') ∧
              (shows (game_state h) (game h) → shows (game_state h') (game h')) ∧
              (left = true →
               (length (not_folded (game h')) ≤ 1)%nat ∨
               players_to_act (game h') (players_who_acted h') (not_folded (game h')) = Ok []))
      as Hnext.
    { destruct (take_turns_safe agents betting_round to_act h) as (h1 & Hturns & Hpl1 & Hsh1).
      { intros p (Hp & _)%Hin. apply list_elem_of_filter in Hp as [_ Hp].
        destruct (Hs p Hp) as (_ & _ & ?). done. }
      run_H. rewrite Hturns.
      destruct (IH h1) as (left & h' & -> & Hpl' & Hsh' & Hleft);
        [by eapply seated_played_from|].
      exists left, h'. split_and!; [done|by eapply played_from_trans|auto|done]. }
    case_bool_decide as Hnil; [|exact Hnext].
    case_bool_decide as Hz.
    + case_bool_decide; [|exact Hnext].
      exists true, h. split_and!; [done|apply played_from_refl|done|].
      intros _. right. by rewrite Hrun, Hnil.
    + exists true, h. split_and!; [done|apply played_from_refl|done|].
      intros _. right. by rewrite Hrun, Hnil.
Qed.

(** X21.  Whatever the agents answer, any action with any amount, a timeout
    or a failure, a betting loop on a table whose dealt-in players all have
    a stack, a street contribution and hole cards never raises.  However many
    passes it is given, it leaves roster, hole cards, board, deck and button
    as they were, no folded player comes back, stacks plus pot are unchanged,
    and when the view kept by the orchestrator showed the pot and the board
    before, it still does.  When the loop has been left, at most one player
    is still in the hand or nobody is left to act. *)
Theorem betting_loop_is_safe (agents : nat → Response) (betting_round : string)
    (passes : nat) (h : Hand) :
  seated (game h) →
  ∃ left h', betting agents betting_round passes h = (Ok left, h') ∧
    played_from (game h) (game h') ∧
    (shows (game_state h) (game h) → shows (game_state h') (game h')) ∧
    (left = true →
     (length (not_folded (game h')) ≤ 1)%nat ∨
     players_to_act (game h') (players_who_acted h') (not_folded (game h')) = Ok []).
Proof. apply betting_safe. Qed.

Lemma betting_loop_is_safe_witness :
  ∃ left h',
    betting (always (Decides (mkPlayerAction RAISE 20))) "preflop" 3 heads_up_hand
    = (Ok left, h') ∧
    played_from (game heads_up_hand) (game h') ∧
    (shows (game_state heads_up_hand) (game heads_up_hand) →
     shows (game_state h') (game h')) ∧
    (left = true →
     (length (not_folded (game h')) ≤ 1)%nat ∨
     players_to_act (game h') (players_who_acted h') (not_folded (game h')) = Ok []).
Proof.
  apply (betting_loop_is_safe (always (Decides (mkPlayerAction RAISE 20))) "preflop" 3
           heads_up_hand).
  intros p Hp. vm_compute in Hp.
  repeat (apply elem_of_cons in Hp as [->|Hp]; [vm_compute; split_and!; eauto|]).
  by apply elem_of_nil in Hp.
Defined.

(** ** A whole hand with any agents *)

Lemma hand_goes_on_refl (g : TexasHoldem) : hand_goes_on g g.
Proof. unfold hand_goes_on. split_and!; done. Qed.

Lemma hand_goes_on_trans (g1 g2 g3 : TexasHoldem) :
  hand_goes_on g1 g2 → hand_goes_on g2 g3 → hand_goes_on g1 g3.
Proof.
  intros (? & ? & ? & ? & ? & ? & Hc) (? & ? & ? & ? & ? & ? & Hc').
  unfold hand_goes_on. split_and!; try congruence; [set_solver|].
  intros p. by rewrite Hc', Hc.
Qed.

Lemma played_from_goes_on (g g' : TexasHoldem) : played_from g g' → hand_goes_on g g'.
Proof.
  intros (? & ? & ? & ? & ? & ? & ? & ? & ? & ?). unfold hand_goes_on. split_and!; done.
Qed.

Lemma next_street_any (h : Hand) (k : nat) :
  seated (game h) →
  (∀ p, p ∈ active_players (game h) → p ∈ players (game h)) →
  streets_left (S k) (game h) →
  ∃ h1, next_street h = (Ok tt, h1) ∧
    hand_goes_on (game h) (game h1) ∧ seated (game h1) ∧
    streets_left k (game h1) ∧ shows (game_state h1) (game h1) ∧
    players_who_acted h1 = players_who_acted h ∧
    (solvent (game h) → solvent (game h1)).
Proof.
  intros Hs Hact (Hk & Hboard & cards & Hdk & Hlen).
  assert (deals_street (game h)) as Hds.
  { unfold deals_street. destruct k as [|[|[|k]]]; simpl in Hboard; [auto|auto| |lia].
    left. by destruct (community_cards (game h)). }
  assert (street_size (game h) = (board_size k - board_size (S k))%nat) as Hsize.
  { unfold street_size. destruct k as [|[|[|k]]]; simpl in Hboard |- *; try lia.
    - rewrite bool_decide_false; [done|]. intros E. by rewrite E in Hboard.
    - rewrite bool_decide_false; [done|]. intros E. by rewrite E in Hboard.
    - rewrite bool_decide_true; [done|]. by destruct (community_cards (game h)). }
  destruct (advance_street_run (game h) cards Hdk Hds) as [Hok _].
  destruct Hok
    as (view & g' & Hrun & Hcc' & Hdk' & Hbets' & Hcb' & Hpot' & Hchips' & Hhole' & Hf' & Ha'
        & _ & Hvcc' & _ & Hvpot').
  { rewrite Hsize. destruct k as [|[|[|k]]]; simpl in *; lia. }
  assert (players g' = players (game h) ∧ dealer_position g' = dealer_position (game h))
    as [Hp' Hd'].
  { pose proof (advance_changes (game h) _ _ Hrun) as ->. done. }
  unfold next_street. run_H. rewrite Hrun. cbn.
  eexists. split; [reflexivity|]. cbn. split_and!; try done.
  - unfold hand_goes_on. rewrite Hp', Ha', Hhole', Hd', Hf', Hchips'.
    split_and!; try done. unfold on_table. by rewrite Hchips', Hpot'.
  - intros p Hp. rewrite Ha' in Hp. rewrite Hchips', Hhole', Hbets'.
    destruct (Hs p Hp) as (? & _ & ?). split_and!; [done| |done].
    rewrite lookup_zero_bets by auto. eauto.
  - unfold streets_left. split; [lia|]. split.
    + rewrite Hcc', length_app, Hboard, length_take, length_reverse, Hsize.
      destruct k as [|[|[|k]]]; cbn [board_size] in *; lia.
    + eexists. split; [exact Hdk'|]. rewrite length_take, Hsize.
      destruct k as [|[|[|k]]]; cbn [board_size] in *; lia.
  - split; [by rewrite Hvpot', Hpot'|done].
  - intros (Hpot0 & _ & Hchips0 & _). unfold solvent.
    rewrite Hpot', Hcb', Hchips', Hbets'. split_and!; [done..|].
    intros p b ->%lookup_zero_bets_inv. done.
Qed.

Lemma play_streets_any (agents : nat → Response) (passes : nat)
    (betting_rounds : list string) (h : Hand) :
  (∀ r, r ∈ betting_rounds → r ≠ "preflop") →
  seated (game h) →
  (∀ p, p ∈ active_players (game h) → p ∈ players (game h)) →
  streets_left (length betting_rounds) (game h) →
  shows (game_state h) (game h) →
  ∃ left h', play_rounds agents passes betting_rounds h = (Ok left, h') ∧
    hand_goes_on (game h) (game h') ∧ seated (game h') ∧
    shows (game_state h') (game h') ∧
    (left = true →
     (length (not_folded (game h')) ≤ 1)%nat ∨ length (community_cards (game h')) = 5%nat) ∧
    (solvent (game h) → solvent (game h')).
Proof.
  revert h; induction betting_rounds as [|r rest IH]; intros h Hrounds Hs Hact Hleft Hsh;
    cbn [play_rounds].
  - exists true, h. split_and!; [done|apply hand_goes_on_refl|done..| |done].
    intros _. right. by destruct Hleft as (_ & ? & _).
  - unfold is_hand_complete. case_bool_decide as Hdone.
    { exists true, h. split_and!; [done|apply hand_goes_on_refl|done..| |done]. by left. }
    run_H. rewrite bool_decide_true by (apply Hrounds; by left).
    destruct (next_street_any h (length rest) Hs Hact Hleft)
      as (h1 & -> & Hgo1 & Hs1 & Hleft1 & Hsh1 & _ & Hsol1).
    cbn beta iota.
    pose proof (betting_solvent agents r passes (set_players_who_acted ∅ h1)) as Hsol2.
    destruct (betting_safe agents r passes (set_players_who_acted ∅ h1) Hs1)
      as (left & h2 & Hbet & Hpl2 & Hsh2 & _).
    rewrite Hbet in Hsol2 |- *. cbn in Hpl2, Hsh2, Hsol2.
    destruct left.
    + destruct (IH h2) as (left' & h' & -> & Hgo' & Hs' & Hsh' & Hend & Hsol').
      { intros r' Hr'. apply Hrounds. by right. }
      { by eapply seated_played_from. }
      { destruct Hpl2 as (-> & -> & _), Hgo1 as (-> & -> & _). done. }
      { destruct Hpl2 as (_ & _ & _ & Hcc & Hdk & _). unfold streets_left.
        rewrite Hcc, Hdk. done. }
      { auto. }
      exists left', h'. split_and!; [done| |done..|auto].
      eapply hand_goes_on_trans; [exact Hgo1|].
      eapply hand_goes_on_trans; [by apply played_from_goes_on|done].
    + exists false, h2. split_and!; [done| |by eapply seated_played_from|auto|done|auto].
      eapply hand_goes_on_trans; [exact Hgo1|by apply played_from_goes_on].
Qed.

Lemma start_hand_any (shuffled : list Card) (g : TexasHoldem) :
  NoDup (players g) →
  (∀ p, p ∈ players g → is_Some (chips g !! p)) →
  (2 * length (players g) + 5 ≤ length shuffled)%nat →
  ∃ view g1,
    start_hand shuffled g = (Ok view, g1) ∧
    players g1 = players g ∧
    NoDup (active_players g1) ∧
    (∀ p, p ∈ active_players g1 → p ∈ players g1) ∧
    seated g1 ∧ streets_left 3 g1 ∧ shows view g1 ∧
    on_table g1 = stacks (chips g) ∧
    (∀ p, p ∈ players g → is_Some (chips g1 !! p)).
Proof.
  intros Hnd Hall Hdeck.
  destruct (start_hand_parts shuffled g Hall)
    as (active & g2 & g3 & view & Hactive & Hrun2 & Hg2 & Hpost & Hg3 & Hstart); [lia|].
  pose proof (with_chips_sublist _ _ _ Hactive) as Hsub.
  pose proof (with_chips_elem _ _ _ Hactive) as Hin.
  assert (NoDup active) as Hnda by (eapply sublist_NoDup; done).
  set (ga := mkTexasHoldem _ _ _ _ _ _ _ _ _ _ _ _ _ _) in *.
  destruct (for_each_deal_to_hands active ga shuffled eq_refl Hnda)
    as (g2' & Hrun2' & Hdk & _ & _).
  { apply sublist_length in Hsub. lia. }
  rewrite Hrun2 in Hrun2'. injection Hrun2' as <-.
  destruct (start_hand_run shuffled g Hall)
    as (view1 & g1 & Hstart1 & Hon & _ & _ & _ & _ & Hcc & Hhole & Hmoved); [lia|].
  rewrite Hstart in Hstart1. injection Hstart1 as <- <-.
  assert (players g3 = players g ∧ active_players g3 = active ∧ deck g3 = deck g2)
    as (Hp3 & Ha3 & Hdk3).
  { rewrite Hg3. cbn. rewrite Hg2. cbn. done. }
  exists view, g3. rewrite Hp3, Ha3. split_and!; try done.
  - intros p Hp. by apply Hin.
  - intros p Hp. rewrite Ha3 in Hp. destruct (proj1 (Hin p) Hp) as (Hpl & c & Hc & _).
    destruct (Hmoved p c Hc Hpl) as (moved & _ & -> & ->).
    split_and!; [eauto..|]. apply Hhole. by rewrite Ha3.
  - unfold streets_left. rewrite Hcc. split; [lia|]. split; [done|].
    eexists. rewrite Hdk3. split; [exact Hdk|]. rewrite length_take.
    apply sublist_length in Hsub. cbn [board_size]. lia.
  - by apply (start_hand_view shuffled g).
  - intros p Hp. destruct (Hall p Hp) as [c Hc].
    destruct (Hmoved p c Hc Hp) as (moved & _ & -> & _). eauto.
Qed.

Lemma play_rounds_cons (agents : nat → Response) (passes : nat) (betting_round : string)
    (rest : list string) (h : Hand) :
  play_rounds agents passes (betting_round :: rest) h
  = if is_hand_complete (game h) then (Ok true, h)
    else ((if bool_decide (betting_round ≠ "preflop") then next_street else H_ret tt) ;;
          H_modify (set_players_who_acted ∅) ;;
          left ← betting agents betting_round passes;
          if left : bool then play_rounds agents passes rest else H_ret false) h.
Proof. reflexivity. Qed.

Lemma play_rounds_any (agents : nat → Response) (passes : nat) (h : Hand) :
  seated (game h) →
  (∀ p, p ∈ active_players (game h) → p ∈ players (game h)) →
  streets_left 3 (game h) →
  shows (game_state h) (game h) →
  ∃ left h', play_rounds agents passes ["preflop"; "flop"; "turn"; "river"] h = (Ok left, h') ∧
    hand_goes_on (game h) (game h') ∧ seated (game h') ∧
    shows (game_state h') (game h') ∧
    (left = true →
     (length (not_folded (game h')) ≤ 1)%nat ∨ length (community_cards (game h')) = 5%nat) ∧
    (solvent (game h) → solvent (game h')).
Proof.
  intros Hs Hact Hleft Hsh. rewrite play_rounds_cons.
  unfold is_hand_complete. case_bool_decide as Hdone.
  { exists true, h. split_and!; [done|apply hand_goes_on_refl|done..| |done]. by left. }
  run_H. rewrite bool_decide_false by (intros Hne; by apply Hne). cbn beta iota.
  pose proof (betting_solvent agents "preflop" passes (set_players_who_acted ∅ h)) as Hsol1.
  destruct (betting_safe agents "preflop" passes (set_players_who_acted ∅ h) Hs)
    as (left & h1 & Hbet & Hpl1 & Hsh1 & _).
  rewrite Hbet in Hsol1 |- *. cbn in Hpl1, Hsh1, Hsol1.
  destruct left.
  - destruct (play_streets_any agents passes ["flop"; "turn"; "river"] h1)
      as (left' & h' & Hplay & Hgo' & Hs' & Hsh' & Hend & Hsol').
    { intros r Hr. intros ->. set_solver. }
    { by eapply seated_played_from. }
    { destruct Hpl1 as (-> & -> & _). done. }
    { destruct Hpl1 as (_ & _ & _ & Hcc & Hdk & _). unfold streets_left.
      cbn [length]. rewrite Hcc, Hdk. done. }
    { auto. }
    rewrite Hplay.
    exists left', h'. split_and!; [done| |done..|auto].
    eapply hand_goes_on_trans; [by apply played_from_goes_on|done].
  - exists false, h1. split_and!; [done| |by eapply seated_played_from|auto|done|auto].
    by apply played_from_goes_on.
Qed.

Lemma showdown_any (g : TexasHoldem) :
  seated g → NoDup (active_players g) →
  (length (not_folded g) ≤ 1)%nat ∨ length (community_cards g) = 5%nat →
  (not_folded g = [] ∧ _determine_winner g = (Raise ValueError, g)) ∨
  (∃ results g',
     _determine_winner g = (Ok results, g') ∧ results ≠ [] ∧
     g' = set_chips (chips g') g ∧
     (∀ p x, (p, x) ∈ results →
        p ∈ not_folded g ∧ x = pot g `div` Z.of_nat (length results)) ∧
     stacks (chips g')
     = stacks (chips g) + Z.of_nat (length results) * (pot g `div` Z.of_nat (length results)) ∧
     (∀ p, is_Some (chips g !! p) → is_Some (chips g' !! p)) ∧
     (solvent g → solvent g')).
Proof.
  intros Hs Hnd Hend.
  destruct (not_folded g) as [|w [|w' rest]] eqn:Hnf.
  - left. split; [done|]. by apply showdown_with_nobody_left.
  - right. assert (w ∈ active_players g) as Hw.
    { assert (w ∈ not_folded g) as [_ ?]%list_elem_of_filter by (rewrite Hnf; by left). done. }
    destruct (Hs w Hw) as ([c Hc] & _).
    pose proof (_determine_winner_single g w c Hnf Hc) as Hrun.
    destruct (_determine_winner_returns _ _ _ Hrun) as (Hg' & Hne & Hx & Hst).
    eexists _, _. split; [exact Hrun|]. split_and!; try done.
    + intros p x [= -> ->]%list_elem_of_singleton. split; [by left|].
      cbn. by rewrite Z.div_1_r.
    + intros p Hp. cbn. rewrite lookup_insert_is_Some.
      destruct (decide (w = p)); [by left|by right].
    + intros (Hpot0 & Hcb0 & Hchips0 & Hbets0). unfold solvent. cbn.
      split_and!; [done..| |done].
      intros p x. destruct (decide (p = w)) as [->|Hne'].
      * rewrite lookup_insert_eq. intros [= <-]. specialize (Hchips0 _ _ Hc). lia.
      * rewrite lookup_insert_ne by done. apply Hchips0.
  - right. destruct Hend as [Hle|Hfive]; [simpl in Hle; lia|].
    destruct (showdown_run g Hnd)
      as (ws & g' & Hrun & Hwne & Hwsub & _ & Hg' & Hpaid & Hother).
    { rewrite Hnf. simpl. lia. }
    { intros p Hp. assert (p ∈ active_players g) as Hpa.
      { by apply list_elem_of_filter in Hp as [_ ?]. }
      destruct (Hs p Hpa) as (? & _ & hole & Hh). split; [done|].
      exists hole. split; [done|]. rewrite length_app. lia. }
    destruct (_determine_winner_returns _ _ _ Hrun) as (_ & Hne & Hx & Hst).
    rewrite <- Hnf. eexists _, _. split; [exact Hrun|]. split_and!; try done.
    + intros p x Hin. split; [|by apply (Hx p)].
      apply list_elem_of_In, in_map_iff in Hin as (q & [= -> _] & Hq).
      eapply elem_of_sublist; [by apply list_elem_of_In|done].
    + intros p Hp. destruct (decide (p ∈ ws)) as [Hin|Hout].
      * destruct (Hpaid p Hin) as (c & _ & ->). eauto.
      * by rewrite (Hother p Hout).
    + intros (Hpot0 & Hcb0 & Hchips0 & Hbets0). rewrite Hg'. unfold solvent. cbn.
      split_and!; [done..| |done].
      intros p x. destruct (decide (p ∈ ws)) as [Hin|Hout].
      * destruct (Hpaid p Hin) as (c & Hc & ->). intros [= <-].
        specialize (Hchips0 _ _ Hc).
        assert (0 ≤ pot g `div` Z.of_nat (length ws)); [|lia].
        apply Z.div_pos; [done|]. destruct ws; [done|simpl; lia].
      * rewrite (Hother p Hout). apply Hchips0.
Qed.

Lemma next_hand_run (g : TexasHoldem) :
  players g ≠ [] → (∀ p, p ∈ players g → is_Some (chips g !! p)) →
  ∃ g', next_hand g = (Ok tt, g') ∧ chips g' = chips g ∧ pot g' = pot g ∧
    (solvent g → solvent g').
Proof.
  intros Hne Hall. unfold next_hand. run_M. rewrite bool_decide_false by done.
  cbn beta iota. cbn [chips players set_dealer_position].
  destruct (with_chips_run (chips g) (players g) Hall) as (active & -> & _).
  cbn beta iota. eexists. split; [reflexivity|]. done.
Qed.

Lemma start_hand_solvent (shuffled : list Card) (g g1 : TexasHoldem) (view : GameState.t) :
  NoDup (players g) →
  (∀ p, p ∈ players g → is_Some (chips g !! p)) →
  (2 * length (players g) ≤ length shuffled)%nat →
  start_hand shuffled g = (Ok view, g1) →
  0 ≤ small_blind g ≤ big_blind g →
  (∀ p c, chips g !! p = Some c → 0 ≤ c) →
  solvent g1.
Proof.
  intros Hnd Hall Hdeck Hstart Hblinds Hchips.
  destruct (start_hand_parts shuffled g Hall Hdeck)
    as (active & g2 & g3 & view' & Hactive & Hrun2 & Hg2 & Hpost & Hg3 & Hstart').
  rewrite Hstart in Hstart'. injection Hstart' as -> ->.
  pose proof (with_chips_elem _ _ _ Hactive) as Hin.
  pose proof (with_chips_sublist _ _ _ Hactive) as Hsub.
  assert (chips g2 = chips g ∧ active_players g2 = active ∧ pot g2 = 0 ∧ current_bet g2 = 0
          ∧ player_bets g2 = list_to_map ((fun player => (player, 0)) <$> players g)
          ∧ small_blind g2 = small_blind g ∧ big_blind g2 = big_blind g
          ∧ dealer_position g2 = dealer_position g)
    as (Hc2 & Ha2 & Hp2 & Hb2 & Hpb2 & Hsb2 & Hbb2 & Hd2).
  { rewrite Hg2. cbn. done. }
  destruct (decide (2 ≤ length active)%nat) as [Hge|Hlt].
  - destruct (post_blinds_two g2)
      as (sb & bb & cs & bs & cb & b' & Hsb & Hbb & Hcs & Hbs & Hcb & Hb' & Hrun).
    { by rewrite Ha2. }
    { intros p Hp. rewrite Ha2 in Hp. apply Hin in Hp as [Hp (c & Hc & _)].
      rewrite Hc2, Hpb2. split; [eauto|]. rewrite lookup_zero_bets by done. eauto. }
    rewrite Hpost in Hrun. injection Hrun as Heq.
    rewrite Ha2 in Hsb, Hbb. unfold getindex in Hsb, Hbb.
    destruct (active !! _) as [sb'|] eqn:Hsbi in Hsb; [|done]. injection Hsb as ->.
    destruct (active !! _) as [bb'|] eqn:Hbbi in Hbb; [|done]. injection Hbb as ->.
    assert (sb ≠ bb) as Hne.
    { intros ->. assert (NoDup active) as Hnda by (eapply sublist_NoDup; done).
      pose proof (NoDup_lookup _ _ _ _ Hnda Hsbi Hbbi) as Heq'.
      apply (next_seat_differs (dealer_position g2) (Z.of_nat (length active))); [lia|].
      apply Z2Nat.inj; [apply Z.mod_pos_bound; lia..|done]. }
    rewrite Hc2 in Hcs. rewrite Hpb2 in Hbs. apply lookup_zero_bets_inv in Hbs as ->.
    pose proof (Hchips _ _ Hcs) as Hcs0.
    assert (0 ≤ cb ∧ b' = 0) as (Hcb0 & ->).
    { rewrite Hc2 in Hcb. rewrite Hpb2 in Hb'.
      rewrite lookup_insert_ne in Hcb by done. rewrite lookup_insert_ne in Hb' by done.
      split; [by apply Hchips in Hcb|by apply lookup_zero_bets_inv in Hb']. }
    rewrite Heq. unfold solvent. cbn. rewrite Hp2, Hsb2, Hbb2, Hc2, Hpb2.
    split_and!; [lia|lia| |].
    + intros p x. destruct (decide (p = bb)) as [->|Hnbb].
      { rewrite lookup_insert_eq. intros [= <-]. lia. }
      rewrite lookup_insert_ne by done. destruct (decide (p = sb)) as [->|Hnsb].
      { rewrite lookup_insert_eq. intros [= <-]. lia. }
      rewrite lookup_insert_ne by done. apply Hchips.
    + intros p x. destruct (decide (p = bb)) as [->|Hnbb].
      { rewrite lookup_insert_eq. intros [= <-]. lia. }
      rewrite lookup_insert_ne by done. destruct (decide (p = sb)) as [->|Hnsb].
      { rewrite lookup_insert_eq. intros [= <-]. lia. }
      rewrite lookup_insert_ne by done. intros ->%lookup_zero_bets_inv. lia.
  - revert Hpost. unfold post_blinds. run_M.
    rewrite bool_decide_false by (rewrite Ha2; lia). intros [= <-].
    unfold solvent. rewrite Hp2, Hb2, Hc2, Hpb2. split_and!; [done..|].
    intros p x ->%lookup_zero_bets_inv. done.
Qed.

Lemma hand_outcomes (agents : nat → Response) (passes : nat)
    (shuffled : list Card) (g : TexasHoldem) :
  NoDup (players g) →
  (∀ p, p ∈ players g → is_Some (chips g !! p)) →
  (2 * length (players g) + 5 ≤ length shuffled)%nat →
  ∃ r g',
    _play_single_hand agents passes shuffled g = (r, g') ∧
    ((r = Ok None ∧ on_table g' = stacks (chips g)) ∨
     (r = Raise ValueError ∧ not_folded g' = [] ∧ on_table g' = stacks (chips g)) ∨
     (∃ result,
        r = Ok (Some result) ∧
        result_winnings result ≠ [] ∧
        result_winners result = map fst (result_winnings result) ∧
        (∀ p x, (p, x) ∈ result_winnings result →
           p ∈ players g ∧
           x = result_pot_size result `div` Z.of_nat (length (result_winnings result))) ∧
        result_pot_size result = pot g' ∧
        stacks (chips g')
        = stacks (chips g)
          - pot g' `mod` Z.of_nat (length (result_winnings result)))) ∧
    (0 ≤ small_blind g ≤ big_blind g → (∀ p c, chips g !! p = Some c → 0 ≤ c) →
     solvent g').
Proof.
  intros Hnd Hall Hdeck.
  destruct (start_hand_any shuffled g Hnd Hall Hdeck)
    as (view & g1 & Hstart & Hp1 & Hnda & Hact & Hs1 & Hleft1 & Hsh1 & Hon1 & Hchips1).
  assert (0 ≤ small_blind g ≤ big_blind g → (∀ p c, chips g !! p = Some c → 0 ≤ c) →
          solvent g1) as Hsol1.
  { intros Hb Hc. eapply start_hand_solvent; [done|done| |done..]. lia. }
  unfold _play_single_hand. rewrite Hstart.
  set (h0 := mkHand g1 view [] ∅ []).
  destruct (play_rounds_any agents passes h0 Hs1 Hact Hleft1 Hsh1)
    as (left & h' & Hplay & Hgo & Hs' & Hsh' & Hend & Hsol').
  destruct Hgo as (Hp' & Ha' & _ & _ & _ & Hon' & Hdom'). cbn in Hp', Ha', Hon', Hdom', Hsol'.
  unfold finish_hand. run_H. rewrite Hplay. cbn beta iota.
  destruct left.
  2:{ eexists _, _. split; [reflexivity|]. cbn. split; [|auto].
      left. split; [done|]. by rewrite Hon'. }
  destruct (showdown_any (game h') Hs') as [[Hnone Hrun]|Hpaid]; [by rewrite Ha'|auto|..].
  { rewrite Hrun. cbn. eexists _, _. split; [reflexivity|]. split; [|auto]. right; left.
    split_and!; [done..|]. by rewrite Hon'. }
  destruct Hpaid as (results & g2 & Hrun & Hne & Hg2 & Hx & Hst & Hdom2 & Hsol2).
  rewrite Hrun. cbn beta iota. cbn [game set_game].
  assert (players g2 = players g) as Hp2.
  { rewrite Hg2. cbn. by rewrite Hp', Hp1. }
  assert (∀ p, p ∈ not_folded (game h') → p ∈ players g) as Hnf.
  { intros p [_ Hp]%list_elem_of_filter. rewrite Ha' in Hp. rewrite <- Hp1. by apply Hact. }
  destruct (next_hand_run g2) as (g3 & Hnext & Hc3 & Hpot3 & Hsol3).
  { rewrite Hp2. destruct results as [|[p x] ?]; [done|].
    destruct (Hx p x) as [Hp _]; [by left|]. apply Hnf in Hp.
    intros E. rewrite E in Hp. by apply elem_of_nil in Hp. }
  { intros p Hp. rewrite Hp2 in Hp. apply Hdom2, Hdom'. by apply Hchips1. }
  rewrite Hnext. cbn.
  eexists _, _. split; [reflexivity|]. split; [|auto]. right; right.
  assert (pot g2 = pot (game h')) as Hpot2 by (rewrite Hg2; done).
  destruct Hsh' as [Hvpot _].
  eexists. split; [reflexivity|]. cbn. rewrite Hvpot, Hpot3, Hc3, Hpot2.
  split_and!; try done.
  - intros p x Hin. destruct (Hx p x Hin) as [Hp ->]. split; [by apply Hnf|done].
  - rewrite Hst. unfold on_table in Hon', Hon1. rewrite Z.mod_eq; [lia|].
    destruct results; [done|]. simpl. lia.
Qed.

(** X22.  What a hand can come to, whatever the agents answer.  On a table
    with a roster without duplicates, a stack entry for every player and a
    deck of two cards per player and five more, [_play_single_hand] ends in
    one of three ways and no other: a betting loop is still running after
    the passes it was given; or every player left has folded and the showdown
    raises ValueError; or a result is returned.  In the first two cases the
    stacks and the pot still add up to the stacks the hand began with.  In
    the third there is at least one winner, every winner is a player of the
    table and is reported with the pot divided by the number of winners,
    rounded down; the pot reported is the pot of the table; and the stacks
    now add up to what they were less the remainder of that division.  No
    other exception, such as KeyError, IndexError or AttributeError, can come
    out of a hand. *)
Theorem hand_has_three_outcomes (agents : nat → Response) (passes : nat)
    (shuffled : list Card) (g : TexasHoldem) :
  NoDup (players g) →
  (∀ p, p ∈ players g → is_Some (chips g !! p)) →
  (2 * length (players g) + 5 ≤ length shuffled)%nat →
  ∃ r g',
    _play_single_hand agents passes shuffled g = (r, g') ∧
    ((r = Ok None ∧ on_table g' = stacks (chips g)) ∨
     (r = Raise ValueError ∧ not_folded g' = [] ∧ on_table g' = stacks (chips g)) ∨
     (∃ result,
        r = Ok (Some result) ∧
        result_winnings result ≠ [] ∧
        result_winners result = map fst (result_winnings result) ∧
        (∀ p x, (p, x) ∈ result_winnings result →
           p ∈ players g ∧
           x = result_pot_size result `div` Z.of_nat (length (result_winnings result))) ∧
        result_pot_size result = pot g' ∧
        stacks (chips g')
        = stacks (chips g)
          - pot g' `mod` Z.of_nat (length (result_winnings result)))).
Proof.
  intros Hnd Hall Hdeck.
  destruct (hand_outcomes agents passes shuffled g Hnd Hall Hdeck) as (r & g' & Hrun & Hout & _).
  by exists r, g'.
Qed.

Lemma hand_has_three_outcomes_witness :
  ∃ r g',
    _play_single_hand (always (Decides (mkPlayerAction RAISE 20))) 5 tie_deck three_way
    = (r, g') ∧
    ((r = Ok None ∧ on_table g' = stacks (chips three_way)) ∨
     (r = Raise ValueError ∧ not_folded g' = [] ∧ on_table g' = stacks (chips three_way)) ∨
     (∃ result,
        r = Ok (Some result) ∧
        result_winnings result ≠ [] ∧
        result_winners result = map fst (result_winnings result) ∧
        (∀ p x, (p, x) ∈ result_winnings result →
           p ∈ players three_way ∧
           x = result_pot_size result `div` Z.of_nat (length (result_winnings result))) ∧
        result_pot_size result = pot g' ∧
        stacks (chips g')
        = stacks (chips three_way)
          - pot g' `mod` Z.of_nat (length (result_winnings result)))).
Proof.
  apply (hand_has_three_outcomes (always (Decides (mkPlayerAction RAISE 20))) 5
           tie_deck three_way).
  - by_compute.
  - intros p Hp. vm_compute in Hp.
    repeat (apply elem_of_cons in Hp as [->|Hp]; [vm_compute; eauto|]).
    by apply elem_of_nil in Hp.
  - vm_compute. lia.
Defined.

(** X24.  No chips come from nowhere and nobody plays on credit, whatever
    the agents answer.  On a table as above whose stacks are all zero or more
    and whose small blind lies between zero and the big blind, however a hand
    ends (result, everybody folded, or a betting loop still running), every
    stack is zero or more afterwards, the pot is zero or more, the stacks add
    up to no more than before the hand, and what is missing from them is no
    more than the pot. *)
Theorem no_chips_from_nowhere (agents : nat → Response) (passes : nat)
    (shuffled : list Card) (g : TexasHoldem) :
  NoDup (players g) →
  (∀ p, p ∈ players g → is_Some (chips g !! p)) →
  (2 * length (players g) + 5 ≤ length shuffled)%nat →
  0 ≤ small_blind g ≤ big_blind g →
  (∀ p c, chips g !! p = Some c → 0 ≤ c) →
  ∃ r g',
    _play_single_hand agents passes shuffled g = (r, g') ∧
    (∀ p c, chips g' !! p = Some c → 0 ≤ c) ∧
    0 ≤ pot g' ∧
    stacks (chips g') ≤ stacks (chips g) ≤ stacks (chips g') + pot g'.
Proof.
  intros Hnd Hall Hdeck Hblinds Hchips.
  destruct (hand_outcomes agents passes shuffled g Hnd Hall Hdeck)
    as (r & g' & Hrun & Hout & Hsol).
  destruct (Hsol Hblinds Hchips) as (Hpot & _ & Hchips' & _).
  exists r, g'. split_and!; [done..| |].
  - destruct Hout as [[_ Hon]|[(_ & _ & Hon)|(result & _ & Hne & _ & _ & _ & Hst)]].
    + unfold on_table in Hon. lia.
    + unfold on_table in Hon. lia.
    + rewrite Hst.
      assert (0 ≤ pot g' `mod` Z.of_nat (length (result_winnings result))); [|lia].
      apply Z.mod_pos_bound. destruct (result_winnings result); [done|simpl; lia].
  - destruct Hout as [[_ Hon]|[(_ & _ & Hon)|(result & _ & Hne & _ & _ & _ & Hst)]].
    + unfold on_table in Hon. lia.
    + unfold on_table in Hon. lia.
    + rewrite Hst.
      assert (pot g' `mod` Z.of_nat (length (result_winnings result)) ≤ pot g'); [|lia].
      apply Z.mod_le; [done|]. destruct (result_winnings result); [done|simpl; lia].
Qed.

Lemma no_chips_from_nowhere_witness :
  ∃ r g',
    _play_single_hand (always (Decides (mkPlayerAction RAISE 20))) 5 tie_deck three_way
    = (r, g') ∧
    (∀ p c, chips g' !! p = Some c → 0 ≤ c) ∧
    0 ≤ pot g' ∧
    stacks (chips g') ≤ stacks (chips three_way) ≤ stacks (chips g') + pot g'.
Proof.
  apply (no_chips_from_nowhere (always (Decides (mkPlayerAction RAISE 20))) 5
           tie_deck three_way).
  - by_compute.
  - intros p Hp. vm_compute in Hp.
    repeat (apply elem_of_cons in Hp as [->|Hp]; [vm_compute; eauto|]).
    by apply elem_of_nil in Hp.
  - vm_compute. lia.
  - vm_compute. split; discriminate.
  - intros p c Hc.
    assert (chips three_way = <["A" := 100]> (<["B" := 100]> (<["C" := 100]> ∅))) as Heq
      by (by vm_compute).
    rewrite Heq in Hc.
    repeat (apply lookup_insert_Some in Hc as [[_ <-]|[_ Hc]]; [lia|]). done.
Defined.

(** * The overall winner *)






